(** * SimpleCalculator: the evaluation state machine of the calculator component

    The Lightning web component [SimpleCalculator] keeps five fields
    ([displayValue], [currentValue], [pendingOperator], [awaitingNextValue],
    [hasError]) and mutates them in its button handlers.  The handlers are
    embedded below as pure functions from state to state, one per method,
    under the names of the source.

    JavaScript numbers are IEEE 754 binary64 values, taken from the Standard
    Library's [SpecFloat] with its arithmetic.  The built-ins the component
    calls ([parseFloat], [Number.prototype.toPrecision],
    [Number.prototype.toString], [Number.isFinite],
    [String.prototype.includes]) are modelled after ECMA-262 as executable
    functions, with these choices where the standard leaves room or the
    model is narrower:
    - strings are byte strings, and the white space [parseFloat] skips is
      the ASCII one;
    - [parseFloat] rounds the decimal it reads to the nearest Number
      whatever the number of digits (the standard lets an engine deviate
      after the twentieth significant digit);
    - among several shortest digit strings [Number::toString] takes the one
      closest to the value, as the standard recommends. *)

From Stdlib Require Import ZArith List String Ascii Bool Lia Lqa.
From Stdlib Require Import Floats.SpecFloat.
From Stdlib Require Import QArith Qpower.
Import ListNotations.

Local Open Scope string_scope.
Local Open Scope Z_scope.

(** ** The JavaScript runtime the component relies on *)

Module JS.

(** *** Numbers: IEEE 754 binary64 *)

Definition prec : Z := 53.
Definition emax : Z := 1024.

Definition number : Type := spec_float.

Definition NaN : number := S754_nan.

Definition add (x y : number) : number := SFadd prec emax x y.
Definition sub (x y : number) : number := SFsub prec emax x y.
Definition mul (x y : number) : number := SFmul prec emax x y.
Definition div (x y : number) : number := SFdiv prec emax x y.

(** The Number value of an integer literal such as [0], [-1] or [100]. *)
Definition of_Z (z : Z) : number := binary_normalize prec emax z 0 false.

(** [x === y] on two Numbers: [+0] equals [-0], [NaN] equals nothing. *)
Definition strict_eq (x y : number) : bool := SFeqb x y.

(** [Number.isFinite(x)] for a Number [x]. *)
Definition isFinite (x : number) : bool :=
  match x with
  | S754_zero _ | S754_finite _ _ _ => true
  | S754_infinity _ | S754_nan => false
  end.

(** The Number nearest to the rational [n / d] (ties to even), signed by
    [neg]: the division of [SpecFloat] applied to the two integers. *)
Definition of_ratio (neg : bool) (n d : positive) : number :=
  SFdiv prec emax (S754_finite neg n 0) (S754_finite false d 0).

(** The Number nearest to [m * 10 ^ e10] for [0 <= m]. *)
Definition of_decimal (neg : bool) (m e10 : Z) : number :=
  match m with
  | Zpos p =>
      if 0 <=? e10
      then of_ratio neg (Z.to_pos (m * 10 ^ e10)) 1
      else of_ratio neg p (Z.to_pos (10 ^ (- e10)))
  | _ => S754_zero neg
  end.

(** Same Number, compared as data: the sign of zero counts, [NaN] equals
    itself.  Used by the digit search of [Number_toString]. *)
Definition same_value (x y : number) : bool :=
  match x, y with
  | S754_zero a, S754_zero b => Bool.eqb a b
  | S754_infinity a, S754_infinity b => Bool.eqb a b
  | S754_nan, S754_nan => true
  | S754_finite a m e, S754_finite b m' e' =>
      Bool.eqb a b && Pos.eqb m m' && Z.eqb e e'
  | _, _ => false
  end.

(** *** Strings *)

(** [s.includes(sub)] *)
Definition includes (sub s : string) : bool :=
  match index 0 sub s with
  | Some _ => true
  | None => false
  end.

(** [n] times the character [c]. *)
Fixpoint repeat_string (c : ascii) (n : nat) : string :=
  match n with
  | O => EmptyString
  | S n' => String c (repeat_string c n')
  end.

Definition zeros (n : Z) : string := repeat_string "0"%char (Z.to_nat n).

(** The character of the digit [0 <= d < 10]. *)
Definition digit_char (d : Z) : ascii := ascii_of_nat (Z.to_nat d + 48).

(** The digits of [n], least significant first, put in front of [acc]. *)
Fixpoint digits_aux (fuel : nat) (n : Z) (acc : string) : string :=
  match fuel with
  | O => acc
  | S fuel' =>
      let acc' := String (digit_char (n mod 10)) acc in
      if n <? 10 then acc' else digits_aux fuel' (n / 10) acc'
  end.

(** The decimal representation of the integer [n >= 0], without leading
    zeros. *)
Definition decimal_digits (n : Z) : string :=
  digits_aux (S (Z.to_nat (Z.log2 n))) n EmptyString.

Definition is_digit (c : ascii) : bool :=
  let n := Z.of_nat (nat_of_ascii c) in (48 <=? n) && (n <=? 57).

Definition digit_value (c : ascii) : Z := Z.of_nat (nat_of_ascii c) - 48.

(** Reads the longest run of decimal digits at the head of [s]: the value
    read (on top of [acc]), how many digits were read, and the rest. *)
Fixpoint scan_digits (s : string) (acc : Z) (count : Z) : Z * Z * string :=
  match s with
  | String c rest =>
      if is_digit c
      then scan_digits rest (acc * 10 + digit_value c) (count + 1)
      else (acc, count, s)
  | EmptyString => (acc, count, s)
  end.

Definition is_whitespace (c : ascii) : bool :=
  let n := nat_of_ascii c in
  (Nat.eqb n 32 || Nat.eqb n 9 || Nat.eqb n 10 || Nat.eqb n 11
   || Nat.eqb n 12 || Nat.eqb n 13)%bool.

Fixpoint trim_start (s : string) : string :=
  match s with
  | String c rest => if is_whitespace c then trim_start rest else s
  | EmptyString => s
  end.

Definition scan_sign (s : string) : bool * string :=
  match s with
  | String "+"%char rest => (false, rest)
  | String "-"%char rest => (true, rest)
  | _ => (false, s)
  end.

(** The exponent part [e[+-]ddd] if one starts [s], else [0]. *)
Definition scan_exponent (s : string) : Z :=
  match s with
  | String c rest =>
      if (Ascii.eqb c "e" || Ascii.eqb c "E")%bool
      then
        let '(neg, rest') := scan_sign rest in
        let '(v, count, _) := scan_digits rest' 0 0 in
        if count =? 0 then 0 else if neg then - v else v
      else 0
  | EmptyString => 0
  end.

(** The fraction part [.ddd] if one starts [s], read on top of the integer
    part [ip]: the value of all digits so far, how many digits the fraction
    has, and the rest. *)
Definition scan_fraction (s : string) (ip : Z) : Z * Z * string :=
  match s with
  | String "."%char rest => scan_digits rest ip 0
  | _ => (ip, 0, s)
  end.

(** The value of the longest prefix of [s] that is a
    [StrUnsignedDecimalLiteral], signed by [neg]: [Infinity], or digits with
    an optional fraction and an optional exponent, rounded to the nearest
    Number; [NaN] when there is no such prefix. *)
Definition parse_unsigned (neg : bool) (s : string) : number :=
  if prefix "Infinity" s then S754_infinity neg
  else
    let '(ip, ni, s2) := scan_digits s 0 0 in
    let '(m, nf, s3) := scan_fraction s2 ip in
    if ni + nf =? 0 then NaN
    else of_decimal neg m (scan_exponent s3 - nf).

(** *** [parseFloat(string)]

    Leading white space is skipped and the longest prefix that is a
    [StrDecimalLiteral] is read. *)
Definition parseFloat (input : string) : number :=
  let '(neg, s) := scan_sign (trim_start input) in
  parse_unsigned neg s.

(** *** Decimal expansion of a positive rational [num / den] *)

(** [num / den] times [10 ^ k], as a fraction. *)
Definition scale10 (num den k : Z) : Z * Z :=
  if 0 <=? k then (num * 10 ^ k, den) else (num, den * 10 ^ (- k)).

(** How many decimal digits [n] has. *)
Definition ndigits (n : Z) : Z := Z.of_nat (String.length (decimal_digits n)).

(** The integer [n] with [10 ^ (n - 1) <= num / den < 10 ^ n]. *)
Definition decimal_exponent (num den : Z) : Z :=
  if den <=? num then ndigits (num / den)
  else
    let d := ndigits (den / num) in
    if den <=? num * 10 ^ (d - 1) then 2 - d else 1 - d.

(** The exact value of the finite Number with mantissa [m] and binary
    exponent [e], as a fraction. *)
Definition exact_ratio (m : positive) (e : Z) : Z * Z :=
  if 0 <=? e then (Zpos m * 2 ^ e, 1) else (Zpos m, 2 ^ (- e)).

(** *** [Number.prototype.toString()] in radix 10

    For a finite non-zero [x], ECMA-262 asks for integers [n], [k], [s] with
    [10 ^ (k - 1) <= s < 10 ^ k], such that [s * 10 ^ (n - k)] rounds to
    [x], and [k] as small as possible; among several [s], the one closest
    to [x].  A pair [(s, n)] below stands for the digits of [s] with the
    decimal point after [n] of them. *)

(** The Number that the digits denote. *)
Definition digits_number (sn : Z * Z) : number :=
  of_decimal false (fst sn) (snd sn - ndigits (fst sn)).

(** The candidate [c * 10 ^ (n0 - k)], where [c] has [k] digits or is
    [10 ^ k], which is written with the single digit 1. *)
Definition candidate (c n0 k : Z) : Z * Z :=
  if c =? 10 ^ k then (1, n0 + 1) else (c, n0).

(** The full decimal expansion of [m * 2 ^ e]. *)
Definition exact_digits (m : positive) (e : Z) : Z * Z :=
  if 0 <=? e then (Zpos m * 2 ^ e, ndigits (Zpos m * 2 ^ e))
  else (Zpos m * 5 ^ (- e), ndigits (Zpos m * 5 ^ (- e)) + e).

(** Tries [k], [k + 1], ... digits: the two [k]-digit decimals around [x]
    are the only candidates.  Seventeen digits are enough for a binary64
    value; the search would end with the full expansion. *)
Fixpoint shortest_digits (fuel : nat) (m : positive) (e : Z) (n0 k : Z)
  : Z * Z :=
  let '(num, den) := exact_ratio m e in
  let '(tn, td) := scale10 num den (k - n0) in
  let lo := candidate (tn / td) n0 k in
  let hi := candidate (tn / td + 1) n0 k in
  let x := S754_finite false m e in
  let lo_ok := same_value (digits_number lo) x in
  let hi_ok := same_value (digits_number hi) x in
  let hi_nearer :=
    match 2 * (tn mod td) ?= td with
    | Lt => false
    | Gt => true
    | Eq => Z.odd (tn / td)
    end in
  if lo_ok && hi_ok then (if hi_nearer then hi else lo)
  else if lo_ok then lo
  else if hi_ok then hi
  else
    match fuel with
    | S fuel' => shortest_digits fuel' m e n0 (k + 1)
    | O => exact_digits m e
    end.

(** The first [n] characters of [s], and the others. *)
Definition string_take (n : Z) (s : string) : string :=
  substring 0 (Z.to_nat n) s.

Definition string_drop (n : Z) (s : string) : string :=
  substring (Z.to_nat n) (String.length s - Z.to_nat n) s.

(** The exponent part, with its sign always written. *)
Definition exponent_suffix (e : Z) : string :=
  "e" ++ (if e <? 0 then "-" else "+") ++ decimal_digits (Z.abs e).

(** The digits [s] with the decimal point after [n] of them, as
    [Number::toString] writes them. *)
Definition format_digits (s n : Z) : string :=
  let ds := decimal_digits s in
  let k := ndigits s in
  if (k <=? n) && (n <=? 21) then ds ++ zeros (n - k)
  else if (0 <? n) && (n <=? 21) then
    string_take n ds ++ "." ++ string_drop n ds
  else if (-6 <? n) && (n <=? 0) then "0." ++ zeros (- n) ++ ds
  else if k =? 1 then ds ++ exponent_suffix (n - 1)
  else string_take 1 ds ++ "." ++ string_drop 1 ds ++ exponent_suffix (n - 1).

Definition toString_finite (m : positive) (e : Z) : string :=
  let '(num, den) := exact_ratio m e in
  let n0 := decimal_exponent num den in
  let '(s, n) := shortest_digits 16 m e n0 1 in
  format_digits s n.

Definition Number_toString (x : number) : string :=
  match x with
  | S754_nan => "NaN"
  | S754_zero _ => "0"
  | S754_infinity s => (if s then "-" else "") ++ "Infinity"
  | S754_finite s m e => (if s then "-" else "") ++ toString_finite m e
  end.

(** *** [Number.prototype.toPrecision(p)] for [1 <= p <= 100]

    For a finite non-zero [x], the integers [e] and [n] with
    [10 ^ (p - 1) <= n < 10 ^ p] for which [n * 10 ^ (e - p + 1)] is
    closest to [x], the larger one on a tie. *)
Definition precision_digits (m : positive) (e : Z) (p : Z) : Z * Z :=
  let '(num, den) := exact_ratio m e in
  let e0 := decimal_exponent num den - 1 in
  let '(tn, td) := scale10 num den (p - 1 - e0) in
  let n := (2 * tn + td) / (2 * td) in
  if n =? 10 ^ p then (10 ^ (p - 1), e0 + 1) else (n, e0).

(** The [p] digits [ds] at the decimal exponent [e], in exponential
    notation when [e < -6] or [e >= p], in fixed notation otherwise. *)
Definition toPrecision_digits (ds : string) (e p : Z) : string :=
  if (e <? -6) || (p <=? e) then
    (if p =? 1 then ds else string_take 1 ds ++ "." ++ string_drop 1 ds)
    ++ exponent_suffix e
  else if e =? p - 1 then ds
  else if 0 <=? e then
    string_take (e + 1) ds ++ "." ++ string_drop (e + 1) ds
  else "0." ++ zeros (- (e + 1)) ++ ds.

Definition Number_toPrecision (x : number) (p : Z) : string :=
  match x with
  | S754_nan | S754_infinity _ => Number_toString x
  | S754_zero _ => toPrecision_digits (zeros p) 0 p
  | S754_finite s m e =>
      let '(n, e10) := precision_digits m e p in
      (if s then "-" else "") ++ toPrecision_digits (decimal_digits n) e10 p
  end.

(** *** Comparisons, [Math] and the remainder *)

(** [x < y], [x > y] and [x >= y]: false when an operand is [NaN]. *)
Definition Number_lt (x y : number) : bool := SFltb x y.
Definition Number_gt (x y : number) : bool := SFltb y x.
Definition Number_ge (x y : number) : bool := SFleb y x.

(** The unary minus. *)
Definition Number_neg (x : number) : number := SFopp x.

(** [ToBoolean] of a Number: [NaN] and the zeros are falsy. *)
Definition ToBoolean (x : number) : bool :=
  match x with
  | S754_zero _ | S754_nan => false
  | _ => true
  end.

Definition Math_abs (x : number) : number := SFabs x.

(** [Math.floor(x)]: a finite [x] with a fraction part goes down to the
    integer below it, which is a Number; a positive [x] below one gives
    [+0]. *)
Definition Math_floor (x : number) : number :=
  match x with
  | S754_finite s m e =>
      if 0 <=? e then x
      else if s
           then binary_normalize prec emax
                  (- ((Zpos m + 2 ^ (- e) - 1) / 2 ^ (- e))) 0 true
           else binary_normalize prec emax (Zpos m / 2 ^ (- e)) 0 false
  | _ => x
  end.

(** [Math.round(x)]: the nearest integer, the one towards [+Infinity] on a
    tie; a zero result keeps the sign of [x]. *)
Definition Math_round (x : number) : number :=
  match x with
  | S754_finite s m e =>
      if 0 <=? e then x
      else if s
           then binary_normalize prec emax
                  (- ((2 * Zpos m + 2 ^ (- e) - 1) / 2 ^ (- e + 1))) 0 true
           else binary_normalize prec emax
                  ((2 * Zpos m + 2 ^ (- e)) / 2 ^ (- e + 1)) 0 false
  | _ => x
  end.

(** [n % d]: the rest of the division truncated towards zero, which is a
    Number and has the sign of [n]. *)
Definition Number_remainder (n d : number) : number :=
  match n, d with
  | S754_nan, _ | _, S754_nan => NaN
  | S754_infinity _, _ => NaN
  | _, S754_infinity _ => n
  | _, S754_zero _ => NaN
  | S754_zero _, _ => n
  | S754_finite sn mn en, S754_finite _ md ed =>
      let e0 := Z.min en ed in
      let r := (Zpos mn * 2 ^ (en - e0)) mod (Zpos md * 2 ^ (ed - e0)) in
      if r =? 0 then S754_zero sn
      else binary_normalize prec emax (if sn then - r else r) e0 false
  end.

(** [s.padStart(n, c)] for a pad [c] of one character. *)
Definition padStart (s : string) (n : Z) (c : ascii) : string :=
  repeat_string c (Z.to_nat (n - Z.of_nat (String.length s))) ++ s.

(** [s.replace(/_/g, ' ')]. *)
Fixpoint replace_underscores (s : string) : string :=
  match s with
  | EmptyString => EmptyString
  | String c r =>
      String (if Ascii.eqb c "_" then " "%char else c) (replace_underscores r)
  end.

(** [xs.push(x)]. *)
Definition push (xs : list string) (x : string) : list string :=
  (xs ++ [x])%list.

(** [Array.from(new Set(xs))]: the elements of [xs] in the order of their
    first occurrences. *)
Fixpoint Set_add (x : string) (xs : list string) : list string :=
  match xs with
  | [] => [x]
  | y :: r => if String.eqb y x then xs else y :: Set_add x r
  end.

Definition Set_from (xs : list string) : list string :=
  fold_left (fun acc x => Set_add x acc) xs [].

End JS.

(** ** The component *)

Module SimpleCalculator.
Import JS.

(** String shown whenever the calculator is cleared or empty. *)
Definition DEFAULT_DISPLAY : string := "0".

(** The fields of the component.  [currentValue] and [pendingOperator] are
    [null] or a value; an operator is the string a button carries. *)
Record State : Type := mkState {
  displayValue : string;
  currentValue : option number;
  pendingOperator : option string;
  awaitingNextValue : bool;
  hasError : bool
}.

(** The field initialisers of the class. *)
Definition initialState : State :=
  mkState DEFAULT_DISPLAY None None false false.

Definition set_displayValue (v : string) (s : State) : State :=
  mkState v (currentValue s) (pendingOperator s) (awaitingNextValue s)
          (hasError s).

Definition set_currentValue (v : option number) (s : State) : State :=
  mkState (displayValue s) v (pendingOperator s) (awaitingNextValue s)
          (hasError s).

Definition set_pendingOperator (v : option string) (s : State) : State :=
  mkState (displayValue s) (currentValue s) v (awaitingNextValue s)
          (hasError s).

Definition set_awaitingNextValue (v : bool) (s : State) : State :=
  mkState (displayValue s) (currentValue s) (pendingOperator s) v
          (hasError s).

(** Truthiness of [this.pendingOperator]: [null] and the empty string are
    falsy. *)
Definition truthy (v : option string) : bool :=
  match v with
  | Some op => negb (op =? "")%string
  | None => false
  end.

(** A [null] operand of an arithmetic operator counts as [+0]. *)
Definition to_number (v : option number) : number :=
  match v with
  | Some x => x
  | None => of_Z 0
  end.

Definition resetCalculator (s : State) : State :=
  mkState DEFAULT_DISPLAY None None false false.

Definition signalError (s : State) : State :=
  mkState "Error" None None false true.

(** [operator === label] for a [case] label of the [switch]. *)
Definition is_case (operator : option string) (label : string) : bool :=
  match operator with
  | Some op => (op =? label)%string
  | None => false
  end.

(** [operator] is [this.pendingOperator], a string or [null]; the result
    [None] is the [null] returned on a division by zero. *)
Definition performCalculation (firstValue : option number)
    (secondValue : number) (operator : option string) : option number :=
  if is_case operator "+" then
    Some (add (to_number firstValue) secondValue)
  else if is_case operator "-" then
    Some (sub (to_number firstValue) secondValue)
  else if is_case operator "*" then
    Some (mul (to_number firstValue) secondValue)
  else if is_case operator "/" then
    if strict_eq secondValue (of_Z 0) then None
    else Some (div (to_number firstValue) secondValue)
  else Some secondValue.

(** [parseFloat(value)] on a Number first converts it to a string. *)
Definition formatResult (value : number) : string :=
  let result :=
    parseFloat (Number_toPrecision (parseFloat (Number_toString value)) 12) in
  if isFinite result then Number_toString result else DEFAULT_DISPLAY.

Definition inputDigit (digit : string) (s : State) : State :=
  let s := if hasError s then resetCalculator s else s in
  if awaitingNextValue s then
    set_awaitingNextValue false (set_displayValue digit s)
  else if (displayValue s =? DEFAULT_DISPLAY)%string then
    set_displayValue digit s
  else set_displayValue (displayValue s ++ digit) s.

Definition inputDecimal (s : State) : State :=
  let s := if hasError s then resetCalculator s else s in
  if awaitingNextValue s then
    set_awaitingNextValue false (set_displayValue "0." s)
  else if negb (includes "." (displayValue s)) then
    set_displayValue (displayValue s ++ ".") s
  else s.

Definition handleOperator (operator : string) (s : State) : State :=
  if hasError s then s
  else
    let inputValue := parseFloat (displayValue s) in
    if truthy (pendingOperator s) && awaitingNextValue s then
      set_pendingOperator (Some operator) s
    else
      let stage (s' : State) : State :=
        set_awaitingNextValue true (set_pendingOperator (Some operator) s') in
      match currentValue s with
      | None => stage (set_currentValue (Some inputValue) s)
      | Some _ =>
          if truthy (pendingOperator s) then
            match performCalculation (currentValue s) inputValue
                    (pendingOperator s) with
            | None => signalError s
            | Some result =>
                stage (set_displayValue (formatResult result)
                         (set_currentValue (Some result) s))
            end
          else stage (set_currentValue (Some inputValue) s)
      end.

Definition handleEquals (s : State) : State :=
  if hasError s || negb (truthy (pendingOperator s)) || awaitingNextValue s
  then s
  else
    let inputValue := parseFloat (displayValue s) in
    match performCalculation (currentValue s) inputValue
            (pendingOperator s) with
    | None => signalError s
    | Some result =>
        set_awaitingNextValue false
          (set_pendingOperator None
             (set_currentValue None
                (set_displayValue (formatResult result) s)))
    end.

Definition toggleSign (s : State) : State :=
  if hasError s || (displayValue s =? DEFAULT_DISPLAY)%string then s
  else
    let value := mul (parseFloat (displayValue s)) (of_Z (-1)) in
    set_displayValue (formatResult value) s.

Definition applyPercent (s : State) : State :=
  if hasError s then s
  else
    let value := parseFloat (displayValue s) in
    let result := div value (of_Z 100) in
    let s' := set_displayValue (formatResult result) s in
    if negb (truthy (pendingOperator s')) then
      set_currentValue (Some result) s'
    else s'.

(** The [data-action] and [data-value] attributes of the clicked button
    select the handler. *)
Definition handleButtonClick (action value : string) (s : State) : State :=
  if (action =? "digit")%string then inputDigit value s
  else if (action =? "decimal")%string then inputDecimal s
  else if (action =? "operator")%string then handleOperator value s
  else if (action =? "equals")%string then handleEquals s
  else if (action =? "clear")%string then resetCalculator s
  else if (action =? "toggleSign")%string then toggleSign s
  else if (action =? "percent")%string then applyPercent s
  else s.

(** *** The button layout and its actions *)

(** A button of [BUTTON_LAYOUT]: its id, its action and, for digits and
    operators, its value (the label and the column span play no part in
    the behaviour). *)
Record button : Type := mkButton {
  button_id : string;
  button_action : string;
  button_value : option string
}.

Definition BUTTON_LAYOUT : list (list button) :=
  [ [ mkButton "btn-ac" "clear" None;
      mkButton "btn-sign" "toggleSign" None;
      mkButton "btn-percent" "percent" None;
      mkButton "btn-divide" "operator" (Some "/") ];
    [ mkButton "btn-7" "digit" (Some "7");
      mkButton "btn-8" "digit" (Some "8");
      mkButton "btn-9" "digit" (Some "9");
      mkButton "btn-multiply" "operator" (Some "*") ];
    [ mkButton "btn-4" "digit" (Some "4");
      mkButton "btn-5" "digit" (Some "5");
      mkButton "btn-6" "digit" (Some "6");
      mkButton "btn-subtract" "operator" (Some "-") ];
    [ mkButton "btn-1" "digit" (Some "1");
      mkButton "btn-2" "digit" (Some "2");
      mkButton "btn-3" "digit" (Some "3");
      mkButton "btn-add" "operator" (Some "+") ];
    [ mkButton "btn-0" "digit" (Some "0");
      mkButton "btn-decimal" "decimal" None;
      mkButton "btn-equals" "equals" None ] ].

(** [button.value ?? ''], the [data-value] of the rendered button. *)
Definition dataValue (b : button) : string :=
  match button_value b with
  | Some v => v
  | None => ""
  end.

(** The actions of the specification. *)
Inductive digit : Type := D0 | D1 | D2 | D3 | D4 | D5 | D6 | D7 | D8 | D9.

Inductive operator : Type := Plus | Minus | Times | Divide.

Inductive action : Type :=
| Digit (d : digit)
| Decimal
| Operator (op : operator)
| Equals
| Clear
| ToggleSign
| Percent.

Definition digit_string (d : digit) : string :=
  match d with
  | D0 => "0" | D1 => "1" | D2 => "2" | D3 => "3" | D4 => "4"
  | D5 => "5" | D6 => "6" | D7 => "7" | D8 => "8" | D9 => "9"
  end.

Definition operator_string (op : operator) : string :=
  match op with
  | Plus => "+" | Minus => "-" | Times => "*" | Divide => "/"
  end.

(** The [data-action] and [data-value] of the button of each action. *)
Definition dataset (a : action) : string * string :=
  match a with
  | Digit d => ("digit", digit_string d)
  | Decimal => ("decimal", "")
  | Operator op => ("operator", operator_string op)
  | Equals => ("equals", "")
  | Clear => ("clear", "")
  | ToggleSign => ("toggleSign", "")
  | Percent => ("percent", "")
  end.

(** Applying an action is a click on its button. *)
Definition applyAction (a : action) (s : State) : State :=
  handleButtonClick (fst (dataset a)) (snd (dataset a)) s.

(** The state after a sequence of actions, applied left to right. *)
Definition run (actions : list action) (s : State) : State :=
  fold_left (fun st a => applyAction a st) actions s.

(** *** Rendering *)

(** An entry of [BUTTON_LAYOUT] with all its fields; [value] and
    [columnSpan] are absent from most entries. *)
Record layoutButton : Type := mkLayoutButton {
  lb_id : string;
  lb_label : string;
  lb_action : string;
  lb_value : option string;
  lb_columnSpan : option Z
}.

Record layoutRow : Type := mkLayoutRow {
  lr_id : string;
  lr_buttons : list layoutButton
}.

(** [BUTTON_LAYOUT] as the source declares it, rows and labels included. *)
Definition BUTTON_ROWS : list layoutRow :=
  [ mkLayoutRow "row-1"
      [ mkLayoutButton "btn-ac" "AC" "clear" None None;
        mkLayoutButton "btn-sign" "+/-" "toggleSign" None None;
        mkLayoutButton "btn-percent" "%" "percent" None None;
        mkLayoutButton "btn-divide" "÷" "operator" (Some "/") None ];
    mkLayoutRow "row-2"
      [ mkLayoutButton "btn-7" "7" "digit" (Some "7") None;
        mkLayoutButton "btn-8" "8" "digit" (Some "8") None;
        mkLayoutButton "btn-9" "9" "digit" (Some "9") None;
        mkLayoutButton "btn-multiply" "×" "operator" (Some "*") None ];
    mkLayoutRow "row-3"
      [ mkLayoutButton "btn-4" "4" "digit" (Some "4") None;
        mkLayoutButton "btn-5" "5" "digit" (Some "5") None;
        mkLayoutButton "btn-6" "6" "digit" (Some "6") None;
        mkLayoutButton "btn-subtract" "−" "operator" (Some "-") None ];
    mkLayoutRow "row-4"
      [ mkLayoutButton "btn-1" "1" "digit" (Some "1") None;
        mkLayoutButton "btn-2" "2" "digit" (Some "2") None;
        mkLayoutButton "btn-3" "3" "digit" (Some "3") None;
        mkLayoutButton "btn-add" "+" "operator" (Some "+") None ];
    mkLayoutRow "row-5"
      [ mkLayoutButton "btn-0" "0" "digit" (Some "0") (Some 2);
        mkLayoutButton "btn-decimal" "." "decimal" None None;
        mkLayoutButton "btn-equals" "=" "equals" None None ] ].

(** [this.pendingOperator === button.value]: [null] and [undefined] are
    equal to no string, nor to each other. *)
Definition same_operator (pending value : option string) : bool :=
  match pending, value with
  | Some a, Some b => (a =? b)%string
  | _, _ => false
  end.

(** The classes pushed by [resolveClassName], in order. *)
Definition resolveClasses (b : layoutButton) (s : State) : list string :=
  let classes := ["slds-button"; "calc-button"] in
  let classes :=
    match lb_columnSpan b with
    | Some 2 => (classes ++ ["double-span"])%list
    | _ => classes
    end in
  if (lb_action b =? "operator")%string then
    let classes :=
      (classes ++ ["slds-button_outline-brand"; "operator"])%list in
    if same_operator (pendingOperator s) (lb_value b) && awaitingNextValue s
    then (classes ++ ["active"])%list
    else classes
  else if (lb_action b =? "equals")%string then
    (classes ++ ["slds-button_brand"; "equals"])%list
  else if ((lb_action b =? "clear") || (lb_action b =? "toggleSign")
           || (lb_action b =? "percent"))%string then
    (classes ++ ["slds-button_inverse"; "utility"])%list
  else (classes ++ ["slds-button_neutral"])%list.

(** [classes.join(' ')] *)
Definition resolveClassName (b : layoutButton) (s : State) : string :=
  String.concat " " (resolveClasses b s).

(** A button as [buttonRows] hands it to the template: the layout entry
    with its class string and its [data-value]. *)
Record viewButton : Type := mkViewButton {
  vb_button : layoutButton;
  vb_className : string;
  vb_dataValue : string
}.

Record viewRow : Type := mkViewRow {
  vr_id : string;
  vr_buttons : list viewButton
}.

Definition buttonRows (s : State) : list viewRow :=
  map (fun row =>
         mkViewRow (lr_id row)
           (map (fun b =>
                   mkViewButton b (resolveClassName b s)
                     (match lb_value b with Some v => v | None => "" end))
              (lr_buttons row)))
    BUTTON_ROWS.

End SimpleCalculator.

(** ** The clock component

    [SimpleClock] shows the time of a zone picked from a list.  Its fields
    are a record and its methods functions on it, under the names of the
    source.  What a method reads from the host ([Date], [Intl],
    [window.setInterval]) is an argument of its function: the timestamp,
    the id of the interval and, where offsets are computed, the time values
    of a [Reading].  [openPreferences] only dispatches an event and has no
    counterpart here. *)

Module SimpleClock.
Import JS.

(** The zones offered beside the viewer's own. *)
Definition BASE_TIMEZONES : list string :=
  [ "UTC"; "America/Los_Angeles"; "America/Chicago"; "America/New_York";
    "Europe/London"; "Europe/Paris"; "Asia/Dubai"; "Asia/Kolkata";
    "Asia/Tokyo"; "Australia/Sydney" ].

(** An entry of the combobox. *)
Record zoneOption : Type := mkZoneOption {
  option_value : string;
  option_label : string
}.

(** The fields of the component; [None] is [undefined]. *)
Record Clock : Type := mkClock {
  currentTime : string;
  selectedTimezone : option string;
  isTwentyFourHour : bool;
  timezoneOptions : list zoneOption;
  intervalId : option Z;
  localTimezone : string
}.

(** What the host answers while the offset of one zone is computed:
    [now.getTime()] and [zoneDate.getTime()] in [computeDifferenceFromLocal],
    where [zoneDate] is the date read back from [now.toLocaleString] for the
    zone, and [now.getTimezoneOffset()] in [formatZoneOffset].  The time
    value of an invalid date is [NaN]. *)
Record Reading : Type := mkReading {
  now_time : number;
  zone_time : number;
  timezone_offset : number
}.

(** The component as constructed: [iso] is [new Date().toISOString()] and
    [resolved] the zone that [Intl] reports, falsy when it reports none. *)
Definition newClock (iso : string) (resolved : option string) : Clock :=
  mkClock iso None false [] None
    (match resolved with
     | Some z => if String.eqb z "" then "UTC" else z
     | None => "UTC"
     end).

Definition set_currentTime (v : string) (c : Clock) : Clock :=
  mkClock v (selectedTimezone c) (isTwentyFourHour c) (timezoneOptions c)
    (intervalId c) (localTimezone c).

Definition set_selectedTimezone (v : option string) (c : Clock) : Clock :=
  mkClock (currentTime c) v (isTwentyFourHour c) (timezoneOptions c)
    (intervalId c) (localTimezone c).

Definition set_isTwentyFourHour (v : bool) (c : Clock) : Clock :=
  mkClock (currentTime c) (selectedTimezone c) v (timezoneOptions c)
    (intervalId c) (localTimezone c).

Definition set_timezoneOptions (v : list zoneOption) (c : Clock) : Clock :=
  mkClock (currentTime c) (selectedTimezone c) (isTwentyFourHour c) v
    (intervalId c) (localTimezone c).

Definition set_intervalId (v : option Z) (c : Clock) : Clock :=
  mkClock (currentTime c) (selectedTimezone c) (isTwentyFourHour c)
    (timezoneOptions c) v (localTimezone c).

Definition hourFormat (c : Clock) : string :=
  if isTwentyFourHour c then "24" else "12".

(** [option.value === this.selectedTimezone]. *)
Definition is_selected (c : Clock) (o : zoneOption) : bool :=
  match selectedTimezone c with
  | Some z => String.eqb (option_value o) z
  | None => false
  end.

Definition selectedTimezoneLabel (c : Clock) : option string :=
  match find (is_selected c) (timezoneOptions c) with
  | Some o => Some (option_label o)
  | None => selectedTimezone c
  end.

Definition selectedTimezoneForDisplay (c : Clock) : string :=
  match selectedTimezone c with
  | Some z => if String.eqb z "" then localTimezone c else z
  | None => localTimezone c
  end.

Definition computeDifferenceFromLocal (r : Reading) : number :=
  div (sub (zone_time r) (now_time r)) (of_Z 60000).

(** [r] is what the host answers for the selected zone. *)
Definition relativeDescription (r : Reading) : string :=
  let diffMinutes := computeDifferenceFromLocal r in
  if Number_lt (Math_abs diffMinutes) (of_Z 1) then "Matches your local time"
  else
    let direction :=
      if Number_gt diffMinutes (of_Z 0) then "ahead" else "behind" in
    let totalMinutes := Math_abs (Math_round diffMinutes) in
    let hours := Math_floor (div totalMinutes (of_Z 60)) in
    let minutes := Number_remainder totalMinutes (of_Z 60) in
    let parts : list string := [] in
    let parts :=
      if ToBoolean hours
      then push parts (Number_toString hours ++ " "
                       ++ (if strict_eq hours (of_Z 1)
                           then "hour" else "hours"))
      else parts in
    let parts :=
      if ToBoolean minutes
      then push parts (Number_toString minutes ++ " "
                       ++ (if strict_eq minutes (of_Z 1)
                           then "minute" else "minutes"))
      else parts in
    String.concat " " parts ++ " " ++ direction.

Definition formatZoneOffset (r : Reading) : string :=
  let differenceToLocal := computeDifferenceFromLocal r in
  let localOffset := Number_neg (timezone_offset r) in
  let offsetMinutes := Math_round (add differenceToLocal localOffset) in
  let sign := if Number_ge offsetMinutes (of_Z 0) then "+" else "-" in
  let absoluteMinutes := Math_abs offsetMinutes in
  let hours :=
    padStart (Number_toString (Math_floor (div absoluteMinutes (of_Z 60))))
      2 "0" in
  let minutes :=
    padStart (Number_toString (Number_remainder absoluteMinutes (of_Z 60)))
      2 "0" in
  "UTC" ++ sign ++ hours ++ ":" ++ minutes.

Definition formatZoneLabel (zone : string) (r : Reading) (c : Clock)
  : string :=
  if String.eqb zone (localTimezone c) then "Local (" ++ zone ++ ")"
  else
    let offsetLabel := formatZoneOffset r in
    let readableName := replace_underscores zone in
    readableName ++ " (" ++ offsetLabel ++ ")".

(** [host zone] is what the host answers while the label of [zone] is
    made. *)
Definition initializeTimezones (host : string -> Reading) (c : Clock)
  : Clock :=
  let zones := Set_from (localTimezone c :: BASE_TIMEZONES) in
  let c := set_selectedTimezone (Some (localTimezone c)) c in
  set_timezoneOptions
    (map (fun zone => mkZoneOption zone (formatZoneLabel zone (host zone) c))
       zones) c.

(** [iso] is [new Date().toISOString()]. *)
Definition updateCurrentTime (iso : string) (c : Clock) : Clock :=
  set_currentTime iso c.

(** [id] is what [window.setInterval] returns. *)
Definition startClock (iso : string) (id : Z) (c : Clock) : Clock :=
  set_intervalId (Some id) (updateCurrentTime iso c).

Definition connectedCallback (host : string -> Reading) (iso : string)
  (id : Z) (c : Clock) : Clock :=
  startClock iso id (initializeTimezones host c).

Definition disconnectedCallback (c : Clock) : Clock :=
  set_intervalId None c.

Definition handleTimezoneChange (value : string) (c : Clock) : Clock :=
  set_selectedTimezone (Some value) c.

Definition handleFormatToggle (checked : bool) (c : Clock) : Clock :=
  set_isTwentyFourHour checked c.

Definition handleRefresh (iso : string) (c : Clock) : Clock :=
  updateCurrentTime iso c.

End SimpleClock.

Import JS SimpleCalculator.
Import SimpleClock.

#[local] Arguments parseFloat : simpl never.
#[local] Arguments formatResult : simpl never.
#[local] Arguments Number_toString : simpl never.
#[local] Arguments Number_toPrecision : simpl never.
#[local] Arguments add : simpl never.
#[local] Arguments sub : simpl never.
#[local] Arguments mul : simpl never.
#[local] Arguments div : simpl never.
#[local] Arguments of_Z : simpl never.
#[local] Arguments strict_eq : simpl never.

(** ** Notions used in the statements *)

(** The state [signalError] leaves behind. *)
Definition errorState : State := mkState "Error" None None false true.

(** The text typed by a sequence of digit keys. *)
Definition entered (ds : list digit) : string :=
  fold_right (fun d rest => digit_string d ++ rest) "" ds.

(** [s] without the zeros in front. *)
Fixpoint drop_leading_zeros (s : string) : string :=
  match s with
  | String c rest => if Ascii.eqb c "0" then drop_leading_zeros rest else s
  | EmptyString => s
  end.

(** Leading-zero suppression: the zeros in front of a text are not shown,
    and a text made of zeros only (or empty) shows as ["0"]. *)
Definition suppress_leading_zero (s : string) : string :=
  match drop_leading_zeros s with
  | EmptyString => "0"
  | t => t
  end.

(** How often [c] occurs in [s]. *)
Fixpoint count_char (c : ascii) (s : string) : nat :=
  match s with
  | String a rest => (if Ascii.eqb a c then 1 else 0) + count_char c rest
  | EmptyString => 0
  end.

(** How many decimal points a text has. *)
Definition decimal_points (s : string) : nat := count_char "." s.

(** [s] is made of decimal digits. *)
Fixpoint all_digits (s : string) : bool :=
  match s with
  | String c rest => is_digit c && all_digits rest
  | EmptyString => true
  end.

(** The value of the digits of [s] read after the value [acc]. *)
Fixpoint shift_in (s : string) (acc : Z) : Z :=
  match s with
  | String c rest => shift_in rest (acc * 10 + digit_value c)
  | EmptyString => acc
  end.

(** The length of [s], as an integer. *)
Definition strlen (s : string) : Z := Z.of_nat (String.length s).

(** What may follow the digits: nothing, or an exponent. *)
Inductive literal_end : string -> Z -> Prop :=
| end_plain : literal_end "" 0
| end_exponent (e : Z) : literal_end (exponent_suffix e) e.

(** [x] with [-0] read as [+0]: the decimal string of a zero has no sign. *)
Definition unsigned_zero (x : number) : number :=
  match x with
  | S754_zero _ => S754_zero false
  | _ => x
  end.

(** [num / den] lies in the decade below [10 ^ n]. *)
Definition in_decade (num den n : Z) : Prop :=
  if 1 <=? n
  then 10 ^ (n - 1) * den <= num < 10 ^ n * den
  else den <= num * 10 ^ (1 - n) /\ num * 10 ^ (- n) < den.

(** [n] is the integer nearest to [num / den] scaled to [p] digits, the
    larger one on a tie: [num / den * 10 ^ (p - 1 - e10)] lies in
    [[n - 1/2, n + 1/2)]. *)
Definition nearest_decimal (num den n e10 p : Z) : Prop :=
  let '(tn, td) := scale10 num den (p - 1 - e10) in
  0 < td /\ - td <= 2 * (tn - n * td) < td.

(** [x] rounded to [p] significant decimal digits: the Number nearest to the
    [p]-digit decimal that [toPrecision] writes. *)
Definition round_to_precision (x : number) (p : Z) : number :=
  parseFloat (Number_toPrecision x p).

(** The format of the specification: round to 12 significant digits, then
    the shortest decimal string that reads back as the rounded value, or
    ["0"] when that value is not finite. *)
Definition format (x : number) : string :=
  let r := round_to_precision x 12 in
  if isFinite r then Number_toString r else "0".

(** The record [mrs] holds the integer part of [N / D] and the place of the
    rest with respect to one half. *)
Definition represents (mrs : shr_record) (N D : Z) : Prop :=
  0 < D /\ 0 <= N - shr_m mrs * D < D /\
  loc_of_shr_record mrs
  = if N - shr_m mrs * D =? 0 then loc_Exact
    else loc_Inexact (2 * (N - shr_m mrs * D) ?= D).

(** [M] is an integer nearest to [N / D], the even one on a tie. *)
Definition nearest_even (M N D : Z) : Prop :=
  - D <= 2 * (N - M * D) <= D /\
  (Z.abs (2 * (N - M * D)) = D -> Z.even M = true).

(** The mantissa and exponent that [binary_round_aux] ends with. *)
Definition pseudo (m e : Z) : Prop :=
  0 <= m /\
  (0 < m -> fexp prec emax (Zdigits2 m + e) = e) /\
  (m = 0 -> e = emin prec emax).

(** The Number with mantissa [m] and exponent [e], which is an infinity
    once [e] is above the largest exponent. *)
Definition pseudo_number (sx : bool) (m e : Z) : number :=
  match m with
  | Z0 => S754_zero sx
  | Zpos p => if e <=? emax - prec then S754_finite sx p e
              else S754_infinity sx
  | Zneg _ => S754_nan
  end.

(** The ends of the interval of [m * 2 ^ e], in units of
    [2 ^ (emin - 2)]: half way to the neighbours, which below a power of two
    are closer. *)
Definition below_power (m e : Z) : bool :=
  (m =? 2 ^ (prec - 1)) && (emin prec emax <? e).

Definition Lz (m e : Z) : Z :=
  (if below_power m e then 4 * m - 1 else 4 * m - 2)
  * 2 ^ (e - emin prec emax).

Definition Uz (m e : Z) : Z := (4 * m + 2) * 2 ^ (e - emin prec emax).

Definition unit_scale : positive := 2 ^ 1076.

Definition lower (m e : Z) : Q := Lz m e # unit_scale.
Definition upper (m e : Z) : Q := Uz m e # unit_scale.

(** [v] is in the interval of [m * 2 ^ e]; an end of the interval belongs
    to it when [m] is even. *)
Definition rounds_to (m e : Z) (v : Q) : Prop :=
  (lower m e <= v <= upper m e)%Q /\
  ((v == lower m e)%Q \/ (v == upper m e)%Q -> Z.even m = true).

(** The value [s * 10 ^ j]. *)
Definition decimal (s j : Z) : Q := (inject_Z s * 10 ^ j)%Q.

(** The fraction [num / den], for a positive [den]. *)
Definition frac (num den : Z) : Q := num # Z.to_pos den.

(** The exact value of the Number with mantissa [m] and exponent [e]. *)
Definition exact_value (m : positive) (e : Z) : Q :=
  frac (fst (exact_ratio m e)) (snd (exact_ratio m e)).

(** One of the two [k]-digit decimals around the Number reads back as it. *)
Definition neighbour_ok (m : positive) (e n0 k : Z) : bool :=
  let '(num, den) := exact_ratio m e in
  let '(tn, td) := scale10 num den (k - n0) in
  same_value (digits_number (candidate (tn / td) n0 k)) (S754_finite false m e)
  || same_value (digits_number (candidate (tn / td + 1) n0 k))
       (S754_finite false m e).

(** [s] starts like a number: a digit, or a minus sign and a digit. *)
Definition starts_number (s : string) : bool :=
  match s with
  | String c rest =>
      if is_digit c then true
      else if Ascii.eqb c "-" then
        match rest with
        | String d _ => is_digit d
        | EmptyString => false
        end
      else false
  | EmptyString => false
  end.

(** What every action keeps true of the state. *)
Definition invariant (s : State) : Prop :=
  (hasError s = true -> s = errorState) /\
  (hasError s = false -> starts_number (displayValue s) = true) /\
  (awaitingNextValue s = true -> pendingOperator s <> None) /\
  (pendingOperator s = None \/
   exists op, pendingOperator s = Some (operator_string op)) /\
  (pendingOperator s <> None -> currentValue s <> None).

(** The text [s] with its sign changed: ["0"] has none. *)
Definition negate_text (s : string) : string :=
  if (s =? "0")%string then "0"
  else
    match s with
    | String "-" rest => rest
    | _ => "-" ++ s
    end.

(** The texts [formatResult] returns: ["0"], or the digits of a non-zero
    Number, after a minus sign when it is negative. *)
Inductive formatted : string -> Prop :=
| formatted_zero : formatted "0"
| formatted_number (sg : bool) (m : positive) (e n j : Z) :
    bounded prec emax m e = true ->
    10 ^ 11 <= n < 10 ^ 12 ->
    of_decimal sg n j = S754_finite sg m e ->
    formatted (Number_toString (S754_finite sg m e)).

(** Half the distance between neighbouring Numbers at exponent [e], in the
    unit of the interval ends. *)
Definition half_ulp (e : Z) : Q := 2 * 2 ^ (e - emin prec emax) # unit_scale.

(** The classes of a class string: its parts between spaces. *)
Fixpoint class_list (s : string) (word : string) : list string :=
  match s with
  | EmptyString => [word]
  | String c rest =>
      if Ascii.eqb c " " then word :: class_list rest ""
      else class_list rest (word ++ String c "")
  end.

Definition has_class (c : string) (b : viewButton) : bool :=
  existsb (String.eqb c) (class_list (vb_className b) "").

(** All buttons of the view, row after row. *)
Definition view_buttons (s : State) : list viewButton :=
  flat_map vr_buttons (buttonRows s).

(** The ids of the buttons shown as active. *)
Definition active_buttons (s : State) : list string :=
  map (fun b => lb_id (vb_button b)) (filter (has_class "active") (view_buttons s)).

Definition operator_button (op : operator) : string :=
  match op with
  | Plus => "btn-add" | Minus => "btn-subtract"
  | Times => "btn-multiply" | Divide => "btn-divide"
  end.

(** The keys in the order of the layout. *)
Definition layout_actions : list action :=
  [ Clear; ToggleSign; Percent; Operator Divide;
    Digit D7; Digit D8; Digit D9; Operator Times;
    Digit D4; Digit D5; Digit D6; Operator Minus;
    Digit D1; Digit D2; Digit D3; Operator Plus;
    Digit D0; Decimal; Equals ].

(** *** The clock *)

(** The minute nearest to [d] milliseconds, the later one on a tie. *)
Definition nearest_minute (d : Z) : Z := (2 * d + 60000) / 120000.

(** ["1 hour"], ["2 hours"]. *)
Definition count (n : Z) (unit : string) : string :=
  decimal_digits n ++ " " ++ unit ++ (if n =? 1 then "" else "s").

(** The hours and the minutes of [t] minutes, those that are not zero. *)
Definition duration (t : Z) : list string :=
  ((if t / 60 =? 0 then [] else [count (t / 60) "hour"])
   ++ (if t mod 60 =? 0 then [] else [count (t mod 60) "minute"]))%list.

(** What [relativeDescription] says of a zone whose clock is [d]
    milliseconds ahead. *)
Definition describe (d : Z) : string :=
  if Z.abs d <? 60000 then "Matches your local time"
  else String.concat " " (duration (Z.abs (nearest_minute d)))
       ++ " " ++ (if 0 <? d then "ahead" else "behind").

Definition two_digits (n : Z) : string :=
  (if n <? 10 then "0" else "") ++ decimal_digits n.

(** The label of the offset of [q] minutes from UTC. *)
Definition offset_label (q : Z) : string :=
  "UTC" ++ (if 0 <=? q then "+" else "-")
  ++ two_digits (Z.abs q / 60) ++ ":" ++ two_digits (Z.abs q mod 60).

(** The zones of the picker: the viewer's zone, then the base zones other
    than it. *)
Definition picker_zones (local : string) : list string :=
  local :: filter (fun z => negb (String.eqb z local)) BASE_TIMEZONES.

(** What happens to the clock: it is connected or disconnected, the viewer
    picks a zone, toggles the format or asks for a refresh, or the interval
    fires. *)
Inductive clock_event : Type :=
| Connected (host : string -> Reading) (iso : string) (id : Z)
| Disconnected
| TimezoneChange (value : string)
| FormatToggle (checked : bool)
| Refresh (iso : string)
| Tick (iso : string).

Definition clock_step (ev : clock_event) (c : Clock) : Clock :=
  match ev with
  | Connected host iso id => connectedCallback host iso id c
  | Disconnected => disconnectedCallback c
  | TimezoneChange value => handleTimezoneChange value c
  | FormatToggle checked => handleFormatToggle checked c
  | Refresh iso => handleRefresh iso c
  | Tick iso => updateCurrentTime iso c
  end.

Definition clock_run (evs : list clock_event) (c : Clock) : Clock :=
  fold_left (fun c ev => clock_step ev c) evs c.

(** ** Dispatch and the error path *)

(** The actions are the buttons of the layout: each action has a button
    with its dataset, and each button is the button of an action. *)
Lemma dataset_layout :
  (forall a : action,
     exists b, In b (List.concat BUTTON_LAYOUT) /\
               dataset a = (button_action b, dataValue b)) /\
  (forall b : button,
     In b (List.concat BUTTON_LAYOUT) ->
     exists a, dataset a = (button_action b, dataValue b)).
Proof.
  split.
  - intros [[]| |[]| | | |];
      match goal with
      | |- exists b, _ /\ ?d = _ =>
          let v := eval compute in d in
          let bs := eval compute in
            (filter (fun b => (String.eqb (button_action b) (fst v)
                               && String.eqb (dataValue b) (snd v))%bool)
                    (List.concat BUTTON_LAYOUT)) in
          match bs with
          | ?b :: _ => exists b; split; [simpl; tauto | reflexivity]
          end
      end.
  - intros b H. simpl in H.
    repeat (destruct H as [<-|H];
            [first [ exists Clear; reflexivity
                   | exists ToggleSign; reflexivity
                   | exists Percent; reflexivity
                   | exists Decimal; reflexivity
                   | exists Equals; reflexivity
                   | exists (Operator Plus); reflexivity
                   | exists (Operator Minus); reflexivity
                   | exists (Operator Times); reflexivity
                   | exists (Operator Divide); reflexivity
                   | exists (Digit D0); reflexivity
                   | exists (Digit D1); reflexivity
                   | exists (Digit D2); reflexivity
                   | exists (Digit D3); reflexivity
                   | exists (Digit D4); reflexivity
                   | exists (Digit D5); reflexivity
                   | exists (Digit D6); reflexivity
                   | exists (Digit D7); reflexivity
                   | exists (Digit D8); reflexivity
                   | exists (Digit D9); reflexivity ]|]).
    contradiction.
Qed.

Lemma applyAction_Digit (d : digit) (s : State) :
  applyAction (Digit d) s = inputDigit (digit_string d) s.
Proof. reflexivity. Qed.

Lemma applyAction_Decimal (s : State) : applyAction Decimal s = inputDecimal s.
Proof. reflexivity. Qed.

Lemma applyAction_Operator (op : operator) (s : State) :
  applyAction (Operator op) s = handleOperator (operator_string op) s.
Proof. reflexivity. Qed.

Lemma applyAction_Equals (s : State) : applyAction Equals s = handleEquals s.
Proof. reflexivity. Qed.

Lemma applyAction_Clear (s : State) : applyAction Clear s = resetCalculator s.
Proof. reflexivity. Qed.

Lemma applyAction_ToggleSign (s : State) :
  applyAction ToggleSign s = toggleSign s.
Proof. reflexivity. Qed.

Lemma applyAction_Percent (s : State) : applyAction Percent s = applyPercent s.
Proof. reflexivity. Qed.

Lemma truthy_operator (op : operator) :
  truthy (Some (operator_string op)) = true.
Proof. destruct op; reflexivity. Qed.

Lemma strict_eq_zero (b : number) :
  strict_eq b (of_Z 0) = true <-> b = S754_zero false \/ b = S754_zero true.
Proof.
  unfold strict_eq, of_Z, SFeqb; simpl.
  destruct b as [[|]|[|]| |[|] m e]; simpl; split; intros H;
    try discriminate; try reflexivity; auto;
    destruct H as [H|H]; discriminate.
Qed.

(** [performCalculation] returns [null] on a division by zero only. *)
Lemma performCalculation_None (a : option number) (b : number)
    (op : option string) :
  performCalculation a b op = None <->
  op = Some "/" /\ strict_eq b (of_Z 0) = true.
Proof.
  unfold performCalculation, is_case.
  destruct op as [op|].
  - destruct (String.eqb_spec op "+"); [subst; split; [discriminate|intros [H _]; discriminate]|].
    destruct (String.eqb_spec op "-"); [subst; split; [discriminate|intros [H _]; discriminate]|].
    destruct (String.eqb_spec op "*"); [subst; split; [discriminate|intros [H _]; discriminate]|].
    destruct (String.eqb_spec op "/").
    + subst. destruct (strict_eq b (of_Z 0)); split; try discriminate; auto.
      intros [_ H]; discriminate.
    + split; [discriminate|]. intros [H _]. congruence.
  - split; [discriminate|intros [H _]; discriminate].
Qed.

Lemma handleEquals_unfold (s : State) :
  hasError s = false -> truthy (pendingOperator s) = true ->
  awaitingNextValue s = false ->
  handleEquals s =
  match performCalculation (currentValue s) (parseFloat (displayValue s))
          (pendingOperator s) with
  | None => errorState
  | Some result => mkState (formatResult result) None None false false
  end.
Proof.
  intros He Ht Ha. unfold handleEquals. rewrite He, Ht, Ha. simpl.
  destruct (performCalculation _ _ _); [|reflexivity].
  unfold set_awaitingNextValue, set_pendingOperator, set_currentValue,
    set_displayValue; simpl. now rewrite He.
Qed.

(** Whenever an action raises [hasError], it was the division of
    [currentValue] by a displayed zero, and the state is [errorState]. *)
Lemma error_only_from_division (act : action) (s : State) :
  hasError s = false -> hasError (applyAction act s) = true ->
  applyAction act s = errorState /\
  pendingOperator s = Some "/" /\
  strict_eq (parseFloat (displayValue s)) (of_Z 0) = true /\
  (act = Equals \/ exists op, act = Operator op).
Proof.
  intros He H.
  destruct act as [d| |op| | | |].
  - exfalso. rewrite applyAction_Digit in H. unfold inputDigit in H.
    rewrite He in H.
    destruct (awaitingNextValue s); simpl in H; [congruence|].
    destruct (displayValue s =? DEFAULT_DISPLAY)%string; simpl in H; congruence.
  - exfalso. rewrite applyAction_Decimal in H. unfold inputDecimal in H.
    rewrite He in H.
    destruct (awaitingNextValue s); simpl in H; [congruence|].
    destruct (includes "." (displayValue s)); simpl in H; congruence.
  - rewrite applyAction_Operator in *. unfold handleOperator in *.
    rewrite He in *.
    destruct (truthy (pendingOperator s) && awaitingNextValue s)%bool;
      [simpl in H; congruence|].
    destruct (currentValue s) as [cv|] eqn:Hcv; [|simpl in H; congruence].
    destruct (truthy (pendingOperator s)); [|simpl in H; congruence].
    destruct (performCalculation (Some cv) (parseFloat (displayValue s))
                (pendingOperator s)) eqn:Hp; [simpl in H; congruence|].
    apply performCalculation_None in Hp. destruct Hp as [Hop Hz].
    repeat split; eauto.
  - rewrite applyAction_Equals in *. unfold handleEquals in *.
    rewrite He in *. simpl in *.
    destruct (truthy (pendingOperator s)); simpl in *; [|congruence].
    destruct (awaitingNextValue s); simpl in *; [congruence|].
    destruct (performCalculation (currentValue s) (parseFloat (displayValue s))
                (pendingOperator s)) eqn:Hp; [simpl in H; congruence|].
    apply performCalculation_None in Hp. destruct Hp as [Hop Hz].
    repeat split; eauto.
  - exfalso. rewrite applyAction_Clear in H. simpl in H. congruence.
  - exfalso. rewrite applyAction_ToggleSign in H. unfold toggleSign in H.
    rewrite He in H. simpl in H.
    destruct (displayValue s =? DEFAULT_DISPLAY)%string; simpl in H; congruence.
  - exfalso. rewrite applyAction_Percent in H. unfold applyPercent in H.
    rewrite He in H. simpl in H.
    destruct (truthy (pendingOperator s)); simpl in H; congruence.
Qed.

(** A division by zero that comes due takes the error path, on [Equals] and
    on a chained operator alike. *)
Lemma division_by_zero_latches (s : State) :
  hasError s = false -> awaitingNextValue s = false ->
  performCalculation (currentValue s) (parseFloat (displayValue s))
    (pendingOperator s) = None ->
  applyAction Equals s = errorState /\
  (currentValue s <> None ->
   forall op, applyAction (Operator op) s = errorState).
Proof.
  intros He Ha Hp.
  assert (Ht : truthy (pendingOperator s) = true).
  { apply performCalculation_None in Hp. destruct Hp as [-> _]. reflexivity. }
  split.
  - rewrite applyAction_Equals, handleEquals_unfold by assumption.
    now rewrite Hp.
  - intros Hcv op. rewrite applyAction_Operator. unfold handleOperator.
    rewrite He, Ht, Ha. simpl.
    destruct (currentValue s) as [cv|] eqn:E; [|congruence].
    now rewrite Hp.
Qed.

(** C1.  For all operands [a] and [b], [performCalculation] returns their
    sum, difference and product for ['+'], ['-'] and ['*'], and for ['/']
    their quotient unless [b === 0] (that is, [b] is [+0] or [-0]), in which
    case it returns [null].  [signalError] leaves the state
    [display = "Error"], [accumulator = null], [pendingOperator = null],
    [awaitingOperand = false], [hasError = true]; a failed evaluation on
    [Equals] or on a chained operator leads there; and no action raises
    [hasError] in any other way: the handlers are total functions, and an
    action that sets the flag has divided by a displayed zero. *)
Theorem evaluate_and_error_path (s : State) (a b : number) :
  performCalculation (Some a) b (Some "+") = Some (add a b) /\
  performCalculation (Some a) b (Some "-") = Some (sub a b) /\
  performCalculation (Some a) b (Some "*") = Some (mul a b) /\
  performCalculation (Some a) b (Some "/") =
    (if strict_eq b (of_Z 0) then None else Some (div a b)) /\
  (strict_eq b (of_Z 0) = true <-> b = S754_zero false \/ b = S754_zero true) /\
  signalError s = errorState /\
  (hasError s = false -> awaitingNextValue s = false ->
   performCalculation (currentValue s) (parseFloat (displayValue s))
     (pendingOperator s) = None ->
   applyAction Equals s = errorState /\
   (currentValue s <> None ->
    forall op, applyAction (Operator op) s = errorState)) /\
  (forall act : action,
     hasError s = false -> hasError (applyAction act s) = true ->
     applyAction act s = errorState /\
     pendingOperator s = Some "/" /\
     strict_eq (parseFloat (displayValue s)) (of_Z 0) = true /\
     (act = Equals \/ exists op, act = Operator op)).
Proof.
  split; [reflexivity|]. split; [reflexivity|]. split; [reflexivity|].
  split; [reflexivity|]. split; [apply strict_eq_zero|].
  split; [reflexivity|]. split.
  - apply division_by_zero_latches.
  - intros act. apply error_only_from_division.
Qed.

Lemma evaluate_and_error_path_witness :
  let s := run [Digit D6; Operator Divide; Digit D0] initialState in
  performCalculation (currentValue s) (parseFloat (displayValue s))
    (pendingOperator s) = None /\
  applyAction Equals s = mkState "Error" None None false true.
Proof.
  cbv zeta. split; [reflexivity|].
  destruct (evaluate_and_error_path
              (run [Digit D6; Operator Divide; Digit D0] initialState)
              (of_Z 6) (of_Z 0)) as (_ & _ & _ & _ & _ & _ & H & _).
  exact (proj1 (H eq_refl eq_refl eq_refl)).
Defined.

(** ** Equals *)

(** C2.  In a state without error, with an operator pending and an operand
    entered, [Equals] evaluates the pending operator on the accumulator and
    the parsed display; on success the display becomes the formatted result
    and [accumulator], [pendingOperator] and [awaitingOperand] are cleared
    (a failure takes the error path).  From the initial state, the keys
    [5], [+], [3], [=] leave the display ["8"]. *)
Theorem equals_finalizes (s : State) (op : operator) :
  hasError s = false ->
  pendingOperator s = Some (operator_string op) ->
  awaitingNextValue s = false ->
  applyAction Equals s =
    match performCalculation (currentValue s) (parseFloat (displayValue s))
            (Some (operator_string op)) with
    | Some result => mkState (formatResult result) None None false false
    | None => errorState
    end /\
  displayValue (run [Digit D5; Operator Plus; Digit D3; Equals] initialState)
  = "8".
Proof.
  intros He Hp Ha. split.
  - rewrite applyAction_Equals, handleEquals_unfold; try assumption.
    + rewrite Hp. destruct (performCalculation _ _ _); reflexivity.
    + rewrite Hp. apply truthy_operator.
  - vm_compute. reflexivity.
Qed.

Lemma equals_finalizes_witness :
  let s := run [Digit D5; Operator Plus; Digit D3] initialState in
  hasError s = false /\ pendingOperator s = Some "+" /\
  awaitingNextValue s = false /\
  applyAction Equals s = mkState "8" None None false false.
Proof.
  cbv zeta.
  split; [reflexivity|]. split; [reflexivity|]. split; [reflexivity|].
  destruct (equals_finalizes
              (run [Digit D5; Operator Plus; Digit D3] initialState) Plus
              eq_refl eq_refl eq_refl) as [H _].
  rewrite H. vm_compute. reflexivity.
Defined.

(** ** The error latch *)

(** C3.  While [hasError] is set, [Operator], [Equals], [ToggleSign] and
    [Percent] leave the state as it is; [Digit] and [Decimal] act as on the
    initial state, that is, after a full reset, and so clear the flag;
    [Clear] resets whatever the state.  Hence an action leaves the error
    state exactly when it is [Clear], [Decimal] or a [Digit]. *)
Theorem error_latch (s : State) :
  hasError s = true ->
  (forall op, applyAction (Operator op) s = s) /\
  applyAction Equals s = s /\
  applyAction ToggleSign s = s /\
  applyAction Percent s = s /\
  (forall d, applyAction (Digit d) s = applyAction (Digit d) initialState /\
             applyAction (Digit d) s
             = mkState (digit_string d) None None false false) /\
  (applyAction Decimal s = applyAction Decimal initialState /\
   applyAction Decimal s = mkState "0." None None false false) /\
  (forall s', applyAction Clear s' = initialState) /\
  (forall act, hasError (applyAction act s) = false <->
               act = Clear \/ act = Decimal \/ exists d, act = Digit d).
Proof.
  intros He.
  assert (Hop : forall op, applyAction (Operator op) s = s).
  { intros op. rewrite applyAction_Operator. unfold handleOperator.
    now rewrite He. }
  assert (Heq : applyAction Equals s = s).
  { rewrite applyAction_Equals. unfold handleEquals. now rewrite He. }
  assert (Hts : applyAction ToggleSign s = s).
  { rewrite applyAction_ToggleSign. unfold toggleSign. now rewrite He. }
  assert (Hpc : applyAction Percent s = s).
  { rewrite applyAction_Percent. unfold applyPercent. now rewrite He. }
  assert (Hd : forall d, applyAction (Digit d) s
                         = mkState (digit_string d) None None false false).
  { intros d. rewrite applyAction_Digit. unfold inputDigit. rewrite He.
    destruct d; reflexivity. }
  assert (Hdec : applyAction Decimal s = mkState "0." None None false false).
  { rewrite applyAction_Decimal. unfold inputDecimal. rewrite He.
    reflexivity. }
  repeat (split; try assumption).
  - rewrite Hd. destruct d; reflexivity.
  - apply Hd.
  - intros H. destruct act as [d| |op| | | |]; eauto.
    + rewrite Hop in H. congruence.
    + rewrite Heq in H. congruence.
    + rewrite Hts in H. congruence.
    + rewrite Hpc in H. congruence.
  - intros [->|[->|[d ->]]].
    + reflexivity.
    + now rewrite Hdec.
    + now rewrite Hd.
Qed.

Lemma error_latch_witness :
  hasError errorState = true /\
  applyAction Equals errorState = errorState /\
  applyAction (Digit D7) errorState = mkState "7" None None false false.
Proof.
  split; [reflexivity|].
  destruct (error_latch errorState eq_refl)
    as (_ & Heq & _ & _ & Hd & _).
  split; [exact Heq | exact (proj2 (Hd D7))].
Defined.

(** ** Operator substitution *)

Lemma handleOperator_substitutes (operator : string) (s : State) :
  hasError s = false -> truthy (pendingOperator s) = true ->
  awaitingNextValue s = true ->
  handleOperator operator s = set_pendingOperator (Some operator) s.
Proof.
  intros He Ht Ha. unfold handleOperator. now rewrite He, Ht, Ha.
Qed.

(** After an operator was accepted, a second one only replaces it. *)
Lemma operator_then_operator (s : State) (op1 op2 : operator) :
  hasError s = false ->
  hasError (applyAction (Operator op1) s) = false ->
  applyAction (Operator op2) (applyAction (Operator op1) s)
  = set_pendingOperator (Some (operator_string op2))
      (applyAction (Operator op1) s).
Proof.
  intros He H1. rewrite (applyAction_Operator op2).
  apply handleOperator_substitutes; [assumption| |];
    rewrite applyAction_Operator in *; unfold handleOperator in *;
    rewrite He in *;
    destruct (truthy (pendingOperator s)) eqn:Ht;
    destruct (awaitingNextValue s) eqn:Ha; simpl in *;
    try apply truthy_operator; try assumption;
    destruct (currentValue s); try apply truthy_operator; try reflexivity;
    destruct (performCalculation _ _ _); simpl in *;
    try apply truthy_operator; try reflexivity; congruence.
Qed.

(** The first operator in a state where none is pending stores the
    operand on display. *)
Lemma operator_stages_operand (s : State) (op : operator) :
  hasError s = false -> pendingOperator s = None ->
  applyAction (Operator op) s
  = mkState (displayValue s) (Some (parseFloat (displayValue s)))
      (Some (operator_string op)) true false.
Proof.
  intros He Hp. rewrite applyAction_Operator. unfold handleOperator.
  rewrite He, Hp. cbn [truthy andb].
  destruct (currentValue s); unfold set_awaitingNextValue,
    set_pendingOperator, set_currentValue; cbn; now rewrite ?He.
Qed.

(** C5.  In a state without error where an operator is pending and no
    operand has been entered since, [Operator op] only replaces the pending
    operator: display, accumulator and [awaitingOperand] stay as they were.
    ['+'] then ['*'] leaves ['*'] pending and the accumulator as the first
    of them left it: as it was before either when an operator was pending
    and an operand awaited already, and the operand on display when no
    operator was pending; from any state without error, a second operator
    right after a first that did not fail changes the pending operator
    only. *)
Theorem operator_substitution (s : State) (pending op : operator) :
  hasError s = false ->
  pendingOperator s = Some (operator_string pending) ->
  awaitingNextValue s = true ->
  applyAction (Operator op) s
  = mkState (displayValue s) (currentValue s) (Some (operator_string op))
      true false /\
  pendingOperator
    (applyAction (Operator Times) (applyAction (Operator Plus) s)) = Some "*" /\
  currentValue
    (applyAction (Operator Times) (applyAction (Operator Plus) s))
  = currentValue s /\
  (forall (s0 : State) (op1 op2 : operator),
     hasError s0 = false ->
     hasError (applyAction (Operator op1) s0) = false ->
     applyAction (Operator op2) (applyAction (Operator op1) s0)
     = set_pendingOperator (Some (operator_string op2))
         (applyAction (Operator op1) s0)) /\
  (forall (s0 : State) (op1 op2 : operator),
     hasError s0 = false -> pendingOperator s0 = None ->
     applyAction (Operator op2) (applyAction (Operator op1) s0)
     = mkState (displayValue s0) (Some (parseFloat (displayValue s0)))
         (Some (operator_string op2)) true false).
Proof.
  intros He Hp Ha.
  assert (H : forall o, applyAction (Operator o) s
              = mkState (displayValue s) (currentValue s)
                  (Some (operator_string o)) true false).
  { intros o. rewrite applyAction_Operator, handleOperator_substitutes;
      try assumption.
    - unfold set_pendingOperator. now rewrite He, Ha.
    - rewrite Hp. apply truthy_operator. }
  split; [apply H|].
  rewrite (H Plus), applyAction_Operator, handleOperator_substitutes;
    try reflexivity.
  split; [reflexivity|]. split; [reflexivity|].
  split; [apply operator_then_operator|].
  intros s0 op1 op2 He0 Hp0.
  rewrite (operator_stages_operand s0 op1 He0 Hp0), applyAction_Operator.
  rewrite handleOperator_substitutes; try reflexivity.
  apply truthy_operator.
Qed.

Lemma operator_substitution_witness :
  let s := run [Digit D5; Operator Plus] initialState in
  hasError s = false /\ pendingOperator s = Some "+" /\
  awaitingNextValue s = true /\
  applyAction (Operator Times) s
  = mkState "5" (Some (parseFloat "5")) (Some "*") true false.
Proof.
  cbv zeta.
  split; [reflexivity|]. split; [reflexivity|]. split; [reflexivity|].
  exact (proj1 (operator_substitution
                  (run [Digit D5; Operator Plus] initialState) Plus Times
                  eq_refl eq_refl eq_refl)).
Defined.

(** After [5], ['+'] then ['*'] leaves ['*'] pending, and the accumulator
    is [5]: it was empty before either. *)
Lemma operator_substitution_counterexample :
  let s := run [Digit D5] initialState in
  hasError s = false /\
  pendingOperator (run [Operator Plus; Operator Times] s) = Some "*" /\
  currentValue s = None /\
  currentValue (run [Operator Plus; Operator Times] s)
  = Some (parseFloat "5") /\
  currentValue (run [Operator Plus; Operator Times] s) <> currentValue s.
Proof.
  cbv zeta.
  split; [reflexivity|]. split; [reflexivity|]. split; [reflexivity|].
  split; [reflexivity|]. discriminate.
Qed.

(** ** Unary transforms *)

Lemma applyPercent_unfold (s : State) :
  hasError s = false ->
  applyPercent s =
  mkState (formatResult (div (parseFloat (displayValue s)) (of_Z 100)))
    (if truthy (pendingOperator s) then currentValue s
     else Some (div (parseFloat (displayValue s)) (of_Z 100)))
    (pendingOperator s) (awaitingNextValue s) false.
Proof.
  intros He. unfold applyPercent. rewrite He. simpl.
  destruct (truthy (pendingOperator s)); simpl;
    unfold set_currentValue, set_displayValue; simpl; now rewrite He.
Qed.

(** C6.  Without error, [Percent] sets the display to the formatted
    hundredth of the parsed display; with no operator pending the
    accumulator becomes that hundredth, with one pending the accumulator is
    left alone.  From the initial state, [5], [0], [%] leave the display
    ["0.5"] and the accumulator 0.5. *)
Theorem percent_rescales (s : State) :
  hasError s = false ->
  displayValue (applyAction Percent s)
  = formatResult (div (parseFloat (displayValue s)) (of_Z 100)) /\
  (pendingOperator s = None ->
   currentValue (applyAction Percent s)
   = Some (div (parseFloat (displayValue s)) (of_Z 100))) /\
  (forall op, pendingOperator s = Some (operator_string op) ->
   currentValue (applyAction Percent s) = currentValue s) /\
  displayValue (run [Digit D5; Digit D0; Percent] initialState) = "0.5" /\
  currentValue (run [Digit D5; Digit D0; Percent] initialState)
  = Some (parseFloat "0.5").
Proof.
  intros He. rewrite applyAction_Percent, applyPercent_unfold by assumption.
  simpl. split; [reflexivity|]. split; [|split].
  - intros ->. reflexivity.
  - intros op ->. now rewrite truthy_operator.
  - split; vm_compute; reflexivity.
Qed.

Lemma percent_rescales_witness :
  let s := run [Digit D5; Digit D0] initialState in
  hasError s = false /\
  displayValue (applyAction Percent s) = "0.5" /\
  currentValue (applyAction Percent s)
  = Some (S754_finite false 4503599627370496 (-53)).
Proof.
  cbv zeta. split; [reflexivity|].
  destruct (percent_rescales (run [Digit D5; Digit D0] initialState) eq_refl)
    as (Hd & Hc & _).
  split.
  - rewrite Hd. vm_compute. reflexivity.
  - rewrite (Hc eq_refl). vm_compute. reflexivity.
Defined.

(** C9.  [ToggleSign] does nothing when [hasError] is set or the display is
    ["0"] (so it leaves the initial display ["0"]); otherwise the display
    becomes the formatted negation of the parsed display, and accumulator,
    pending operator, [awaitingOperand] and [hasError] stay as they were. *)
Theorem toggleSign_frame (s : State) :
  (hasError s = true \/ displayValue s = "0" -> applyAction ToggleSign s = s) /\
  (hasError s = false /\ displayValue s <> "0" ->
   applyAction ToggleSign s
   = mkState (formatResult (mul (parseFloat (displayValue s)) (of_Z (-1))))
       (currentValue s) (pendingOperator s) (awaitingNextValue s)
       (hasError s)) /\
  displayValue (applyAction ToggleSign initialState) = "0".
Proof.
  rewrite applyAction_ToggleSign. unfold toggleSign, DEFAULT_DISPLAY.
  split; [|split].
  - intros [He|Hd].
    + now rewrite He.
    + rewrite Hd. simpl. now rewrite orb_true_r.
  - intros [He Hd]. rewrite He. simpl.
    destruct (String.eqb_spec (displayValue s) "0"); [contradiction|].
    unfold set_displayValue. now rewrite He.
  - reflexivity.
Qed.

Lemma toggleSign_frame_witness :
  let s := run [Digit D5; Operator Plus; Digit D3] initialState in
  hasError s = false /\ displayValue s <> "0" /\
  applyAction ToggleSign s
  = mkState "-3" (Some (parseFloat "5")) (Some "+") false false.
Proof.
  cbv zeta. split; [reflexivity|]. split; [discriminate|].
  destruct (toggleSign_frame
              (run [Digit D5; Operator Plus; Digit D3] initialState))
    as (_ & H & _).
  rewrite H by (split; [reflexivity | discriminate]).
  vm_compute. reflexivity.
Defined.

(** C10.  [Percent] never changes [awaitingOperand] or the pending
    operator.  So when it is applied without error while an operand is
    awaited, the display is rescaled but the flag stays set: a following
    digit replaces the display, and with an operator pending the state is
    the one the digit alone would have produced, the rescaled value being
    lost. *)
Theorem percent_keeps_awaiting (s : State) :
  awaitingNextValue (applyAction Percent s) = awaitingNextValue s /\
  pendingOperator (applyAction Percent s) = pendingOperator s /\
  (hasError s = false /\ awaitingNextValue s = true ->
   displayValue (applyAction Percent s)
   = formatResult (div (parseFloat (displayValue s)) (of_Z 100)) /\
   awaitingNextValue (applyAction Percent s) = true /\
   forall d,
     displayValue (applyAction (Digit d) (applyAction Percent s))
     = digit_string d /\
     awaitingNextValue (applyAction (Digit d) (applyAction Percent s))
     = false /\
     pendingOperator (applyAction (Digit d) (applyAction Percent s))
     = pendingOperator s /\
     (forall op, pendingOperator s = Some (operator_string op) ->
      applyAction (Digit d) (applyAction Percent s)
      = applyAction (Digit d) s)).
Proof.
  rewrite applyAction_Percent.
  destruct (hasError s) eqn:He.
  - unfold applyPercent. rewrite He. split; [reflexivity|].
    split; [reflexivity|]. intros [H _]. discriminate.
  - rewrite applyPercent_unfold by assumption. simpl.
    split; [reflexivity|]. split; [reflexivity|].
    intros [_ Ha]. split; [reflexivity|]. split; [assumption|].
    intros d. rewrite !applyAction_Digit. unfold inputDigit. simpl.
    rewrite Ha, He. simpl. split; [reflexivity|]. split; [reflexivity|].
    split; [reflexivity|].
    intros op Hp. rewrite Hp, truthy_operator.
    unfold set_awaitingNextValue, set_displayValue. simpl.
    now rewrite Hp, He, Ha.
Qed.

Lemma percent_keeps_awaiting_witness :
  let s := run [Digit D2; Operator Plus] initialState in
  hasError s = false /\ awaitingNextValue s = true /\
  displayValue (applyAction Percent s) = "0.02" /\
  applyAction (Digit D4) (applyAction Percent s) = applyAction (Digit D4) s.
Proof.
  cbv zeta. split; [reflexivity|]. split; [reflexivity|].
  destruct (percent_keeps_awaiting (run [Digit D2; Operator Plus] initialState))
    as (_ & _ & H).
  destruct (H (conj eq_refl eq_refl)) as (Hd & _ & Hk).
  split.
  - rewrite Hd. vm_compute. reflexivity.
  - exact (proj2 (proj2 (proj2 (Hk D4))) Plus eq_refl).
Defined.

(** ** Digit entry *)

Lemma append_assoc (a b c : string) : (a ++ b) ++ c = a ++ (b ++ c).
Proof. induction a as [|x a IH]; simpl; [reflexivity | now rewrite IH]. Qed.

Lemma append_empty_r (a : string) : a ++ "" = a.
Proof. induction a as [|x a IH]; simpl; [reflexivity | now rewrite IH]. Qed.

Lemma run_app (l1 l2 : list action) (s : State) :
  run (l1 ++ l2) s = run l2 (run l1 s).
Proof. apply fold_left_app. Qed.

Lemma entered_app (l1 l2 : list digit) :
  entered (l1 ++ l2) = entered l1 ++ entered l2.
Proof.
  induction l1 as [|d l1 IH]; simpl; [reflexivity|].
  now rewrite IH, append_assoc.
Qed.

Lemma drop_leading_zeros_head (s : string) :
  match drop_leading_zeros s with
  | String c _ => Ascii.eqb c "0" = false
  | EmptyString => True
  end.
Proof.
  induction s as [|c s IH]; simpl; [exact I|].
  destruct (Ascii.eqb c "0") eqn:E; [exact IH | exact E].
Qed.

Lemma drop_leading_zeros_app (u v : string) :
  drop_leading_zeros (u ++ v) =
  match drop_leading_zeros u with
  | EmptyString => drop_leading_zeros v
  | t => t ++ v
  end.
Proof.
  induction u as [|c u IH]; simpl.
  - destruct (drop_leading_zeros v); reflexivity.
  - destruct (Ascii.eqb c "0"); [exact IH | reflexivity].
Qed.

(** One more digit key on a display that shows the text [u]. *)
Lemma inputDigit_suppressed (u : string) (d : digit) :
  inputDigit (digit_string d)
    (mkState (suppress_leading_zero u) None None false false)
  = mkState (suppress_leading_zero (u ++ digit_string d)) None None false
      false.
Proof.
  unfold inputDigit, suppress_leading_zero. simpl.
  rewrite drop_leading_zeros_app.
  pose proof (drop_leading_zeros_head u) as Hh.
  destruct (drop_leading_zeros u) as [|c t]; simpl.
  - destruct d; reflexivity.
  - unfold set_displayValue; simpl.
    destruct (Ascii.eqb_spec c "0"); [discriminate|].
    destruct c as [[|] [|] [|] [|] [|] [|] [|] [|]]; try reflexivity;
      destruct t; try reflexivity; congruence.
Qed.

Lemma run_digits (ds : list digit) :
  run (map Digit ds) initialState
  = mkState (suppress_leading_zero (entered ds)) None None false false.
Proof.
  induction ds as [|d ds IH] using rev_ind; [reflexivity|].
  rewrite map_app, run_app, IH, entered_app. simpl.
  rewrite append_empty_r. apply inputDigit_suppressed.
Qed.

(** C4.  After any sequence of digit keys from the initial state, the
    display is the concatenation of the digits entered with leading zeros
    suppressed: nothing is entered yet or only zeros show ["0"], and zeros
    in front of the first non-zero digit do not show.  When the first digit
    is not zero the display is the concatenation itself. *)
Theorem digits_display (ds : list digit) :
  displayValue (run (map Digit ds) initialState)
  = suppress_leading_zero (entered ds) /\
  (forall d rest, ds = d :: rest -> d <> D0 ->
   displayValue (run (map Digit ds) initialState) = entered ds).
Proof.
  rewrite run_digits. simpl. split; [reflexivity|].
  intros d rest -> Hd. unfold suppress_leading_zero. simpl.
  destruct d; try contradiction; reflexivity.
Qed.

Lemma digits_display_witness :
  displayValue (run (map Digit [D0; D0; D5; D0]) initialState) = "50" /\
  displayValue (run (map Digit [D1; D0; D0]) initialState) = "100".
Proof.
  split.
  - exact (proj1 (digits_display [D0; D0; D5; D0])).
  - refine (proj2 (digits_display [D1; D0; D0]) D1 [D0; D0] eq_refl _).
    discriminate.
Defined.

(** ** Decimal points *)

Lemma count_char_app (c : ascii) (a b : string) :
  count_char c (a ++ b) = (count_char c a + count_char c b)%nat.
Proof.
  induction a as [|x a IH]; simpl; [reflexivity|]. rewrite IH. lia.
Qed.

Lemma count_char_substring (c : ascii) (s : string) (n m : nat) :
  (count_char c (substring n m s) <= count_char c s)%nat.
Proof.
  revert n m. induction s as [|x s IH]; intros n m.
  - destruct n, m; simpl; lia.
  - destruct n as [|n]; simpl.
    + destruct m as [|m]; simpl; [lia|]. specialize (IH 0%nat m). lia.
    + specialize (IH n m). lia.
Qed.

Lemma prefix_point (c : ascii) (s : string) :
  prefix "." (String c s) = Ascii.eqb c ".".
Proof.
  cbn [prefix]. destruct (ascii_dec "." c) as [<-|Hc].
  - destruct s; reflexivity.
  - symmetry. apply Ascii.eqb_neq. congruence.
Qed.

Lemma includes_point (s : string) :
  includes "." s = negb (Nat.eqb (decimal_points s) 0).
Proof.
  unfold includes, decimal_points.
  induction s as [|c s IH]; [reflexivity|].
  cbn [index count_char]. rewrite prefix_point.
  destruct (Ascii.eqb c "."); [reflexivity|].
  destruct (index 0 "." s); exact IH.
Qed.

Lemma digit_char_not_point (d : Z) :
  0 <= d < 10 -> Ascii.eqb (digit_char d) "." = false.
Proof.
  intros H.
  assert (C : d = 0 \/ d = 1 \/ d = 2 \/ d = 3 \/ d = 4 \/ d = 5 \/ d = 6 \/
              d = 7 \/ d = 8 \/ d = 9) by lia.
  repeat destruct C as [->|C]; try subst d; reflexivity.
Qed.

Lemma digits_aux_points (fuel : nat) (n : Z) (acc : string) :
  decimal_points (digits_aux fuel n acc) = decimal_points acc.
Proof.
  revert n acc. induction fuel as [|fuel IH]; intros n acc; simpl;
    [reflexivity|].
  assert (E : decimal_points (String (digit_char (n mod 10)) acc)
              = decimal_points acc).
  { unfold decimal_points. simpl.
    rewrite digit_char_not_point; [reflexivity|].
    apply Z.mod_pos_bound. lia. }
  destruct (n <? 10); [exact E | now rewrite IH].
Qed.

Lemma decimal_digits_points (n : Z) : decimal_points (decimal_digits n) = 0%nat.
Proof. unfold decimal_digits. now rewrite digits_aux_points. Qed.

Lemma zeros_points (n : Z) : decimal_points (zeros n) = 0%nat.
Proof.
  unfold zeros. induction (Z.to_nat n) as [|k IH]; [reflexivity|exact IH].
Qed.

Lemma exponent_suffix_points (e : Z) :
  decimal_points (exponent_suffix e) = 0%nat.
Proof.
  unfold exponent_suffix, decimal_points. simpl.
  rewrite count_char_app. fold (decimal_points (decimal_digits (Z.abs e))).
  rewrite decimal_digits_points. destruct (e <? 0); reflexivity.
Qed.

Lemma string_take_points (n : Z) (s : string) :
  decimal_points s = 0%nat -> decimal_points (string_take n s) = 0%nat.
Proof.
  intros H. pose proof (count_char_substring "." s 0 (Z.to_nat n)) as L.
  unfold decimal_points, string_take in *. lia.
Qed.

Lemma string_drop_points (n : Z) (s : string) :
  decimal_points s = 0%nat -> decimal_points (string_drop n s) = 0%nat.
Proof.
  intros H.
  pose proof (count_char_substring "." s (Z.to_nat n)
                (String.length s - Z.to_nat n)) as L.
  unfold decimal_points, string_drop in *. lia.
Qed.

Lemma points_app (a b : string) :
  decimal_points (a ++ b) = (decimal_points a + decimal_points b)%nat.
Proof. apply count_char_app. Qed.

Lemma format_digits_points (s n : Z) :
  (decimal_points (format_digits s n) <= 1)%nat.
Proof.
  unfold format_digits.
  pose proof (decimal_digits_points s) as Hs.
  repeat match goal with
         | |- context [if ?b then _ else _] => destruct b
         end;
    repeat rewrite points_app;
    rewrite ?Hs, ?zeros_points, ?exponent_suffix_points,
      ?string_take_points, ?string_drop_points by assumption;
    simpl; lia.
Qed.

Lemma toString_finite_points (m : positive) (e : Z) :
  (decimal_points (toString_finite m e) <= 1)%nat.
Proof.
  unfold toString_finite.
  destruct (exact_ratio m e) as [num den].
  destruct (shortest_digits _ _ _ _ _) as [s n].
  apply format_digits_points.
Qed.

Lemma Number_toString_points (x : number) :
  (decimal_points (Number_toString x) <= 1)%nat.
Proof.
  destruct x as [sg|sg| |sg m e]; unfold Number_toString.
  - cbv; lia.
  - destruct sg; cbv; lia.
  - cbv; lia.
  - rewrite points_app. pose proof (toString_finite_points m e).
    destruct sg; simpl; lia.
Qed.

Lemma formatResult_points (x : number) :
  (decimal_points (formatResult x) <= 1)%nat.
Proof.
  unfold formatResult.
  destruct (isFinite _); [apply Number_toString_points | cbv; lia].
Qed.

Lemma digit_string_points (d : digit) :
  decimal_points (digit_string d) = 0%nat.
Proof. destruct d; reflexivity. Qed.

(** No action brings a second decimal point into the display. *)
Lemma applyAction_points (act : action) (s : State) :
  (decimal_points (displayValue s) <= 1)%nat ->
  (decimal_points (displayValue (applyAction act s)) <= 1)%nat.
Proof.
  intros H.
  pose proof formatResult_points as F.
  assert (P0 : (decimal_points "0" <= 1)%nat) by (cbv; lia).
  assert (P1 : (decimal_points "0." <= 1)%nat) by (cbv; lia).
  assert (P2 : (decimal_points "Error" <= 1)%nat) by (cbv; lia).
  destruct act as [d| |op| | | |].
  - rewrite applyAction_Digit. unfold inputDigit.
    pose proof (digit_string_points d) as Hd.
    destruct (hasError s); simpl.
    + rewrite Hd. lia.
    + destruct (awaitingNextValue s); simpl; [lia|].
      destruct (String.eqb_spec (displayValue s) DEFAULT_DISPLAY) as [E|E];
        simpl; [lia|].
      rewrite points_app, Hd. lia.
  - rewrite applyAction_Decimal. unfold inputDecimal.
    destruct (hasError s); simpl; [exact P1|].
    destruct (awaitingNextValue s); simpl; [exact P1|].
    rewrite includes_point.
    destruct (Nat.eqb_spec (decimal_points (displayValue s)) 0) as [E|E];
      simpl; [|exact H].
    rewrite points_app, E. cbv. lia.
  - rewrite applyAction_Operator. unfold handleOperator.
    destruct (hasError s); [exact H|].
    destruct (truthy (pendingOperator s) && awaitingNextValue s)%bool;
      [exact H|].
    destruct (currentValue s); [|exact H].
    destruct (truthy (pendingOperator s)); [|exact H].
    destruct (performCalculation _ _ _); simpl; [apply F | exact P2].
  - rewrite applyAction_Equals. unfold handleEquals.
    destruct (hasError s || negb (truthy (pendingOperator s))
              || awaitingNextValue s)%bool; [exact H|].
    destruct (performCalculation _ _ _); simpl; [apply F | exact P2].
  - rewrite applyAction_Clear. exact P0.
  - rewrite applyAction_ToggleSign. unfold toggleSign.
    destruct (hasError s || (displayValue s =? DEFAULT_DISPLAY)%string)%bool;
      [exact H | apply F].
  - rewrite applyAction_Percent. unfold applyPercent.
    destruct (hasError s); [exact H|]. simpl.
    destruct (truthy (pendingOperator s)); simpl; apply F.
Qed.

Lemma run_points (actions : list action) (s : State) :
  (decimal_points (displayValue s) <= 1)%nat ->
  (decimal_points (displayValue (run actions s)) <= 1)%nat.
Proof.
  revert s. induction actions as [|a l IH]; intros s H; [exact H|].
  simpl. apply IH, applyAction_points, H.
Qed.

Lemma inputDecimal_idempotent (s : State) :
  inputDecimal (inputDecimal s) = inputDecimal s.
Proof.
  assert (P : forall t, includes "." (t ++ ".") = true).
  { intros t. rewrite includes_point, points_app.
    replace (decimal_points ".") with 1%nat by reflexivity.
    rewrite Nat.add_comm. reflexivity. }
  destruct s as [dv cv po aw he]. unfold inputDecimal. simpl.
  destruct he; simpl; [reflexivity|].
  destruct aw; simpl; [reflexivity|].
  destruct (includes "." dv) eqn:Hi; simpl.
  - now rewrite Hi.
  - now rewrite P.
Qed.

(** C7.  In every state reached from the initial state the display has at
    most one decimal point.  [Decimal], when no error is latched and no
    operand is awaited, appends a point exactly when the display has none,
    and a second [Decimal] in a row changes nothing; and every string that
    [formatResult] returns has at most one decimal point. *)
Theorem display_has_at_most_one_point :
  (forall actions : list action,
     (decimal_points (displayValue (run actions initialState)) <= 1)%nat) /\
  (forall s : State,
     hasError s = false -> awaitingNextValue s = false ->
     applyAction Decimal s
     = if includes "." (displayValue s) then s
       else set_displayValue (displayValue s ++ ".") s) /\
  (forall s : State,
     applyAction Decimal (applyAction Decimal s) = applyAction Decimal s) /\
  (forall x : number, (decimal_points (formatResult x) <= 1)%nat).
Proof.
  split; [|split; [|split]].
  - intros actions. apply run_points. cbv. lia.
  - intros s He Ha. rewrite applyAction_Decimal. unfold inputDecimal.
    rewrite He, Ha. simpl. destruct (includes "." (displayValue s));
      reflexivity.
  - intros s. rewrite !applyAction_Decimal. apply inputDecimal_idempotent.
  - apply formatResult_points.
Qed.

Lemma display_has_at_most_one_point_witness :
  let s := run [Digit D1; Decimal; Decimal; Digit D5; Decimal] initialState in
  displayValue s = "1.5" /\ (decimal_points (displayValue s) <= 1)%nat.
Proof.
  cbv zeta. split; [reflexivity|].
  exact (proj1 display_has_at_most_one_point
           [Digit D1; Decimal; Decimal; Digit D5; Decimal]).
Defined.

(** ** Reading back what was written *)

Lemma strlen_app (a b : string) : strlen (a ++ b) = strlen a + strlen b.
Proof.
  unfold strlen. induction a as [|c a IH]; simpl String.length; [reflexivity|].
  rewrite !Nat2Z.inj_succ. lia.
Qed.

Lemma strlen_nonneg (a : string) : 0 <= strlen a.
Proof. unfold strlen. lia. Qed.

Lemma all_digits_app (a b : string) :
  all_digits (a ++ b) = all_digits a && all_digits b.
Proof.
  induction a as [|c a IH]; simpl; [reflexivity|].
  now rewrite IH, andb_assoc.
Qed.

Lemma shift_in_app (a b : string) (acc : Z) :
  shift_in (a ++ b) acc = shift_in b (shift_in a acc).
Proof.
  revert acc. induction a as [|c a IH]; intros acc; simpl; [reflexivity|].
  apply IH.
Qed.

Lemma scan_digits_app (a rest : string) (acc count : Z) :
  all_digits a = true ->
  scan_digits (a ++ rest) acc count
  = scan_digits rest (shift_in a acc) (count + strlen a).
Proof.
  revert acc count. induction a as [|c a IH]; intros acc count H.
  - simpl. change (strlen "") with 0. now rewrite Z.add_0_r.
  - simpl in H. apply andb_true_iff in H. destruct H as [Hc Ha].
    simpl. rewrite Hc, IH by assumption. f_equal.
    unfold strlen. simpl String.length. lia.
Qed.

Lemma digit_char_digit (d : Z) :
  0 <= d < 10 -> is_digit (digit_char d) = true /\ digit_value (digit_char d) = d.
Proof.
  intros H.
  assert (C : d = 0 \/ d = 1 \/ d = 2 \/ d = 3 \/ d = 4 \/ d = 5 \/ d = 6 \/
              d = 7 \/ d = 8 \/ d = 9) by lia.
  repeat destruct C as [->|C]; try subst d; split; reflexivity.
Qed.

Lemma digits_aux_app (fuel : nat) (n : Z) (tl : string) :
  digits_aux fuel n tl = digits_aux fuel n "" ++ tl.
Proof.
  revert n tl. induction fuel as [|fuel IH]; intros n tl; simpl; [reflexivity|].
  destruct (n <? 10); [reflexivity|].
  rewrite (IH _ (String _ tl)), (IH _ (String _ "")), append_assoc.
  reflexivity.
Qed.

Lemma digits_aux_digits (fuel : nat) (n : Z) :
  0 <= n < 10 ^ Z.of_nat fuel ->
  all_digits (digits_aux fuel n "") = true /\
  shift_in (digits_aux fuel n "") 0 = n.
Proof.
  revert n. induction fuel as [|fuel IH]; intros n H.
  - simpl in *. split; [reflexivity | lia].
  - simpl digits_aux.
    assert (Hm : 0 <= n mod 10 < 10) by (apply Z.mod_pos_bound; lia).
    destruct (digit_char_digit _ Hm) as [Hd Hv].
    destruct (Z.ltb_spec n 10) as [Hlt|Hge].
    + simpl. rewrite Hd, Hv. split; [reflexivity|].
      rewrite Z.mod_small; lia.
    + rewrite digits_aux_app.
      assert (Hq : 0 <= n / 10 < 10 ^ Z.of_nat fuel).
      { rewrite Nat2Z.inj_succ, Z.pow_succ_r in H by lia.
        split; [apply Z.div_pos; lia|].
        apply Z.div_lt_upper_bound; lia. }
      destruct (IH _ Hq) as [Ha Hs].
      rewrite all_digits_app, shift_in_app, Ha, Hs. simpl.
      rewrite Hd, Hv. split; [reflexivity|].
      pose proof (Z.div_mod n 10). lia.
Qed.

Lemma decimal_digits_fuel (n : Z) :
  0 <= n -> 0 <= n < 10 ^ Z.of_nat (S (Z.to_nat (Z.log2 n))).
Proof.
  intros H. split; [assumption|].
  rewrite Nat2Z.inj_succ, Z2Nat.id by apply Z.log2_nonneg.
  destruct (Z.eq_dec n 0) as [->|Hn]; [reflexivity|].
  pose proof (Z.log2_spec n ltac:(lia)) as [_ L].
  apply Z.lt_le_trans with (1 := L).
  apply Z.pow_le_mono_l. pose proof (Z.log2_nonneg n). lia.
Qed.

Lemma decimal_digits_all (n : Z) : 0 <= n -> all_digits (decimal_digits n) = true.
Proof.
  intros H. apply digits_aux_digits, decimal_digits_fuel, H.
Qed.

Lemma decimal_digits_value (n : Z) : 0 <= n -> shift_in (decimal_digits n) 0 = n.
Proof.
  intros H. apply digits_aux_digits, decimal_digits_fuel, H.
Qed.

Lemma ndigits_strlen (n : Z) : ndigits n = strlen (decimal_digits n).
Proof. reflexivity. Qed.

Lemma ndigits_pos (n : Z) : 1 <= ndigits n.
Proof.
  unfold ndigits, decimal_digits. simpl digits_aux.
  destruct (n <? 10); [simpl; lia|].
  rewrite digits_aux_app.
  fold (strlen (digits_aux (Z.to_nat (Z.log2 n)) (n / 10) "" ++
                String (digit_char (n mod 10)) "")).
  rewrite strlen_app.
  pose proof (strlen_nonneg (digits_aux (Z.to_nat (Z.log2 n)) (n / 10) "")).
  change (strlen (String (digit_char (n mod 10)) "")) with 1. lia.
Qed.

Lemma zeros_all (n : Z) : all_digits (zeros n) = true.
Proof.
  unfold zeros. induction (Z.to_nat n) as [|k IH]; [reflexivity | exact IH].
Qed.

Lemma zeros_strlen (n : Z) : 0 <= n -> strlen (zeros n) = n.
Proof.
  intros H. unfold zeros, strlen.
  rewrite <- (Z2Nat.id n) at 2 by assumption.
  induction (Z.to_nat n) as [|k IH]; [reflexivity|].
  simpl String.length. rewrite !Nat2Z.inj_succ, IH. reflexivity.
Qed.

Lemma zeros_value (n acc : Z) : 0 <= n -> shift_in (zeros n) acc = acc * 10 ^ n.
Proof.
  intros H. rewrite <- (Z2Nat.id n) at 2 by assumption.
  unfold zeros. revert acc. induction (Z.to_nat n) as [|k IH]; intros acc.
  - simpl. lia.
  - simpl shift_in. rewrite IH. change (digit_value "0") with 0.
    rewrite Nat2Z.inj_succ, Z.pow_succ_r by lia. lia.
Qed.

(** [string_take] and [string_drop] split a string. *)
Lemma substring_split (s : string) (n : nat) :
  substring 0 n s ++ substring n (String.length s - n) s = s.
Proof.
  revert n. induction s as [|c s IH]; intros n.
  - destruct n; reflexivity.
  - destruct n as [|n]; simpl.
    + f_equal. clear IH. induction s as [|d s IH]; simpl; [reflexivity|].
      now rewrite IH.
    + f_equal. apply IH.
Qed.

Lemma take_drop (n : Z) (s : string) : string_take n s ++ string_drop n s = s.
Proof. apply substring_split. Qed.

Lemma substring_strlen (s : string) (n : nat) :
  (n <= String.length s)%nat -> String.length (substring 0 n s) = n.
Proof.
  revert n. induction s as [|c s IH]; intros n H.
  - destruct n; simpl in *; [reflexivity | lia].
  - destruct n as [|n]; simpl in *; [reflexivity|]. rewrite IH; lia.
Qed.

Lemma take_strlen (n : Z) (s : string) :
  0 <= n <= strlen s -> strlen (string_take n s) = n.
Proof.
  intros H. unfold strlen, string_take in *.
  rewrite substring_strlen by lia. lia.
Qed.

(** ** Rounding a value that is a Number already *)

Lemma digits2_pos_size (p : positive) : digits2_pos p = Pos.size p.
Proof. induction p as [p IH|p IH|]; simpl; now rewrite ?IH. Qed.

Lemma digits2_bounds (p : positive) :
  2 ^ (Zpos (digits2_pos p) - 1) <= Zpos p < 2 ^ Zpos (digits2_pos p).
Proof.
  rewrite digits2_pos_size.
  pose proof (Pos.size_gt p) as G. pose proof (Pos.size_le p) as L.
  apply Pos2Z.pos_lt_pos in G. apply Pos2Z.pos_le_pos in L.
  rewrite Pos2Z.inj_pow in G, L.
  change (Zpos p~0) with (2 * Zpos p) in L.
  replace (Zpos (Pos.size p)) with (Z.succ (Zpos (Pos.size p) - 1)) in L by lia.
  rewrite Z.pow_succ_r in L by lia. lia.
Qed.

Lemma digits2_unique (p : positive) (d : Z) :
  2 ^ (d - 1) <= Zpos p < 2 ^ d -> Zpos (digits2_pos p) = d.
Proof.
  intros [L U]. pose proof (digits2_bounds p) as [L' U'].
  set (d' := Zpos (digits2_pos p)) in *.
  assert (0 < d') by (unfold d'; lia).
  assert (0 < d).
  { destruct (Z.ltb_spec 0 d) as [P|N]; [exact P|].
    assert (2 ^ d <= 1); [|lia].
    destruct (Z.eq_dec d 0) as [->|]; [simpl; lia|].
    rewrite Z.pow_neg_r by lia. lia. }
  destruct (Z.lt_trichotomy d d') as [C|[C|C]]; [|now symmetry|].
  - assert (2 ^ d <= 2 ^ (d' - 1)) by (apply Z.pow_le_mono_r; lia). lia.
  - assert (2 ^ d' <= 2 ^ (d - 1)) by (apply Z.pow_le_mono_r; lia). lia.
Qed.

Lemma iter_pos_nat {A : Type} (f : A -> A) (p : positive) (x : A) :
  SpecFloat.iter_pos f p x = Nat.iter (Pos.to_nat p) f x.
Proof.
  revert x. induction p as [p IH|p IH|]; intros x; cbn [SpecFloat.iter_pos].
  - rewrite !IH, Pos2Nat.inj_xI.
    replace (S (2 * Pos.to_nat p))
      with (Pos.to_nat p + (Pos.to_nat p + 1))%nat by lia.
    rewrite !Nat.iter_add. reflexivity.
  - rewrite !IH, Pos2Nat.inj_xO.
    replace (2 * Pos.to_nat p)%nat
      with (Pos.to_nat p + Pos.to_nat p)%nat by lia.
    rewrite Nat.iter_add. reflexivity.
  - reflexivity.
Qed.

Lemma shr_1_double (w : Z) :
  shr_1 (Build_shr_record (2 * w) false false) = Build_shr_record w false false.
Proof. destruct w; reflexivity. Qed.

Lemma shr_1_iter_exact (k : nat) (w : Z) :
  Nat.iter k shr_1 (Build_shr_record (w * 2 ^ Z.of_nat k) false false)
  = Build_shr_record w false false.
Proof.
  induction k as [|k IH].
  - simpl. now rewrite Z.mul_1_r.
  - rewrite Nat.iter_succ_r, Nat2Z.inj_succ, Z.pow_succ_r by lia.
    replace (w * (2 * 2 ^ Z.of_nat k)) with (2 * (w * 2 ^ Z.of_nat k)) by lia.
    rewrite shr_1_double. exact IH.
Qed.

(** Shifting out [t] zero bits is exact. *)
Lemma shr_exact (w e t : Z) :
  0 <= t ->
  shr (Build_shr_record (w * 2 ^ t) false false) e t
  = (Build_shr_record w false false, e + t).
Proof.
  intros Ht. unfold shr. destruct t as [|p|p]; [| |lia].
  - now rewrite Z.mul_1_r, Z.add_0_r.
  - rewrite iter_pos_nat. f_equal.
    rewrite <- (positive_nat_Z p). apply shr_1_iter_exact.
Qed.

Lemma bounded_canonical (m : positive) (e : Z) :
  bounded prec emax m e = true ->
  fexp prec emax (Zpos (digits2_pos m) + e) = e /\ e <= emax - prec.
Proof.
  unfold bounded, canonical_mantissa. intros H.
  apply andb_true_iff in H. destruct H as [H1 H2].
  apply Z.eqb_eq in H1. apply Z.leb_le in H2. now split.
Qed.

Lemma fexp_mono (a b : Z) : a <= b -> fexp prec emax a <= fexp prec emax b.
Proof. unfold fexp. lia. Qed.

(** Rounding the exact mantissa [m * 2 ^ t] at exponent [e - t] gives back
    the Number [m * 2 ^ e]. *)
Lemma binary_round_aux_exact (neg : bool) (m : positive) (e t : Z) :
  bounded prec emax m e = true -> 0 <= t ->
  binary_round_aux prec emax neg (Zpos m * 2 ^ t) (e - t) loc_Exact
  = S754_finite neg m e.
Proof.
  intros Hb Ht. destruct (bounded_canonical m e Hb) as [Hc He].
  assert (Hd : Zdigits2 (Zpos m * 2 ^ t) = Zpos (digits2_pos m) + t).
  { assert (P : 0 < 2 ^ t) by (apply Z.pow_pos_nonneg; lia).
    destruct (Zpos m * 2 ^ t) as [|q|q] eqn:E; try lia.
    cbn [Zdigits2]. apply digits2_unique.
    pose proof (digits2_bounds m) as [L U].
    replace (Zpos (digits2_pos m) + t - 1)
      with ((Zpos (digits2_pos m) - 1) + t) by lia.
    rewrite !Z.pow_add_r by lia. nia. }
  unfold binary_round_aux, shr_fexp.
  rewrite Hd.
  replace (Zpos (digits2_pos m) + t + (e - t)) with (Zpos (digits2_pos m) + e)
    by lia.
  rewrite Hc. replace (e - (e - t)) with t by lia.
  cbn [shr_record_of_loc]. rewrite shr_exact by lia.
  replace (e - t + t) with e by lia.
  cbn [shr_m loc_of_shr_record round_nearest_even Zdigits2].
  rewrite Hc, Z.sub_diag. cbn [shr_record_of_loc shr shr_m].
  apply Z.leb_le in He. now rewrite He.
Qed.

Lemma pow2_lt_inv (x y : Z) : 0 <= y -> 2 ^ x < 2 ^ y -> x < y.
Proof.
  intros Hy H. destruct (Z.ltb_spec x y) as [|N]; [assumption|].
  assert (2 ^ y <= 2 ^ x) by (apply Z.pow_le_mono_r; lia). lia.
Qed.

Lemma div_eucl_exact (b q : Z) : 0 < b -> Z.div_eucl (b * q) b = (q, 0).
Proof.
  intros Hb.
  pose proof (Z.div_mul q b ltac:(lia)) as D.
  pose proof (Z.mod_mul q b ltac:(lia)) as M.
  rewrite (Z.mul_comm q b) in D, M.
  unfold Z.div, Z.modulo in D, M.
  destruct (Z.div_eucl (b * q) b) as [q' r']. simpl in D, M. congruence.
Qed.

Lemma new_location_exact (b : Z) : new_location b 0 = loc_Exact.
Proof.
  unfold new_location, new_location_even, new_location_odd.
  destruct (Z.even b); reflexivity.
Qed.

(** The core of the division, on two integers whose ratio is
    [m * 2 ^ e]. *)
Lemma SFdiv_core_exact (a b m : positive) (e : Z) :
  bounded prec emax m e = true ->
  (0 <= e -> Zpos a = Zpos b * (Zpos m * 2 ^ e)) ->
  (e < 0 -> Zpos a * 2 ^ (- e) = Zpos b * Zpos m) ->
  exists t, 0 <= t /\
    SFdiv_core_binary prec emax (Zpos a) 0 (Zpos b) 0
    = (Zpos m * 2 ^ t, e - t, loc_Exact).
Proof.
  intros Hb Hpos Hneg. destruct (bounded_canonical m e Hb) as [Hc He].
  pose proof (digits2_bounds a) as [La Ua].
  pose proof (digits2_bounds b) as [Lb Ub].
  pose proof (digits2_bounds m) as [Lm Um].
  set (d1 := Zpos (digits2_pos a)) in *.
  set (d2 := Zpos (digits2_pos b)) in *.
  set (dm := Zpos (digits2_pos m)) in *.
  assert (Hd : d1 - d2 <= dm + e).
  { assert (X : Zpos b * Zpos m < 2 ^ d2 * 2 ^ dm)
      by (apply Z.mul_lt_mono_nonneg; lia).
    destruct (Z.ltb_spec e 0) as [N|P].
    - specialize (Hneg N).
      assert (H : 2 ^ (d1 - 1 - e) < 2 ^ (d2 + dm)).
      { replace (d1 - 1 - e) with ((d1 - 1) + (- e)) by lia.
        rewrite !Z.pow_add_r by (unfold d1, d2, dm; lia).
        assert (0 < 2 ^ (- e)) by (apply Z.pow_pos_nonneg; lia).
        apply Z.le_lt_trans with (Zpos a * 2 ^ (- e)); [|lia].
        apply Z.mul_le_mono_nonneg_r; lia. }
      apply pow2_lt_inv in H; unfold d1, d2, dm in *; lia.
    - specialize (Hpos P).
      assert (H : 2 ^ (d1 - 1) < 2 ^ (d2 + dm + e)).
      { rewrite !Z.pow_add_r by (unfold d1, d2, dm; lia).
        assert (0 < 2 ^ e) by (apply Z.pow_pos_nonneg; lia).
        apply Z.le_lt_trans with (Zpos a); [lia|].
        rewrite Hpos, Z.mul_assoc.
        apply Z.mul_lt_mono_pos_r; lia. }
      apply pow2_lt_inv in H; unfold d1, d2, dm in *; lia. }
  unfold SFdiv_core_binary. cbn [Zdigits2]. fold d1 d2.
  rewrite !Z.add_0_r, Z.sub_diag.
  set (e' := Z.min (fexp prec emax (d1 - d2)) 0).
  assert (He' : e' <= e /\ e' <= 0).
  { pose proof (fexp_mono _ _ Hd) as F. fold dm in Hc. unfold e'. lia. }
  exists (e - e'). split; [lia|].
  assert (Hm' : match 0 - e' with
                | Z0 => Zpos a
                | Zpos _ => Z.shiftl (Zpos a) (0 - e')
                | Zneg _ => 0
                end = Zpos b * (Zpos m * 2 ^ (e - e'))).
  { assert (E : Zpos a * 2 ^ (0 - e') = Zpos b * (Zpos m * 2 ^ (e - e'))).
    { destruct (Z.ltb_spec e 0) as [N|P].
      - specialize (Hneg N).
        replace (0 - e') with (- e + (e - e')) by lia.
        rewrite Z.pow_add_r by lia. rewrite Z.mul_assoc, Hneg. ring.
      - rewrite (Hpos P).
        replace (e - e') with (e + (0 - e')) by lia.
        rewrite Z.pow_add_r by lia. ring. }
    destruct (0 - e') as [|p|p] eqn:Es; [| |lia].
    - rewrite <- E. simpl. lia.
    - rewrite Z.shiftl_mul_pow2 by lia. exact E. }
  rewrite Hm', div_eucl_exact by lia.
  rewrite new_location_exact. f_equal. f_equal. lia.
Qed.

(** The quotient of two integers whose ratio is the Number [m * 2 ^ e] is
    that Number. *)
Lemma of_ratio_exact (neg : bool) (a b m : positive) (e : Z) :
  bounded prec emax m e = true ->
  (0 <= e -> Zpos a = Zpos b * (Zpos m * 2 ^ e)) ->
  (e < 0 -> Zpos a * 2 ^ (- e) = Zpos b * Zpos m) ->
  of_ratio neg a b = S754_finite neg m e.
Proof.
  intros Hb Hpos Hneg.
  destruct (SFdiv_core_exact a b m e Hb Hpos Hneg) as (t & Ht & E).
  unfold of_ratio, SFdiv. rewrite E, xorb_false_r.
  now apply binary_round_aux_exact.
Qed.

Lemma exact_digits_number (m : positive) (e : Z) :
  bounded prec emax m e = true ->
  digits_number (exact_digits m e) = S754_finite false m e.
Proof.
  intros Hb. unfold digits_number, exact_digits.
  destruct (Z.leb_spec 0 e) as [P|N]; cbn [fst snd].
  - rewrite Z.sub_diag. unfold of_decimal.
    assert (Q : 0 < 2 ^ e) by (apply Z.pow_pos_nonneg; lia).
    destruct (Zpos m * 2 ^ e) as [|p|p] eqn:E; try lia.
    cbn [Z.leb Z.compare]. simpl (0 <=? 0).
    apply of_ratio_exact; [assumption| |lia].
    intros _. rewrite Z.pow_0_r, Z.mul_1_r. simpl Z.to_pos. lia.
  - replace (ndigits (Zpos m * 5 ^ (- e)) + e - ndigits (Zpos m * 5 ^ (- e)))
      with e by lia.
    unfold of_decimal.
    assert (Q : 0 < 5 ^ (- e)) by (apply Z.pow_pos_nonneg; lia).
    assert (Q' : 0 < 10 ^ (- e)) by (apply Z.pow_pos_nonneg; lia).
    destruct (Zpos m * 5 ^ (- e)) as [|p|p] eqn:E; try lia.
    destruct (Z.leb_spec 0 e); [lia|].
    apply of_ratio_exact; [assumption|lia|].
    intros _. rewrite Z2Pos.id by assumption. rewrite <- E.
    replace 10 with (5 * 2) by reflexivity.
    rewrite Z.pow_mul_l. ring.
Qed.

(** ** Parsing the output of [Number::toString] *)

Lemma digit_head (c : ascii) (r : string) :
  is_digit c = true ->
  trim_start (String c r) = String c r /\
  scan_sign (String c r) = (false, String c r) /\
  prefix "Infinity" (String c r) = false.
Proof.
  destruct c as [b0 b1 b2 b3 b4 b5 b6 b7].
  destruct b0, b1, b2, b3, b4, b5, b6, b7; intros H; try discriminate H;
    repeat split; reflexivity.
Qed.

Lemma digits_head (a : string) :
  all_digits a = true -> 1 <= strlen a ->
  exists c r, a = String c r /\ is_digit c = true.
Proof.
  destruct a as [|c r]; intros H L.
  - unfold strlen in L. simpl in L. lia.
  - simpl in H. apply andb_true_iff in H. destruct H as [H _]. eauto.
Qed.

(** A text that starts with a digit is read as an unsigned literal, and
    after a minus sign as its opposite. *)
Lemma parseFloat_digits (a y : string) :
  all_digits a = true -> 1 <= strlen a ->
  parseFloat (a ++ y) = parse_unsigned false (a ++ y) /\
  parseFloat ("-" ++ a ++ y) = parse_unsigned true (a ++ y).
Proof.
  intros H L. destruct (digits_head a H L) as (c & r & -> & Hc).
  destruct (digit_head c (r ++ y) Hc) as (T & S & _).
  unfold parseFloat. cbn [append]. rewrite T, S. split; reflexivity.
Qed.

Lemma scan_exponent_suffix (e : Z) : scan_exponent (exponent_suffix e) = e.
Proof.
  unfold exponent_suffix. cbn [append scan_exponent Ascii.eqb Bool.eqb orb].
  assert (D : scan_digits (decimal_digits (Z.abs e)) 0 0
              = (Z.abs e, ndigits (Z.abs e), "")).
  { rewrite <- (append_empty_r (decimal_digits (Z.abs e))) at 1.
    rewrite scan_digits_app by (apply decimal_digits_all; lia).
    rewrite decimal_digits_value by lia. reflexivity. }
  pose proof (ndigits_pos (Z.abs e)) as N.
  destruct (Z.ltb_spec e 0) as [L|G]; cbn [append scan_sign]; rewrite D;
    destruct (Z.eqb_spec (ndigits (Z.abs e)) 0); lia.
Qed.

Lemma literal_end_scan (x : string) (e : Z) :
  literal_end x e ->
  (forall acc count, scan_digits x acc count = (acc, count, x)) /\
  (forall ip, scan_fraction x ip = (ip, 0, x)) /\
  scan_exponent x = e.
Proof.
  intros [|e']; repeat split; try reflexivity.
  apply scan_exponent_suffix.
Qed.

Lemma prefix_Infinity_digits (a y : string) :
  all_digits a = true -> 1 <= strlen a -> prefix "Infinity" (a ++ y) = false.
Proof.
  intros H L. destruct (digits_head a H L) as (c & r & -> & Hc).
  apply (digit_head c (r ++ y) Hc).
Qed.

Lemma parse_integer_form (neg : bool) (a x : string) (e : Z) :
  all_digits a = true -> 1 <= strlen a -> literal_end x e ->
  parse_unsigned neg (a ++ x) = of_decimal neg (shift_in a 0) e.
Proof.
  intros H L X. destruct (literal_end_scan x e X) as (Xd & Xf & Xe).
  unfold parse_unsigned.
  rewrite prefix_Infinity_digits, scan_digits_app, Xd by assumption.
  cbv beta iota zeta. rewrite Xf. cbv beta iota zeta. rewrite Xe.
  destruct (Z.eqb_spec (0 + strlen a + 0) 0); [lia|].
  now rewrite Z.sub_0_r.
Qed.

Lemma parse_fraction_form (neg : bool) (a b x : string) (e : Z) :
  all_digits a = true -> all_digits b = true -> 1 <= strlen a ->
  literal_end x e ->
  parse_unsigned neg (a ++ "." ++ b ++ x)
  = of_decimal neg (shift_in (a ++ b) 0) (e - strlen b).
Proof.
  intros Ha Hb L X. destruct (literal_end_scan x e X) as (Xd & Xf & Xe).
  unfold parse_unsigned.
  rewrite prefix_Infinity_digits, scan_digits_app by assumption.
  cbn [append].
  replace (scan_digits (String "." (b ++ x)) (shift_in a 0) (0 + strlen a))
    with (shift_in a 0, 0 + strlen a, String "."%char (b ++ x)) by reflexivity.
  cbv beta iota zeta. cbn [scan_fraction].
  rewrite scan_digits_app, Xd by assumption.
  cbv beta iota zeta. rewrite Xe.
  pose proof (strlen_nonneg b).
  destruct (Z.eqb_spec (0 + strlen a + (0 + strlen b)) 0); [lia|].
  now rewrite shift_in_app, Z.add_0_l.
Qed.

Lemma of_decimal_scaled (neg : bool) (s j : Z) :
  0 < s -> 0 <= j -> of_decimal neg (s * 10 ^ j) 0 = of_decimal neg s j.
Proof.
  intros Hs Hj.
  assert (P : 0 < s * 10 ^ j).
  { apply Z.mul_pos_pos; [assumption|]. apply Z.pow_pos_nonneg; lia. }
  unfold of_decimal at 1.
  destruct (s * 10 ^ j) as [|q|q] eqn:E; try lia.
  rewrite Z.pow_0_r, Z.mul_1_r. simpl (0 <=? 0).
  unfold of_decimal. destruct s as [|p|p]; try lia.
  destruct (Z.leb_spec 0 j); [|lia]. now rewrite E.
Qed.

Lemma take_drop_digits (n : Z) (ds : string) :
  all_digits ds = true ->
  all_digits (string_take n ds) = true /\ all_digits (string_drop n ds) = true.
Proof.
  intros H. rewrite <- (take_drop n ds), all_digits_app in H.
  now apply andb_true_iff in H.
Qed.

Lemma take_drop_value (n : Z) (ds : string) :
  shift_in (string_take n ds ++ string_drop n ds) 0 = shift_in ds 0.
Proof. now rewrite take_drop. Qed.

Lemma drop_strlen (n : Z) (ds : string) :
  0 <= n <= strlen ds -> strlen (string_drop n ds) = strlen ds - n.
Proof.
  intros H. pose proof (take_strlen n ds H) as T.
  pose proof (strlen_app (string_take n ds) (string_drop n ds)) as A.
  rewrite take_drop in A. lia.
Qed.

(** A text whose unsigned reading is known, read with and without a minus
    sign in front. *)
Lemma parseFloat_signed (str : string) (v : bool -> number) :
  (forall neg, parse_unsigned neg str = v neg) ->
  (exists a y, str = a ++ y /\ all_digits a = true /\ 1 <= strlen a) ->
  parseFloat str = v false /\ parseFloat ("-" ++ str) = v true.
Proof.
  intros P (a & y & -> & Ha & La).
  destruct (parseFloat_digits a y Ha La) as [-> ->]. now rewrite !P.
Qed.

(** The text that [Number::toString] writes for the digits [s] and the
    exponent [n] reads back as [s * 10 ^ (n - k)]. *)
Lemma parseFloat_format_digits (s n : Z) :
  0 < s ->
  parseFloat (format_digits s n) = of_decimal false s (n - ndigits s) /\
  parseFloat ("-" ++ format_digits s n) = of_decimal true s (n - ndigits s).
Proof.
  intros Hs.
  pose proof (decimal_digits_all s ltac:(lia)) as Hd.
  pose proof (decimal_digits_value s ltac:(lia)) as Hv.
  pose proof (ndigits_pos s) as Hk.
  pose proof (ndigits_strlen s) as Hl.
  unfold format_digits.
  set (ds := decimal_digits s) in *. set (k := ndigits s) in *.
  pose proof parseFloat_signed as G.
  destruct (take_drop_digits n ds Hd) as [Htn Hdn].
  destruct (take_drop_digits 1 ds Hd) as [Ht1 Hd1].
  destruct ((k <=? n) && (n <=? 21)) eqn:C1.
  { apply andb_true_iff in C1. destruct C1 as [C1 _]. apply Z.leb_le in C1.
    apply (G _ (fun neg => of_decimal neg s (n - k))).
    - intros neg. rewrite <- (append_empty_r (ds ++ zeros (n - k))).
      rewrite (parse_integer_form neg _ "" 0).
      + rewrite shift_in_app, Hv, zeros_value by lia.
        apply of_decimal_scaled; lia.
      + rewrite all_digits_app, Hd. apply zeros_all.
      + rewrite strlen_app. pose proof (strlen_nonneg (zeros (n - k))). lia.
      + constructor.
    - exists ds, (zeros (n - k)). repeat split; [assumption | lia]. }
  destruct ((0 <? n) && (n <=? 21)) eqn:C2.
  { apply andb_true_iff in C2. destruct C2 as [C2 C2'].
    apply Z.ltb_lt in C2. apply Z.leb_le in C2'.
    assert (n < k).
    { apply andb_false_iff in C1. destruct C1 as [C1|C1];
        [apply Z.leb_gt in C1 | apply Z.leb_gt in C1]; lia. }
    assert (Ln : strlen (string_take n ds) = n) by (apply take_strlen; lia).
    apply (G _ (fun neg => of_decimal neg s (n - k))).
    - intros neg. rewrite <- (append_empty_r (string_drop n ds)).
      rewrite (parse_fraction_form neg _ _ "" 0);
        try assumption; try constructor; try lia.
      rewrite take_drop_value, Hv, drop_strlen by lia.
      f_equal. lia.
    - exists (string_take n ds), ("." ++ string_drop n ds).
      repeat split; [assumption | lia]. }
  destruct ((-6 <? n) && (n <=? 0)) eqn:C3.
  { apply andb_true_iff in C3. destruct C3 as [C3 C3'].
    apply Z.ltb_lt in C3. apply Z.leb_le in C3'.
    apply (G _ (fun neg => of_decimal neg s (n - k))).
    - intros neg.
      change ("0." ++ zeros (- n) ++ ds) with ("0" ++ "." ++ zeros (- n) ++ ds).
      rewrite <- (append_empty_r ds) at 1.
      rewrite <- (append_assoc (zeros (- n)) ds "").
      rewrite (parse_fraction_form neg "0" (zeros (- n) ++ ds) "" 0);
        try constructor; try reflexivity.
      + rewrite !shift_in_app. change (shift_in "0" 0) with 0.
        rewrite zeros_value, Z.mul_0_l, Hv by lia.
        rewrite strlen_app, zeros_strlen by lia. f_equal. lia.
      + now rewrite all_digits_app, Hd, zeros_all.
    - exists "0", ("." ++ zeros (- n) ++ ds). repeat split. reflexivity. }
  destruct (Z.eqb_spec k 1) as [C4|C4].
  { apply (G _ (fun neg => of_decimal neg s (n - k))).
    - intros neg.
      rewrite (parse_integer_form neg ds _ (n - 1));
        try assumption; try constructor; try lia.
      rewrite Hv. f_equal. lia.
    - exists ds, (exponent_suffix (n - 1)). repeat split; [assumption | lia]. }
  assert (L1 : strlen (string_take 1 ds) = 1) by (apply take_strlen; lia).
  apply (G _ (fun neg => of_decimal neg s (n - k))).
  - intros neg.
    rewrite (parse_fraction_form neg _ _ _ (n - 1));
      try assumption; try constructor; try lia.
    rewrite take_drop_value, Hv, drop_strlen by lia. f_equal. lia.
  - exists (string_take 1 ds),
      ("." ++ string_drop 1 ds ++ exponent_suffix (n - 1)).
    repeat split; [assumption | lia].
Qed.

(** ** The digits found denote the Number *)

Lemma same_value_eq (x y : number) : same_value x y = true -> x = y.
Proof.
  destruct x as [a|a| |a m e], y as [b|b| |b m' e']; simpl; intros H;
    try discriminate; try reflexivity.
  - apply Bool.eqb_prop in H. now subst.
  - apply Bool.eqb_prop in H. now subst.
  - apply andb_true_iff in H. destruct H as [H He].
    apply andb_true_iff in H. destruct H as [Hs Hm].
    apply Bool.eqb_prop in Hs. apply Pos.eqb_eq in Hm. apply Z.eqb_eq in He.
    now subst.
Qed.

Lemma shortest_digits_unfold (fuel : nat) (m : positive) (e n0 k : Z) :
  shortest_digits fuel m e n0 k =
  let '(num, den) := exact_ratio m e in
  let '(tn, td) := scale10 num den (k - n0) in
  let lo := candidate (tn / td) n0 k in
  let hi := candidate (tn / td + 1) n0 k in
  let x := S754_finite false m e in
  let lo_ok := same_value (digits_number lo) x in
  let hi_ok := same_value (digits_number hi) x in
  let hi_nearer :=
    match 2 * (tn mod td) ?= td with
    | Lt => false
    | Gt => true
    | Eq => Z.odd (tn / td)
    end in
  if lo_ok && hi_ok then (if hi_nearer then hi else lo)
  else if lo_ok then lo
  else if hi_ok then hi
  else
    match fuel with
    | S fuel' => shortest_digits fuel' m e n0 (k + 1)
    | O => exact_digits m e
    end.
Proof. destruct fuel; reflexivity. Qed.

Lemma shortest_digits_number (fuel : nat) (m : positive) (e n0 k : Z) :
  bounded prec emax m e = true ->
  digits_number (shortest_digits fuel m e n0 k) = S754_finite false m e.
Proof.
  intros Hb. revert k. induction fuel as [|fuel IH]; intros k;
    rewrite shortest_digits_unfold;
    destruct (exact_ratio m e) as [num den];
    destruct (scale10 num den (k - n0)) as [tn td];
    cbv zeta;
    destruct (same_value (digits_number (candidate (tn / td) n0 k)) _) eqn:Lo;
    destruct (same_value (digits_number (candidate (tn / td + 1) n0 k)) _)
      eqn:Hi;
    cbn [andb];
    try (destruct (match 2 * (tn mod td) ?= td with
                   | Lt => false | Gt => true | Eq => Z.odd (tn / td) end));
    try (now apply same_value_eq);
    try (now apply exact_digits_number); apply IH.
Qed.

Lemma digits_number_positive (s n : Z) (sg : bool) (m : positive) (e : Z) :
  digits_number (s, n) = S754_finite sg m e -> 0 < s.
Proof.
  unfold digits_number, of_decimal. cbn [fst snd].
  destruct s; intros H; try discriminate H. lia.
Qed.

(** ** Signs *)

Lemma binary_round_aux_opp (m e : Z) (l : location) :
  binary_round_aux prec emax true m e l
  = SFopp (binary_round_aux prec emax false m e l).
Proof.
  unfold binary_round_aux.
  destruct (shr_fexp prec emax m e l) as [mrs' e'].
  destruct (shr_fexp prec emax _ e' loc_Exact) as [mrs'' e''].
  destruct (shr_m mrs''); [reflexivity| |reflexivity].
  destruct (e'' <=? emax - prec); reflexivity.
Qed.

Lemma of_ratio_opp (a b : positive) :
  of_ratio true a b = SFopp (of_ratio false a b).
Proof.
  unfold of_ratio, SFdiv.
  destruct (SFdiv_core_binary prec emax (Zpos a) 0 (Zpos b) 0) as [[mz ez] lz].
  apply binary_round_aux_opp.
Qed.

Lemma of_decimal_opp (m e10 : Z) :
  of_decimal true m e10 = SFopp (of_decimal false m e10).
Proof.
  unfold of_decimal. destruct m; try reflexivity.
  destruct (0 <=? e10); apply of_ratio_opp.
Qed.

(** ** Round trip *)

(** [parseFloat(String(x))] is [x], up to the sign of zero. *)
Theorem parseFloat_Number_toString (x : number) :
  valid_binary prec emax x = true ->
  parseFloat (Number_toString x) = unsigned_zero x.
Proof.
  intros Hv. destruct x as [sg|sg| |sg m e].
  - reflexivity.
  - destruct sg; reflexivity.
  - reflexivity.
  - simpl in Hv. unfold Number_toString, toString_finite.
    destruct (exact_ratio m e) as [num den].
    pose proof (shortest_digits_number 16 m e (decimal_exponent num den) 1 Hv)
      as D.
    destruct (shortest_digits 16 m e (decimal_exponent num den) 1) as [s n].
    pose proof (digits_number_positive _ _ _ _ _ D) as Hs.
    destruct (parseFloat_format_digits s n Hs) as [P N].
    unfold digits_number in D. cbn [fst snd] in D.
    destruct sg.
    + rewrite N, of_decimal_opp, D. reflexivity.
    + cbn [append]. now rewrite P, D.
Qed.

(** ** Every parsed Number is a binary64 value *)

Lemma Zdigits2_nonneg (m : Z) : 0 <= Zdigits2 m.
Proof. destruct m; simpl; lia. Qed.

Lemma Zdigits2_bounds (m : Z) :
  0 < m -> 2 ^ (Zdigits2 m - 1) <= m < 2 ^ Zdigits2 m.
Proof. destruct m as [|p|p]; try lia. intros _. apply digits2_bounds. Qed.

Lemma Zdigits2_unique (m d : Z) :
  2 ^ (d - 1) <= m < 2 ^ d -> 0 < m -> Zdigits2 m = d.
Proof.
  destruct m as [|p|p]; try lia. intros H _. now apply digits2_unique.
Qed.

Lemma Zdigits2_mono (m m' : Z) : 0 <= m <= m' -> Zdigits2 m <= Zdigits2 m'.
Proof.
  intros [H0 H]. destruct (Z.eq_dec m 0) as [->|N].
  - apply Zdigits2_nonneg.
  - pose proof (Zdigits2_bounds m ltac:(lia)) as [L _].
    pose proof (Zdigits2_bounds m' ltac:(lia)) as [_ U].
    assert (X : 2 ^ (Zdigits2 m - 1) < 2 ^ Zdigits2 m') by lia.
    apply pow2_lt_inv in X; [lia | apply Zdigits2_nonneg].
Qed.

Lemma shr_1_m (mrs : shr_record) :
  0 <= shr_m mrs -> shr_m (shr_1 mrs) = shr_m mrs / 2.
Proof.
  destruct mrs as [m r s]. simpl. intros H.
  destruct m as [|[p|p|]|p]; simpl; try reflexivity; try lia.
  - rewrite Pos2Z.inj_xI. apply Z.div_unique with 1; lia.
  - rewrite Pos2Z.inj_xO. apply Z.div_unique with 0; lia.
Qed.

Lemma shr_iter_m (k : nat) (mrs : shr_record) :
  0 <= shr_m mrs ->
  shr_m (Nat.iter k shr_1 mrs) = shr_m mrs / 2 ^ Z.of_nat k.
Proof.
  intros H. induction k as [|k IH].
  - simpl. now rewrite Z.div_1_r.
  - rewrite Nat.iter_succ, shr_1_m, IH.
    + rewrite Nat2Z.inj_succ, Z.pow_succ_r, Z.mul_comm by lia.
      assert (0 < 2 ^ Z.of_nat k) by (apply Z.pow_pos_nonneg; lia).
      rewrite Z.div_div by lia. reflexivity.
    + rewrite IH. apply Z.div_pos; [assumption|].
      apply Z.pow_pos_nonneg; lia.
Qed.

Lemma shr_record_of_loc_m (m : Z) (l : location) :
  shr_m (shr_record_of_loc m l) = m.
Proof. destruct l as [|[| |]]; reflexivity. Qed.

(** The mantissa and the exponent after [shr_fexp], when the exponent given
    is not above the canonical one. *)
Lemma shr_fexp_spec (m e : Z) (l : location) :
  0 <= m -> e <= fexp prec emax (Zdigits2 m + e) ->
  exists n, 0 <= n /\
    shr_m (fst (shr_fexp prec emax m e l)) = m / 2 ^ n /\
    snd (shr_fexp prec emax m e l) = e + n /\
    e + n = fexp prec emax (Zdigits2 m + e).
Proof.
  intros Hm He. unfold shr_fexp, shr.
  set (n := fexp prec emax (Zdigits2 m + e) - e) in *.
  exists n. split; [lia|].
  destruct n as [|p|p] eqn:En; try lia; cbn [fst snd].
  - rewrite shr_record_of_loc_m, Z.div_1_r. repeat split; lia.
  - rewrite iter_pos_nat, shr_iter_m, shr_record_of_loc_m,
      positive_nat_Z by (now rewrite shr_record_of_loc_m).
    repeat split; lia.
Qed.

Lemma Zdigits2_shift (m n : Z) :
  0 <= n -> 0 < m / 2 ^ n -> Zdigits2 (m / 2 ^ n) = Zdigits2 m - n.
Proof.
  intros Hn Hq.
  assert (P : 0 < 2 ^ n) by (apply Z.pow_pos_nonneg; lia).
  assert (Hm : 0 < m).
  { destruct (Z.ltb_spec 0 m) as [|N]; [assumption|].
    assert (m / 2 ^ n <= 0) by (apply Z.div_le_upper_bound; lia). lia. }
  pose proof (Zdigits2_bounds m Hm) as [L U].
  assert (Hd : n < Zdigits2 m).
  { destruct (Z.ltb_spec n (Zdigits2 m)) as [|N]; [assumption|].
    assert (2 ^ Zdigits2 m <= 2 ^ n)
      by (apply Z.pow_le_mono_r; lia).
    rewrite Z.div_small in Hq by lia. lia. }
  apply Zdigits2_unique; [|assumption]. split.
  - apply Z.div_le_lower_bound; [assumption|].
    rewrite <- Z.pow_add_r by lia.
    replace (n + (Zdigits2 m - n - 1)) with (Zdigits2 m - 1) by lia.
    assumption.
  - apply Z.div_lt_upper_bound; [assumption|].
    rewrite <- Z.pow_add_r by lia.
    replace (n + (Zdigits2 m - n)) with (Zdigits2 m) by lia. assumption.
Qed.

Lemma round_nearest_even_range (m : Z) (l : location) :
  m <= round_nearest_even m l <= m + 1.
Proof.
  unfold round_nearest_even. destruct l as [|[| |]]; try lia.
  destruct (Z.even m); lia.
Qed.

Lemma fexp_ge_emin (z : Z) : emin prec emax <= fexp prec emax z.
Proof. unfold fexp. lia. Qed.

(** After [shr_fexp] the mantissa, if not zero, is canonical; if zero, the
    exponent is the least one. *)
Lemma shr_fexp_canonical (m e : Z) (l : location) :
  0 <= m -> e <= fexp prec emax (Zdigits2 m + e) ->
  let m' := shr_m (fst (shr_fexp prec emax m e l)) in
  let e' := snd (shr_fexp prec emax m e l) in
  0 <= m' /\
  (0 < m' -> fexp prec emax (Zdigits2 m' + e') = e') /\
  (m' = 0 -> e' = emin prec emax).
Proof.
  intros Hm He. cbv zeta.
  destruct (shr_fexp_spec m e l Hm He) as (n & Hn & -> & -> & E).
  assert (P : 0 < 2 ^ n) by (apply Z.pow_pos_nonneg; lia).
  split; [apply Z.div_pos; lia|]. split.
  - intros Hq. rewrite Zdigits2_shift by assumption.
    replace (Zdigits2 m - n + (e + n)) with (Zdigits2 m + e) by lia.
    now symmetry.
  - intros Hz. rewrite E.
    destruct (Z.eq_dec m 0) as [->|N].
    + simpl Zdigits2 in *. unfold fexp in *. unfold prec in *. lia.
    + pose proof (Zdigits2_bounds m ltac:(lia)) as [L _].
      assert (Hd : Zdigits2 m <= n).
      { destruct (Z.leb_spec (Zdigits2 m) n) as [|G]; [assumption|].
        assert (2 ^ n <= 2 ^ (Zdigits2 m - 1))
          by (apply Z.pow_le_mono_r; lia).
        assert (1 <= m / 2 ^ n) by (apply Z.div_le_lower_bound; lia).
        lia. }
      unfold fexp in *. unfold prec in *. lia.
Qed.

Lemma binary_round_aux_valid (sx : bool) (mx ex : Z) (lx : location) :
  0 <= mx -> ex <= fexp prec emax (Zdigits2 mx + ex) ->
  valid_binary prec emax (binary_round_aux prec emax sx mx ex lx) = true.
Proof.
  intros Hm He. unfold binary_round_aux.
  pose proof (shr_fexp_canonical mx ex lx Hm He) as (H0 & Hc & Hz).
  destruct (shr_fexp prec emax mx ex lx) as [mrs1 e1]. cbn [fst snd] in *.
  set (m1 := shr_m mrs1) in *.
  pose proof (round_nearest_even_range m1 (loc_of_shr_record mrs1)) as R.
  set (m1' := round_nearest_even m1 (loc_of_shr_record mrs1)) in *.
  assert (He1 : e1 <= fexp prec emax (Zdigits2 m1' + e1)).
  { destruct (Z.eq_dec m1 0) as [Z|N].
    - rewrite (Hz Z). apply fexp_ge_emin.
    - rewrite <- (Hc ltac:(lia)) at 1. apply fexp_mono.
      pose proof (Zdigits2_mono m1 m1' ltac:(lia)). lia. }
  pose proof (shr_fexp_canonical m1' e1 loc_Exact ltac:(lia) He1)
    as (H0' & Hc' & _).
  destruct (shr_fexp prec emax m1' e1 loc_Exact) as [mrs2 e2].
  cbn [fst snd] in *.
  destruct (shr_m mrs2) as [|m2|m2] eqn:E2; [reflexivity| |reflexivity].
  destruct (Z.leb_spec e2 (emax - prec)) as [L|G]; [|reflexivity].
  cbn [valid_binary]. unfold bounded, canonical_mantissa.
  specialize (Hc' ltac:(lia)). cbn [Zdigits2] in Hc'.
  rewrite Hc', Z.eqb_refl. apply Z.leb_le in L. now rewrite L.
Qed.

Lemma SFdiv_core_fine (a b : positive) :
  let '(q, e', _) := SFdiv_core_binary prec emax (Zpos a) 0 (Zpos b) 0 in
  0 <= q /\ e' <= fexp prec emax (Zdigits2 q + e').
Proof.
  unfold SFdiv_core_binary. cbn [Zdigits2].
  pose proof (digits2_bounds a) as [La Ua].
  pose proof (digits2_bounds b) as [Lb Ub].
  set (d1 := Zpos (digits2_pos a)) in *.
  set (d2 := Zpos (digits2_pos b)) in *.
  rewrite !Z.add_0_r, Z.sub_diag.
  set (e' := Z.min (fexp prec emax (d1 - d2)) 0).
  assert (He' : e' <= 0 /\ e' <= fexp prec emax (d1 - d2)) by (unfold e'; lia).
  set (m' := match 0 - e' with
             | Z0 => Zpos a
             | Zpos _ => Z.shiftl (Zpos a) (0 - e')
             | Zneg _ => 0
             end).
  assert (Hm' : m' = Zpos a * 2 ^ (0 - e')).
  { unfold m'. destruct (0 - e') as [|p|p] eqn:Es; [| |lia].
    - simpl. lia.
    - now rewrite Z.shiftl_mul_pow2 by lia. }
  assert (Hq : Z.div_eucl m' (Zpos b) = (m' / Zpos b, m' mod Zpos b)).
  { unfold Z.div, Z.modulo. now destruct (Z.div_eucl m' (Zpos b)). }
  rewrite Hq.
  assert (P : 0 < 2 ^ (0 - e')) by (apply Z.pow_pos_nonneg; lia).
  assert (Q0 : 0 <= m' / Zpos b) by (apply Z.div_pos; lia).
  split; [assumption|].
  eapply Z.le_trans; [apply He'|]. apply fexp_mono.
  set (t := d1 - 1 + (0 - e') - d2).
  assert (Ht : t + 1 <= Zdigits2 (m' / Zpos b)).
  { destruct (Z.ltb_spec t 0) as [N|G].
    - pose proof (Zdigits2_nonneg (m' / Zpos b)). lia.
    - assert (X : 2 ^ t <= m' / Zpos b).
      { apply Z.div_le_lower_bound; [lia|].
        assert (Y : 2 ^ t * 2 ^ d2 = 2 ^ (d1 - 1) * 2 ^ (0 - e')).
        { rewrite <- !Z.pow_add_r by (unfold d1, d2 in *; lia).
          f_equal. unfold t. lia. }
        assert (0 < 2 ^ t) by (apply Z.pow_pos_nonneg; lia).
        rewrite Hm'. nia. }
      assert (0 < m' / Zpos b).
      { assert (0 < 2 ^ t) by (apply Z.pow_pos_nonneg; lia). lia. }
      pose proof (Zdigits2_bounds _ H) as [_ U].
      assert (Z' : 2 ^ t < 2 ^ Zdigits2 (m' / Zpos b)) by lia.
      apply pow2_lt_inv in Z'; [lia | apply Zdigits2_nonneg]. }
  unfold t in Ht. lia.
Qed.

Lemma of_ratio_valid (neg : bool) (a b : positive) :
  valid_binary prec emax (of_ratio neg a b) = true.
Proof.
  unfold of_ratio, SFdiv. pose proof (SFdiv_core_fine a b) as H.
  destruct (SFdiv_core_binary prec emax (Zpos a) 0 (Zpos b) 0) as [[q e'] l].
  destruct H as [H0 H1]. now apply binary_round_aux_valid.
Qed.

Lemma of_decimal_valid (neg : bool) (m e10 : Z) :
  valid_binary prec emax (of_decimal neg m e10) = true.
Proof.
  unfold of_decimal. destruct m; try reflexivity.
  destruct (0 <=? e10); apply of_ratio_valid.
Qed.

(** [parseFloat] returns binary64 values only. *)
Lemma parseFloat_valid (input : string) :
  valid_binary prec emax (parseFloat input) = true.
Proof.
  unfold parseFloat. destruct (scan_sign (trim_start input)) as [neg s].
  unfold parse_unsigned. destruct (prefix "Infinity" s); [reflexivity|].
  destruct (scan_digits s 0 0) as [[ip ni] s2].
  destruct (scan_fraction s2 ip) as [[m nf] s3].
  destruct (ni + nf =? 0); [reflexivity | apply of_decimal_valid].
Qed.

(** ** Rounding to significant digits *)

Lemma pow10_pos (k : Z) : 0 <= k -> 0 < 10 ^ k.
Proof. intros H. apply Z.pow_pos_nonneg; lia. Qed.

Lemma digits_aux_strlen (fuel : nat) (n : Z) :
  1 <= n < 10 ^ Z.of_nat fuel ->
  10 ^ (strlen (digits_aux fuel n "") - 1) <= n
  < 10 ^ strlen (digits_aux fuel n "").
Proof.
  revert n. induction fuel as [|fuel IH]; intros n H.
  - simpl in H. lia.
  - cbn [digits_aux]. destruct (Z.ltb_spec n 10) as [L|G].
    + change (strlen (String (digit_char (n mod 10)) "")) with 1. simpl. lia.
    + rewrite digits_aux_app, strlen_app.
      change (strlen (String (digit_char (n mod 10)) "")) with 1.
      assert (Hq : 1 <= n / 10 < 10 ^ Z.of_nat fuel).
      { rewrite Nat2Z.inj_succ, Z.pow_succ_r in H by lia.
        split; [apply Z.div_le_lower_bound; lia|].
        apply Z.div_lt_upper_bound; lia. }
      specialize (IH _ Hq).
      set (l := strlen (digits_aux fuel (n / 10) "")) in *.
      assert (1 <= l).
      { destruct (Z.leb_spec 1 l) as [|N]; [assumption|].
        assert (10 ^ l <= 10 ^ 0).
        { apply Z.pow_le_mono_r; [lia|].
          pose proof (strlen_nonneg (digits_aux fuel (n / 10) "")).
          fold l in H0. lia. }
        simpl in H0. lia. }
      replace (l + 1 - 1) with (Z.succ (l - 1)) by lia.
      replace (l + 1) with (Z.succ l) by lia.
      rewrite !Z.pow_succ_r by lia.
      pose proof (Z.div_mod n 10 ltac:(lia)).
      pose proof (Z.mod_pos_bound n 10 ltac:(lia)). lia.
Qed.

(** [ndigits n] is the number of decimal digits of [n]. *)
Lemma ndigits_bounds (n : Z) :
  1 <= n -> 10 ^ (ndigits n - 1) <= n < 10 ^ ndigits n.
Proof.
  intros H. apply digits_aux_strlen.
  pose proof (decimal_digits_fuel n ltac:(lia)). lia.
Qed.

Lemma ndigits_unique (n p : Z) :
  10 ^ (p - 1) <= n < 10 ^ p -> 1 <= p -> ndigits n = p.
Proof.
  intros [L U] Hp.
  assert (Hn : 1 <= n) by (pose proof (pow10_pos (p - 1)); lia).
  pose proof (ndigits_bounds n Hn) as [L' U'].
  pose proof (ndigits_pos n) as P.
  destruct (Z.lt_trichotomy (ndigits n) p) as [C|[C|C]]; [|assumption|].
  - assert (10 ^ ndigits n <= 10 ^ (p - 1))
      by (apply Z.pow_le_mono_r; lia). lia.
  - assert (10 ^ p <= 10 ^ (ndigits n - 1))
      by (apply Z.pow_le_mono_r; lia). lia.
Qed.

Lemma decimal_exponent_decade (num den : Z) :
  0 < num -> 0 < den -> in_decade num den (decimal_exponent num den).
Proof.
  intros Hn Hd. unfold decimal_exponent, in_decade.
  destruct (Z.leb_spec den num) as [L|G].
  - assert (Q : 1 <= num / den) by (apply Z.div_le_lower_bound; lia).
    pose proof (ndigits_bounds _ Q) as [B1 B2].
    pose proof (ndigits_pos (num / den)) as P.
    destruct (Z.leb_spec 1 (ndigits (num / den))); [|lia].
    pose proof (Z.div_mod num den ltac:(lia)).
    pose proof (Z.mod_pos_bound num den ltac:(lia)). nia.
  - assert (Q : 1 <= den / num) by (apply Z.div_le_lower_bound; lia).
    pose proof (ndigits_bounds _ Q) as [B1 B2].
    pose proof (ndigits_pos (den / num)) as P.
    set (d := ndigits (den / num)) in *.
    pose proof (Z.div_mod den num ltac:(lia)).
    pose proof (Z.mod_pos_bound den num ltac:(lia)).
    destruct (Z.leb_spec den (num * 10 ^ (d - 1))) as [A|A].
    + destruct (Z.leb_spec 1 (2 - d)).
      * assert (d = 1) by lia. replace (2 - d) with 1 by lia.
        replace (d - 1) with 0 in A by lia. simpl in *. lia.
      * replace (1 - (2 - d)) with (d - 1) by lia.
        replace (- (2 - d)) with (d - 2) by lia.
        split; [assumption|].
        replace (d - 1) with (Z.succ (d - 2)) in B1 by lia.
        rewrite Z.pow_succ_r in B1 by lia.
        pose proof (pow10_pos (d - 2) ltac:(lia)). nia.
    + destruct (Z.leb_spec 1 (1 - d)); [lia|].
      replace (1 - (1 - d)) with d by lia.
      replace (- (1 - d)) with (d - 1) by lia.
      split; [nia | lia].
Qed.

(** Scaled to [k] digits before the point, [num / den] lies between
    [10 ^ (k - 1)] and [10 ^ k]. *)
Lemma scale10_decade (num den n0 k : Z) :
  0 < num -> 0 < den -> in_decade num den n0 -> 1 <= k ->
  let '(tn, td) := scale10 num den (k - n0) in
  0 < td /\ 10 ^ (k - 1) * td <= tn < 10 ^ k * td.
Proof.
  intros Hn Hd D Hk. unfold scale10, in_decade in *.
  destruct (Z.leb_spec 0 (k - n0)) as [A|A].
  - split; [assumption|].
    pose proof (pow10_pos (k - n0) A) as P.
    destruct (Z.leb_spec 1 n0) as [B|B].
    + assert (E1 : 10 ^ (k - 1) = 10 ^ (n0 - 1) * 10 ^ (k - n0)).
      { rewrite <- Z.pow_add_r by lia. f_equal. lia. }
      assert (E2 : 10 ^ k = 10 ^ n0 * 10 ^ (k - n0)).
      { rewrite <- Z.pow_add_r by lia. f_equal. lia. }
      rewrite E1, E2. nia.
    + destruct D as [D1 D2].
      assert (E1 : 10 ^ (k - n0) = 10 ^ (1 - n0) * 10 ^ (k - 1)).
      { rewrite <- Z.pow_add_r by lia. f_equal. lia. }
      assert (E2 : 10 ^ (k - n0) = 10 ^ (- n0) * 10 ^ k).
      { rewrite <- Z.pow_add_r by lia. f_equal. lia. }
      pose proof (pow10_pos (k - 1) ltac:(lia)).
      pose proof (pow10_pos k ltac:(lia)).
      split; [rewrite E1; nia | rewrite E2; nia].
  - destruct (Z.leb_spec 1 n0) as [B|B]; [|lia].
    pose proof (pow10_pos (- (k - n0)) ltac:(lia)) as P.
    split; [nia|].
    assert (E1 : 10 ^ (n0 - 1) = 10 ^ (k - 1) * 10 ^ (- (k - n0))).
    { rewrite <- Z.pow_add_r by lia. f_equal. lia. }
    assert (E2 : 10 ^ n0 = 10 ^ k * 10 ^ (- (k - n0))).
    { rewrite <- Z.pow_add_r by lia. f_equal. lia. }
    rewrite E1, E2 in D. nia.
Qed.

Lemma exact_ratio_pos (m : positive) (e : Z) :
  0 < fst (exact_ratio m e) /\ 0 < snd (exact_ratio m e).
Proof.
  unfold exact_ratio. destruct (0 <=? e) eqn:E; cbn [fst snd].
  - apply Z.leb_le in E. split; [|lia].
    apply Z.mul_pos_pos; [lia | apply Z.pow_pos_nonneg; lia].
  - apply Z.leb_gt in E. split; [lia | apply Z.pow_pos_nonneg; lia].
Qed.

Lemma scale10_step (num den k : Z) :
  let '(tn, td) := scale10 num den k in
  let '(tn', td') := scale10 num den (k - 1) in
  (tn = 10 * tn' /\ td = td') \/ (tn = tn' /\ td' = 10 * td).
Proof.
  unfold scale10.
  destruct (Z.leb_spec 0 k) as [A|A]; destruct (Z.leb_spec 0 (k - 1)) as [B|B];
    try lia.
  - left. split; [|reflexivity].
    replace k with (Z.succ (k - 1)) at 1 by lia.
    rewrite Z.pow_succ_r by lia. ring.
  - right. assert (k = 0) by lia. subst k.
    change (- (0 - 1)) with 1. rewrite Z.pow_0_r, Z.pow_1_r. lia.
  - right. split; [reflexivity|].
    replace (- (k - 1)) with (Z.succ (- k)) by lia.
    rewrite Z.pow_succ_r by lia. ring.
Qed.

(** The digits [toPrecision] writes are the [p]-digit decimal nearest to
    the value. *)
Lemma precision_digits_nearest (m : positive) (e p : Z) :
  1 <= p ->
  let '(n, e10) := precision_digits m e p in
  10 ^ (p - 1) <= n < 10 ^ p /\
  nearest_decimal (fst (exact_ratio m e)) (snd (exact_ratio m e)) n e10 p.
Proof.
  intros Hp. unfold precision_digits, nearest_decimal.
  destruct (exact_ratio_pos m e) as [Hn Hd].
  destruct (exact_ratio m e) as [num den]. cbn [fst snd] in *. cbv zeta.
  pose proof (decimal_exponent_decade num den Hn Hd) as D.
  set (n0 := decimal_exponent num den) in *.
  pose proof (scale10_decade num den n0 p Hn Hd D Hp) as S.
  replace (p - 1 - (n0 - 1)) with (p - n0) by lia.
  pose proof (scale10_step num den (p - n0)) as St.
  destruct (scale10 num den (p - n0)) as [tn td] eqn:Es.
  destruct S as (Htd & L & U).
  set (n := (2 * tn + td) / (2 * td)).
  pose proof (Z.div_mod (2 * tn + td) (2 * td) ltac:(lia)) as DM.
  pose proof (Z.mod_pos_bound (2 * tn + td) (2 * td) ltac:(lia)) as MB.
  fold n in DM.
  pose proof (pow10_pos (p - 1) ltac:(lia)) as P1.
  assert (E : 10 ^ p = 10 * 10 ^ (p - 1)).
  { replace p with (Z.succ (p - 1)) at 1 by lia.
    now rewrite Z.pow_succ_r by lia. }
  assert (Ln : 10 ^ (p - 1) <= n) by (apply Z.div_le_lower_bound; nia).
  assert (Un : n <= 10 ^ p).
  { assert (n < 10 ^ p + 1); [|lia].
    apply Z.div_lt_upper_bound; nia. }
  destruct (Z.eqb_spec n (10 ^ p)) as [C|C].
  - split; [lia|].
    replace (p - 1 - (n0 - 1 + 1)) with (p - n0 - 1) by lia.
    destruct (scale10 num den (p - n0 - 1)) as [tn' td'].
    destruct St as [[-> ->]|[-> ->]]; split; nia.
  - split; [lia|].
    replace (p - 1 - (n0 - 1)) with (p - n0) by lia. rewrite Es.
    split; [assumption | nia].
Qed.

(** The text that [toPrecision] writes for the [p] digits [n] and the
    exponent [e] reads back as [n * 10 ^ (e - p + 1)]. *)
Lemma parseFloat_toPrecision_digits (n e p : Z) :
  1 <= p -> 10 ^ (p - 1) <= n < 10 ^ p ->
  parseFloat (toPrecision_digits (decimal_digits n) e p)
  = of_decimal false n (e - p + 1) /\
  parseFloat ("-" ++ toPrecision_digits (decimal_digits n) e p)
  = of_decimal true n (e - p + 1).
Proof.
  intros Hp Hn.
  assert (Hpos : 0 < n) by (pose proof (pow10_pos (p - 1)); lia).
  pose proof (decimal_digits_all n ltac:(lia)) as Hd.
  pose proof (decimal_digits_value n ltac:(lia)) as Hv.
  pose proof (ndigits_unique n p Hn Hp) as Hk.
  rewrite ndigits_strlen in Hk.
  unfold toPrecision_digits.
  set (ds := decimal_digits n) in *.
  destruct (take_drop_digits 1 ds Hd) as [Ht1 Hd1].
  destruct (take_drop_digits (e + 1) ds Hd) as [Hte Hde].
  assert (L1 : strlen (string_take 1 ds) = 1) by (apply take_strlen; lia).
  destruct ((e <? -6) || (p <=? e)) eqn:C1.
  { destruct (Z.eqb_spec p 1) as [C|C];
      apply (parseFloat_signed _ (fun neg => of_decimal neg n (e - p + 1))).
    - intros neg.
      rewrite (parse_integer_form neg ds _ e);
        try assumption; try constructor; try lia.
      rewrite Hv. f_equal. lia.
    - exists ds, (exponent_suffix e). repeat split; [assumption | lia].
    - intros neg. rewrite !append_assoc.
      rewrite (parse_fraction_form neg _ _ _ e);
        try assumption; try constructor; try lia.
      rewrite take_drop_value, Hv, drop_strlen by lia. f_equal. lia.
    - exists (string_take 1 ds),
        ("." ++ string_drop 1 ds ++ exponent_suffix e).
      rewrite !append_assoc. repeat split; [assumption | lia]. }
  apply orb_false_iff in C1. destruct C1 as [C1 C1'].
  apply Z.ltb_ge in C1. apply Z.leb_gt in C1'.
  destruct (Z.eqb_spec e (p - 1)) as [C2|C2].
  { apply (parseFloat_signed _ (fun neg => of_decimal neg n (e - p + 1))).
    - intros neg. rewrite <- (append_empty_r ds).
      rewrite (parse_integer_form neg ds "" 0);
        try assumption; try constructor; try lia.
      rewrite Hv. f_equal. lia.
    - exists ds, "". rewrite append_empty_r.
      repeat split; [assumption | lia]. }
  destruct (Z.leb_spec 0 e) as [C3|C3].
  { assert (Le : strlen (string_take (e + 1) ds) = e + 1)
      by (apply take_strlen; lia).
    apply (parseFloat_signed _ (fun neg => of_decimal neg n (e - p + 1))).
    - intros neg. rewrite <- (append_empty_r (string_drop (e + 1) ds)).
      rewrite (parse_fraction_form neg _ _ "" 0);
        try assumption; try constructor; try lia.
      rewrite take_drop_value, Hv, drop_strlen by lia. f_equal. lia.
    - exists (string_take (e + 1) ds), ("." ++ string_drop (e + 1) ds).
      repeat split; [assumption | lia]. }
  apply (parseFloat_signed _ (fun neg => of_decimal neg n (e - p + 1))).
  - intros neg.
    change ("0." ++ zeros (- (e + 1)) ++ ds)
      with ("0" ++ "." ++ zeros (- (e + 1)) ++ ds).
    rewrite <- (append_empty_r ds) at 1.
    rewrite <- (append_assoc (zeros (- (e + 1))) ds "").
    rewrite (parse_fraction_form neg "0" (zeros (- (e + 1)) ++ ds) "" 0);
      try constructor; try reflexivity.
    + rewrite !shift_in_app. change (shift_in "0" 0) with 0.
      rewrite zeros_value, Z.mul_0_l, Hv by lia.
      rewrite strlen_app, zeros_strlen by lia. f_equal. lia.
    + now rewrite all_digits_app, Hd, zeros_all.
  - exists "0", ("." ++ zeros (- (e + 1)) ++ ds). repeat split. reflexivity.
Qed.

(** [toPrecision] followed by [parseFloat] on a finite non-zero Number: the
    Number nearest to the nearest [p]-digit decimal. *)
Lemma round_to_precision_finite (sg : bool) (m : positive) (e p : Z) :
  1 <= p ->
  parseFloat (Number_toPrecision (S754_finite sg m e) p)
  = of_decimal sg (fst (precision_digits m e p))
      (snd (precision_digits m e p) - p + 1).
Proof.
  intros Hp. unfold Number_toPrecision.
  pose proof (precision_digits_nearest m e p Hp) as H.
  destruct (precision_digits m e p) as [n e10]. cbn [fst snd].
  destruct H as [Hn _].
  destruct (parseFloat_toPrecision_digits n e10 p Hp Hn) as [P N].
  destruct sg; [exact N | exact P].
Qed.

(** ** What rounding does to a fraction *)

Lemma loc_of_shr_record_of_loc (m : Z) (l : location) :
  loc_of_shr_record (shr_record_of_loc m l) = l.
Proof. destruct l as [|[| |]]; reflexivity. Qed.

Lemma represents_shr_1 (mrs : shr_record) (N D : Z) :
  0 <= shr_m mrs -> represents mrs N D -> represents (shr_1 mrs) N (2 * D).
Proof.
  intros Hm (HD & Hr & Hl).
  pose proof (shr_1_m mrs Hm) as Hq.
  assert (Hbit : shr_r (shr_1 mrs) = Z.odd (shr_m mrs) /\
                 shr_s (shr_1 mrs) = (shr_r mrs || shr_s mrs)%bool).
  { destruct mrs as [m r s]. simpl in Hm |- *.
    destruct m as [|[p|p|]|p]; try lia; split; reflexivity. }
  destruct Hbit as [Hb Hs].
  pose proof (Z.div_mod (shr_m mrs) 2 ltac:(lia)) as DM.
  pose proof (Zmod_odd (shr_m mrs)) as MO.
  set (m := shr_m mrs) in *. set (rho := N - m * D) in *.
  assert (Hs' : shr_s (shr_1 mrs) = negb (rho =? 0)).
  { rewrite Hs. destruct mrs as [m0 r s]. simpl in Hl |- *.
    destruct (Z.eqb_spec rho 0); destruct r, s; simpl in *;
      try reflexivity; discriminate. }
  unfold represents. rewrite Hq. fold m.
  split; [lia|].
  destruct (shr_1 mrs) as [m' r' s'].
  cbn [shr_r shr_s loc_of_shr_record] in Hb, Hs' |- *. subst r' s'.
  destruct (Z.odd m) eqn:Hodd.
  - assert (E : N - m / 2 * (2 * D) = rho + D) by (unfold rho; nia).
    rewrite E. split; [lia|].
    destruct (Z.eqb_spec (rho + D) 0); [lia|].
    destruct (Z.eqb_spec rho 0) as [Hz|NZ]; cbn [negb].
    + rewrite Hz, Z.add_0_l, Z.compare_refl. reflexivity.
    + replace (2 * (rho + D) ?= 2 * D) with Gt; [reflexivity|].
      symmetry. apply Z.compare_gt_iff. lia.
  - assert (E : N - m / 2 * (2 * D) = rho) by (unfold rho; nia).
    rewrite E. split; [lia|].
    destruct (Z.eqb_spec rho 0) as [Hz|NZ]; cbn [negb]; [reflexivity|].
    replace (2 * rho ?= 2 * D) with Lt; [reflexivity|].
    symmetry. apply Z.compare_lt_iff. lia.
Qed.

Lemma shr_iter_nonneg (k : nat) (mrs : shr_record) :
  0 <= shr_m mrs -> 0 <= shr_m (Nat.iter k shr_1 mrs).
Proof.
  intros H. rewrite shr_iter_m by assumption.
  apply Z.div_pos; [assumption | apply Z.pow_pos_nonneg; lia].
Qed.

Lemma represents_iter (k : nat) (mrs : shr_record) (N D : Z) :
  0 <= shr_m mrs -> represents mrs N D ->
  represents (Nat.iter k shr_1 mrs) N (D * 2 ^ Z.of_nat k).
Proof.
  intros Hm H. induction k as [|k IH].
  - simpl. now rewrite Z.mul_1_r.
  - rewrite Nat.iter_succ, Nat2Z.inj_succ, Z.pow_succ_r by lia.
    replace (D * (2 * 2 ^ Z.of_nat k)) with (2 * (D * 2 ^ Z.of_nat k)) by lia.
    apply represents_shr_1; [now apply shr_iter_nonneg | exact IH].
Qed.

(** The record after [shr_fexp] represents the fraction at the new scale. *)
Lemma represents_shr_fexp (m e : Z) (l : location) (N D : Z) :
  0 <= m -> e <= fexp prec emax (Zdigits2 m + e) ->
  represents (shr_record_of_loc m l) N D ->
  represents (fst (shr_fexp prec emax m e l)) N
    (D * 2 ^ (snd (shr_fexp prec emax m e l) - e)).
Proof.
  intros Hm He H. unfold shr_fexp, shr.
  set (n := fexp prec emax (Zdigits2 m + e) - e) in *.
  destruct n as [|p|p] eqn:En; try lia; cbn [fst snd].
  - now rewrite Z.sub_diag, Z.mul_1_r.
  - rewrite iter_pos_nat. replace (e + Zpos p - e) with (Zpos p) by lia.
    rewrite <- (positive_nat_Z p).
    apply represents_iter; [now rewrite shr_record_of_loc_m | exact H].
Qed.

Lemma round_nearest_even_nearest (mrs : shr_record) (N D : Z) :
  represents mrs N D ->
  nearest_even (round_nearest_even (shr_m mrs) (loc_of_shr_record mrs)) N D.
Proof.
  intros (HD & Hr & Hl). rewrite Hl. unfold nearest_even, round_nearest_even.
  set (m := shr_m mrs) in *. set (rho := N - m * D) in *.
  destruct (Z.eqb_spec rho 0) as [Hz|NZ].
  - fold rho. split; [lia|]. intros A. lia.
  - destruct (Z.compare_spec (2 * rho) D) as [C|C|C].
    + destruct (Z.even m) eqn:Ev.
      * fold rho. split; [lia | intros _; exact Ev].
      * replace (N - (m + 1) * D) with (rho - D) by (unfold rho; lia).
        split; [lia|]. intros _.
        rewrite Z.even_add, Ev. reflexivity.
    + fold rho. split; [lia|]. intros A. lia.
    + replace (N - (m + 1) * D) with (rho - D) by (unfold rho; lia).
      split; [lia|]. intros A. lia.
Qed.

Lemma new_location_spec (b r : Z) :
  new_location b r
  = if r =? 0 then loc_Exact else loc_Inexact (2 * r ?= b).
Proof.
  unfold new_location, new_location_even, new_location_odd.
  destruct (Z.even b) eqn:Ev; [reflexivity|].
  destruct (r =? 0); [reflexivity|]. f_equal.
  assert (Od : Z.odd b = true) by (now rewrite <- Z.negb_even, Ev).
  apply Z.odd_spec in Od. destruct Od as [c Hc].
  destruct (Z.compare_spec (2 * r + 1) b) as [C|C|C];
    symmetry; [apply Z.compare_lt_iff | apply Z.compare_lt_iff
              | apply Z.compare_gt_iff]; lia.
Qed.

Lemma pseudo_digits (m e : Z) :
  pseudo m e -> Zdigits2 m <= prec /\ (emin prec emax < e -> Zdigits2 m = prec).
Proof.
  intros (H0 & Hc & Hz). destruct (Z.eq_dec m 0) as [->|N].
  - specialize (Hz eq_refl). split; [cbn; unfold prec; lia | lia].
  - specialize (Hc ltac:(lia)). unfold fexp in Hc. split; lia.
Qed.

Lemma binary_round_aux_char (sx : bool) (q e' : Z) (l : location) (N D : Z) :
  0 <= q -> e' <= fexp prec emax (Zdigits2 q + e') ->
  represents (shr_record_of_loc q l) N D ->
  exists m1 M E,
    e' <= E /\ pseudo m1 E /\
    m1 * (D * 2 ^ (E - e')) <= N < (m1 + 1) * (D * 2 ^ (E - e')) /\
    (M = m1 \/ M = m1 + 1) /\
    nearest_even M N (D * 2 ^ (E - e')) /\
    ((pseudo M E /\ binary_round_aux prec emax sx q e' l = pseudo_number sx M E)
     \/ (M = 2 ^ prec /\ M = m1 + 1 /\
         binary_round_aux prec emax sx q e' l
         = pseudo_number sx (2 ^ (prec - 1)) (E + 1))).
Proof.
  intros Hq He Hrep. unfold binary_round_aux.
  pose proof (shr_fexp_canonical q e' l Hq He) as (H0 & Hc & Hz).
  pose proof (represents_shr_fexp q e' l N D Hq He Hrep) as Hrep1.
  destruct (shr_fexp_spec q e' l Hq He) as (n1 & Hn1 & _ & He1 & _).
  destruct (shr_fexp prec emax q e' l) as [mrs1 e1]. cbn [fst snd] in *.
  set (m1 := shr_m mrs1) in *.
  pose proof (round_nearest_even_nearest mrs1 N _ Hrep1) as Hne.
  pose proof (round_nearest_even_range m1 (loc_of_shr_record mrs1)) as R.
  fold m1 in Hne.
  set (M := round_nearest_even m1 (loc_of_shr_record mrs1)) in *.
  assert (HM : M = m1 \/ M = m1 + 1).
  { unfold M, round_nearest_even.
    destruct (loc_of_shr_record mrs1) as [|[| |]]; try (now left);
      try (now right). destruct (Z.even m1); [now left | now right]. }
  exists m1, M, e1. split; [lia|]. split; [repeat split; assumption|].
  split.
  { destruct Hrep1 as (HD & Hr & _). fold m1 in Hr. lia. }
  split; [exact HM|]. split; [exact Hne|].
  assert (Hps : pseudo m1 e1) by (repeat split; assumption).
  destruct (pseudo_digits m1 e1 Hps) as [Hd53 Hnorm].
  assert (He1' : e1 <= fexp prec emax (Zdigits2 M + e1)).
  { destruct (Z.eq_dec m1 0) as [Z0|NZ].
    - rewrite (Hz Z0). apply fexp_ge_emin.
    - rewrite <- (Hc ltac:(lia)) at 1. apply fexp_mono.
      pose proof (Zdigits2_mono m1 M ltac:(lia)). lia. }
  destruct (shr_fexp_spec M e1 loc_Exact ltac:(lia) He1')
    as (n2 & Hn2 & Hm2 & He2 & Hf2).
  destruct (shr_fexp prec emax M e1 loc_Exact) as [mrs2 e2].
  cbn [fst snd] in *.
  destruct (Z.eq_dec n2 0) as [Hz2|Hnz2].
  - left. subst n2. rewrite Z.pow_0_r, Z.div_1_r in Hm2.
    rewrite Z.add_0_r in He2, Hf2. subst e2. rewrite Hm2. split.
    + split; [lia|]. split; [intros _; now symmetry|].
      intros HM0. apply Hz. lia.
    + unfold pseudo_number. reflexivity.
  - right.
    assert (Hemin : emin prec emax <= e1).
    { destruct (Z.eq_dec m1 0) as [Z0|NZ]; [rewrite (Hz Z0); lia|].
      rewrite <- (Hc ltac:(lia)). apply fexp_ge_emin. }
    assert (HdM : Zdigits2 M = prec + 1).
    { assert (Zdigits2 M + e1 - prec > e1) by (unfold fexp in Hf2; lia).
      assert (X : Zdigits2 M <= prec + 1).
      { destruct (Z.eq_dec m1 0) as [Z0|NZ].
        - assert (M = 0 \/ M = 1) as [-> | ->] by lia; cbn; unfold prec; lia.
        - pose proof (Zdigits2_bounds m1 ltac:(lia)) as [_ U].
          assert (Y : M < 2 ^ (Zdigits2 m1 + 1)).
          { rewrite Z.pow_add_r by (pose proof (Zdigits2_nonneg m1); lia).
            lia. }
          pose proof (Zdigits2_bounds M ltac:(lia)) as [L _].
          assert (W : 2 ^ (Zdigits2 M - 1) < 2 ^ (Zdigits2 m1 + 1)) by lia.
          apply pow2_lt_inv in W;
            [lia | pose proof (Zdigits2_nonneg m1); lia]. }
      lia. }
    assert (HMpos : 0 < M).
    { destruct (Z.eq_dec M 0) as [Z0|NZ]; [|lia].
      rewrite Z0 in HdM. cbn in HdM. unfold prec in HdM. lia. }
    pose proof (Zdigits2_bounds M HMpos) as [LM UM]. rewrite HdM in LM, UM.
    replace (prec + 1 - 1) with prec in LM by lia.
    assert (Hm1 : m1 < 2 ^ prec).
    { destruct (Z.eq_dec m1 0) as [Z0|NZ].
      - rewrite Z0. apply Z.pow_pos_nonneg; unfold prec; lia.
      - pose proof (Zdigits2_bounds m1 ltac:(lia)) as [_ U].
        apply Z.lt_le_trans with (1 := U).
        apply Z.pow_le_mono_r; lia. }
    assert (EM : M = 2 ^ prec) by lia.
    split; [exact EM|]. split; [lia|].
    assert (En2 : n2 = 1) by (unfold fexp in Hf2; lia).
    subst n2. rewrite Z.pow_1_r in Hm2.
    assert (Hh : shr_m mrs2 = 2 ^ (prec - 1)).
    { rewrite Hm2, EM. reflexivity. }
    rewrite Hh. subst e2. reflexivity.
Qed.

(** The division that [of_ratio] starts with leaves the quotient of
    [a * 2 ^ (- e')] by [b], and the place of the rest. *)
Lemma SFdiv_core_represents (a b : positive) :
  exists q e' l,
    SFdiv_core_binary prec emax (Zpos a) 0 (Zpos b) 0 = (q, e', l) /\
    emin prec emax <= e' <= 0 /\
    represents (shr_record_of_loc q l) (Zpos a * 2 ^ (- e')) (Zpos b).
Proof.
  unfold SFdiv_core_binary. cbn [Zdigits2].
  rewrite !Z.add_0_r, Z.sub_diag.
  set (e' := Z.min (fexp prec emax
                      (Zpos (digits2_pos a) - Zpos (digits2_pos b))) 0).
  assert (He' : emin prec emax <= e' <= 0).
  { pose proof (fexp_ge_emin (Zpos (digits2_pos a) - Zpos (digits2_pos b))).
    unfold e'. unfold emin, prec, emax in *. lia. }
  set (m' := match 0 - e' with
             | Z0 => Zpos a
             | Zpos _ => Z.shiftl (Zpos a) (0 - e')
             | Zneg _ => 0
             end).
  assert (Hm' : m' = Zpos a * 2 ^ (- e')).
  { unfold m'. replace (0 - e') with (- e') by lia.
    destruct (- e') as [|p|p] eqn:Es; [| |lia].
    - simpl. lia.
    - now rewrite Z.shiftl_mul_pow2 by lia. }
  assert (Hq : Z.div_eucl m' (Zpos b) = (m' / Zpos b, m' mod Zpos b)).
  { unfold Z.div, Z.modulo. now destruct (Z.div_eucl m' (Zpos b)). }
  rewrite Hq. eexists _, _, _. split; [reflexivity|]. split; [exact He'|].
  rewrite <- Hm'.
  pose proof (Z.div_mod m' (Zpos b) ltac:(lia)) as DM.
  pose proof (Z.mod_pos_bound m' (Zpos b) ltac:(lia)) as MB.
  assert (E : m' - m' / Zpos b * Zpos b = m' mod Zpos b) by lia.
  unfold represents.
  rewrite shr_record_of_loc_m, loc_of_shr_record_of_loc, E.
  split; [lia|]. split; [lia|]. apply new_location_spec.
Qed.

(** ** The interval of the fractions that round to a Number *)

Lemma unit_scale_eq : Zpos unit_scale = 2 ^ (2 - emin prec emax).
Proof. unfold unit_scale. rewrite Pos2Z.inj_pow. reflexivity. Qed.

#[local] Opaque unit_scale.

Lemma of_ratio_pseudo (sx : bool) (a b : positive) :
  exists m e, pseudo m e /\ rounds_to m e (Zpos a # b) /\
    of_ratio sx a b = pseudo_number sx m e.
Proof.
  destruct (SFdiv_core_represents a b) as (q & e' & l & Hdiv & He' & Hrep).
  pose proof (SFdiv_core_fine a b) as Hfine. rewrite Hdiv in Hfine.
  destruct Hfine as [Hq Hfe].
  destruct (binary_round_aux_char sx q e' l _ _ Hq Hfe Hrep)
    as (m1 & M & E & HE & Hps1 & Hm1 & HM & (Hn & Hpar) & Hres).
  unfold of_ratio, SFdiv. rewrite Hdiv, xorb_false_r.
  assert (Hemin : emin prec emax <= E).
  { destruct Hps1 as (H0 & Hc & Hz).
    destruct (Z.eq_dec m1 0) as [Z0|NZ]; [rewrite (Hz Z0); lia|].
    rewrite <- (Hc ltac:(lia)). apply fexp_ge_emin. }
  set (P := 2 ^ (E - emin prec emax)).
  set (X := Zpos a * Zpos unit_scale).
  set (Y := P * Zpos b).
  set (c := 2 ^ (e' - emin prec emax)).
  set (D' := Zpos b * 2 ^ (E - e')) in *.
  set (N := Zpos a * 2 ^ (- e')) in *.
  assert (Pc : 0 < c) by (apply Z.pow_pos_nonneg; lia).
  assert (PP : 0 < P) by (apply Z.pow_pos_nonneg; lia).
  assert (PY : 0 < Y) by (unfold Y; lia).
  assert (EX : X = 4 * (N * c)).
  { unfold X, N, c. rewrite unit_scale_eq.
    replace (2 - emin prec emax) with (2 + (- e' + (e' - emin prec emax)))
      by lia.
    rewrite !Z.pow_add_r by lia. change (2 ^ 2) with 4. ring. }
  assert (EY : Y = D' * c).
  { unfold Y, P, D', c.
    replace (E - emin prec emax) with ((E - e') + (e' - emin prec emax))
      by lia.
    rewrite Z.pow_add_r by lia. ring. }
  assert (B1 : (4 * M - 2) * Y <= X <= (4 * M + 2) * Y).
  { rewrite EX, EY. nia. }
  assert (B2 : 4 * m1 * Y <= X < 4 * (m1 + 1) * Y).
  { rewrite EX, EY. nia. }
  assert (T1 : X = (4 * M - 2) * Y \/ X = (4 * M + 2) * Y ->
               Z.even M = true).
  { intros Ht. apply Hpar. rewrite EX, EY in Ht. nia. }
  destruct Hres as [[HpsM ->] | (EM & EM1 & ->)].
  - exists M, E. split; [exact HpsM|]. split; [|reflexivity].
    unfold rounds_to, lower, upper, Lz, Uz, Qle, Qeq. cbn [Qnum Qden].
    fold P X. destruct (below_power M E) eqn:Hbp.
    + apply andb_prop in Hbp. destruct Hbp as [Hb1 Hb2].
      apply Z.eqb_eq in Hb1. apply Z.ltb_lt in Hb2.
      destruct (pseudo_digits m1 E Hps1) as [_ Hd]. specialize (Hd Hb2).
      assert (0 < m1).
      { destruct (Z.eq_dec m1 0) as [Z0|NZ]; [|destruct Hps1; lia].
        rewrite Z0 in Hd. cbn in Hd. unfold prec in Hd. lia. }
      pose proof (Zdigits2_bounds m1 ltac:(lia)) as [L1 _].
      rewrite Hd in L1.
      assert (M = m1) by lia.
      split; [nia|]. intros _. rewrite Hb1. reflexivity.
    + split; [nia|]. intros Ht. apply T1. nia.
  - exists (2 ^ (prec - 1)), (E + 1). split; [|split; [|reflexivity]].
    + split; [apply Z.pow_nonneg; lia|]. split; [|intros A; discriminate A].
      intros _. change (Zdigits2 (2 ^ (prec - 1))) with prec.
      unfold fexp, prec in *. lia.
    + unfold rounds_to, lower, upper, Lz, Uz, Qle, Qeq. cbn [Qnum Qden].
      fold X.
      assert (Hbp : below_power (2 ^ (prec - 1)) (E + 1) = true).
      { unfold below_power. rewrite Z.eqb_refl.
        apply andb_true_intro. split; [reflexivity|]. apply Z.ltb_lt. lia. }
      rewrite Hbp.
      replace (E + 1 - emin prec emax) with (1 + (E - emin prec emax)) by lia.
      rewrite Z.pow_add_r by lia. fold P. change (2 ^ 1) with 2.
      assert (E2 : 2 * 2 ^ (prec - 1) = 2 ^ prec) by reflexivity.
      split; [nia|]. intros _. reflexivity.
Qed.

Lemma pseudo_emin (m e : Z) : pseudo m e -> emin prec emax <= e.
Proof.
  intros (H0 & Hc & Hz).
  destruct (Z.eq_dec m 0) as [Z0|NZ]; [rewrite (Hz Z0); lia|].
  rewrite <- (Hc ltac:(lia)). apply fexp_ge_emin.
Qed.

Lemma pseudo_range (m e : Z) :
  pseudo m e -> 0 <= m < 2 ^ prec /\
  (emin prec emax < e -> 2 ^ (prec - 1) <= m).
Proof.
  intros Hp. destruct (pseudo_digits m e Hp) as [Hd Hn].
  destruct Hp as (H0 & Hc & Hz).
  destruct (Z.eq_dec m 0) as [Z0|NZ].
  - subst m. split; [split; [lia | reflexivity]|].
    intros He. specialize (Hz eq_refl). lia.
  - pose proof (Zdigits2_bounds m ltac:(lia)) as [L U]. split.
    + split; [lia|]. apply Z.lt_le_trans with (1 := U).
      apply Z.pow_le_mono_r; lia.
    + intros He. rewrite (Hn He) in L. exact L.
Qed.

(** The intervals of two Numbers do not overlap, and where they touch the
    mantissas have different parities. *)
Lemma pseudo_order (m1 e1 m2 e2 : Z) :
  pseudo m1 e1 -> pseudo m2 e2 ->
  e1 < e2 \/ (e1 = e2 /\ m1 < m2) ->
  Uz m1 e1 <= Lz m2 e2 /\
  (Uz m1 e1 = Lz m2 e2 -> Z.even m1 = negb (Z.even m2)).
Proof.
  intros Hp1 Hp2 Hlt.
  pose proof (pseudo_emin _ _ Hp1) as E1.
  pose proof (pseudo_emin _ _ Hp2) as E2.
  destruct (pseudo_range _ _ Hp1) as [R1 N1].
  destruct (pseudo_range _ _ Hp2) as [R2 N2].
  unfold Uz, Lz, below_power.
  change (2 ^ prec) with 9007199254740992 in *.
  change (2 ^ (prec - 1)) with 4503599627370496 in *.
  destruct Hlt as [Hlt | [-> Hlt]].
  - specialize (N2 ltac:(lia)).
    replace (e2 - emin prec emax)
      with ((e2 - e1 - 1) + (1 + (e1 - emin prec emax))) by lia.
    rewrite !Z.pow_add_r by lia. change (2 ^ 1) with 2.
    set (P := 2 ^ (e1 - emin prec emax)).
    set (K := 2 ^ (e2 - e1 - 1)).
    assert (PP : 0 < P) by (apply Z.pow_pos_nonneg; lia).
    assert (PK : 0 < K) by (apply Z.pow_pos_nonneg; lia).
    assert (Hlt' : (emin prec emax <? e2) = true) by (apply Z.ltb_lt; lia).
    rewrite Hlt', andb_true_r.
    destruct (Z.eqb_spec m2 4503599627370496) as [Em|Nm].
    + subst m2. split.
      * assert (4 * m1 + 2 <= 18014398509481983 * 2) by lia.
        assert (2 * P <= K * (2 * P)) by nia.
        nia.
      * intros Heq.
        assert (m1 = 9007199254740991) by nia.
        subst m1. reflexivity.
    + split; [nia|]. intros Heq. exfalso. nia.
  - set (P := 2 ^ (e2 - emin prec emax)).
    assert (PP : 0 < P) by (apply Z.pow_pos_nonneg; lia).
    destruct ((m2 =? 4503599627370496) && (emin prec emax <? e2)) eqn:Hb.
    + apply andb_prop in Hb. destruct Hb as [Hb1 Hb2].
      apply Z.eqb_eq in Hb1. apply Z.ltb_lt in Hb2.
      specialize (N1 Hb2). lia.
    + split; [nia|]. intros Heq.
      assert (m2 = m1 + 1) by nia. subst m2.
      rewrite Z.even_add. destruct (Z.even m1); reflexivity.
Qed.

Lemma rounds_to_unique (m1 e1 m2 e2 : Z) (v : Q) :
  pseudo m1 e1 -> pseudo m2 e2 ->
  rounds_to m1 e1 v -> rounds_to m2 e2 v -> m1 = m2 /\ e1 = e2.
Proof.
  assert (Half : forall m1 e1 m2 e2,
            pseudo m1 e1 -> pseudo m2 e2 ->
            rounds_to m1 e1 v -> rounds_to m2 e2 v ->
            e1 < e2 \/ (e1 = e2 /\ m1 < m2) -> False).
  { clear. intros m1 e1 m2 e2 Hp1 Hp2 [[_ U1] T1] [[L2 _] T2] Hlt.
    destruct (pseudo_order _ _ _ _ Hp1 Hp2 Hlt) as [Hle Hpar].
    assert (Q1 : (upper m1 e1 <= lower m2 e2)%Q).
    { unfold upper, lower, Qle. cbn [Qnum Qden].
      apply Z.mul_le_mono_nonneg_r; [lia | exact Hle]. }
    assert (V1 : (v == upper m1 e1)%Q).
    { apply Qle_antisym; [exact U1|].
      apply Qle_trans with (1 := Q1). exact L2. }
    assert (V2 : (v == lower m2 e2)%Q).
    { apply Qle_antisym; [|exact L2].
      apply Qle_trans with (1 := U1). exact Q1. }
    assert (Heq : Uz m1 e1 = Lz m2 e2).
    { rewrite V1 in V2. unfold upper, lower, Qeq in V2. cbn [Qnum Qden] in V2.
      apply Z.mul_reg_r in V2; [exact V2 | lia]. }
    specialize (T1 (or_intror V1)). specialize (T2 (or_introl V2)).
    specialize (Hpar Heq). rewrite T1, T2 in Hpar. discriminate Hpar. }
  intros Hp1 Hp2 H1 H2.
  destruct (Z.lt_trichotomy e1 e2) as [L|[E|G]].
  - exfalso. apply (Half m1 e1 m2 e2); auto.
  - destruct (Z.lt_trichotomy m1 m2) as [L|[E'|G]].
    + exfalso. apply (Half m1 e1 m2 e2); auto.
    + now split.
    + exfalso. apply (Half m2 e2 m1 e1); auto.
  - exfalso. apply (Half m2 e2 m1 e1); auto.
Qed.

Lemma bounded_pseudo (m : positive) (e : Z) :
  bounded prec emax m e = true -> pseudo (Zpos m) e.
Proof.
  intros Hb. destruct (bounded_canonical m e Hb) as [Hc _].
  split; [lia|]. split; [intros _; exact Hc | intros A; discriminate A].
Qed.

(** The fractions that [of_ratio] rounds to a given Number are those of
    its interval. *)
Theorem of_ratio_rounds (sx : bool) (a b m : positive) (e : Z) :
  bounded prec emax m e = true ->
  (of_ratio sx a b = S754_finite sx m e) <-> rounds_to (Zpos m) e (Zpos a # b).
Proof.
  intros Hb. destruct (of_ratio_pseudo sx a b) as (m2 & e2 & Hp & Hr & ->).
  split.
  - intros H. unfold pseudo_number in H. destruct m2 as [|p|p]; try discriminate H.
    destruct (e2 <=? emax - prec); [|discriminate H].
    injection H as -> ->. exact Hr.
  - intros H.
    destruct (rounds_to_unique _ _ _ _ _ Hp (bounded_pseudo m e Hb) Hr H)
      as [-> ->].
    destruct (bounded_canonical m e Hb) as [_ He].
    apply Z.leb_le in He. unfold pseudo_number. now rewrite He.
Qed.

(** ** Decimals as rationals *)

Lemma frac_le (n1 d1 n2 d2 : Z) :
  0 < d1 -> 0 < d2 -> (frac n1 d1 <= frac n2 d2)%Q <-> n1 * d2 <= n2 * d1.
Proof.
  intros H1 H2. unfold frac, Qle. cbn [Qnum Qden].
  now rewrite !Z2Pos.id by assumption.
Qed.

Lemma frac_lt (n1 d1 n2 d2 : Z) :
  0 < d1 -> 0 < d2 -> (frac n1 d1 < frac n2 d2)%Q <-> n1 * d2 < n2 * d1.
Proof.
  intros H1 H2. unfold frac, Qlt. cbn [Qnum Qden].
  now rewrite !Z2Pos.id by assumption.
Qed.

Lemma frac_eq (n1 d1 n2 d2 : Z) :
  0 < d1 -> 0 < d2 -> (frac n1 d1 == frac n2 d2)%Q <-> n1 * d2 = n2 * d1.
Proof.
  intros H1 H2. unfold frac, Qeq. cbn [Qnum Qden].
  now rewrite !Z2Pos.id by assumption.
Qed.

Lemma frac_1 (n : Z) : frac n 1 = inject_Z n.
Proof. reflexivity. Qed.

Lemma frac_mul (n1 d1 n2 d2 : Z) :
  0 < d1 -> 0 < d2 -> (frac n1 d1 * frac n2 d2 == frac (n1 * n2) (d1 * d2))%Q.
Proof.
  intros H1 H2. unfold frac, Qeq, Qmult. cbn [Qnum Qden].
  rewrite Pos2Z.inj_mul, !Z2Pos.id by nia. reflexivity.
Qed.

Lemma pow10_Q_pos (j : Z) : (0 < 10 ^ j)%Q.
Proof. apply Qpower_0_lt. reflexivity. Qed.

Lemma pow10_Q_cancel (c : Z) : (10 ^ c * 10 ^ (- c) == 1)%Q.
Proof.
  rewrite <- Qpower_plus by discriminate.
  now rewrite Z.add_opp_diag_r.
Qed.

Lemma pow10_Q_nonneg (k : Z) : 0 <= k -> (10 ^ k == frac (10 ^ k) 1)%Q.
Proof.
  intros H. rewrite frac_1. symmetry. apply (Zpower_Qpower 10 k H).
Qed.

Lemma pow10_Q_neg (k : Z) : k < 0 -> (10 ^ k == frac 1 (10 ^ (- k)))%Q.
Proof.
  intros H. replace k with (- - k) at 1 by lia.
  rewrite Qpower_opp, <- (Zpower_Qpower 10 (- k)) by lia.
  pose proof (pow10_pos (- k) ltac:(lia)) as P.
  destruct (10 ^ (- k)) as [|p|p] eqn:E; try lia. reflexivity.
Qed.

(** [scale10] multiplies by a power of ten. *)
Lemma frac_scale10 (num den k : Z) :
  0 < den ->
  0 < snd (scale10 num den k) /\
  (frac (fst (scale10 num den k)) (snd (scale10 num den k))
   == frac num den * 10 ^ k)%Q.
Proof.
  intros Hd. unfold scale10. destruct (Z.leb_spec 0 k) as [A|A]; cbn [fst snd].
  - split; [assumption|].
    rewrite pow10_Q_nonneg, frac_mul by lia.
    apply frac_eq; lia.
  - pose proof (pow10_pos (- k) ltac:(lia)) as P.
    split; [nia|].
    rewrite pow10_Q_neg, frac_mul by lia.
    apply frac_eq; nia.
Qed.

Lemma decimal_frac (s j : Z) :
  (decimal s j
   == frac (fst (scale10 s 1 j)) (snd (scale10 s 1 j)))%Q.
Proof.
  destruct (frac_scale10 s 1 j ltac:(lia)) as [_ E].
  rewrite E, frac_1. reflexivity.
Qed.

Lemma rounds_to_eq (m e : Z) (v w : Q) :
  (v == w)%Q -> rounds_to m e v -> rounds_to m e w.
Proof.
  intros E [[L U] T]. split; [split|].
  - now rewrite <- E.
  - now rewrite <- E.
  - intros H. apply T. now rewrite E.
Qed.

(** The interval of a Number is convex. *)
Lemma rounds_to_between (m e : Z) (u v w : Q) :
  rounds_to m e u -> rounds_to m e w -> (u <= v <= w)%Q -> rounds_to m e v.
Proof.
  intros [[Lu Uu] Tu] [[Lw Uw] Tw] [Huv Hvw]. split; [split|].
  - now apply Qle_trans with u.
  - now apply Qle_trans with w.
  - intros [H|H].
    + apply Tu. left. apply Qle_antisym; [|assumption]. now rewrite <- H.
    + apply Tw. right. apply Qle_antisym; [assumption|]. now rewrite <- H.
Qed.

(** The decimals that [of_decimal] rounds to a given Number are those of
    its interval. *)
Theorem of_decimal_rounds (sx : bool) (s j : Z) (m : positive) (e : Z) :
  0 < s -> bounded prec emax m e = true ->
  (of_decimal sx s j = S754_finite sx m e)
  <-> rounds_to (Zpos m) e (decimal s j).
Proof.
  intros Hs Hb. destruct s as [|p|p]; try lia.
  pose proof (decimal_frac (Zpos p) j) as E.
  unfold of_decimal, scale10 in *.
  destruct (Z.leb_spec 0 j) as [A|A]; cbn [fst snd] in E;
    rewrite of_ratio_rounds by assumption.
  - assert (P : 0 < Zpos p * 10 ^ j)
      by (pose proof (pow10_pos j A); nia).
    assert (E' : (Zpos (Z.to_pos (Zpos p * 10 ^ j)) # 1
                  == decimal (Zpos p) j)%Q).
    { rewrite E, Z2Pos.id by assumption. reflexivity. }
    split; apply rounds_to_eq; [exact E' | now symmetry].
  - assert (E' : (Zpos p # Z.to_pos (10 ^ (- j)) == decimal (Zpos p) j)%Q).
    { rewrite E, Z.mul_1_l. reflexivity. }
    split; apply rounds_to_eq; [exact E' | now symmetry].
Qed.

Lemma exact_value_rounds (m : positive) (e : Z) :
  bounded prec emax m e = true -> rounds_to (Zpos m) e (exact_value m e).
Proof.
  intros Hb. destruct (exact_ratio_pos m e) as [Pn Pd].
  assert (E : (Zpos (Z.to_pos (fst (exact_ratio m e)))
               # Z.to_pos (snd (exact_ratio m e)) == exact_value m e)%Q).
  { unfold exact_value, frac. now rewrite Z2Pos.id by assumption. }
  apply rounds_to_eq with (1 := E).
  apply (of_ratio_rounds false); [assumption|].
  apply of_ratio_exact; [assumption| |]; rewrite !Z2Pos.id by assumption;
    unfold exact_ratio; intros He.
  - apply Z.leb_le in He. rewrite He. cbn [fst snd]. lia.
  - apply Z.leb_gt in He. rewrite He. cbn [fst snd]. lia.
Qed.

Lemma Qscale_le (u w : Q) (c : Z) :
  (u * 10 ^ c <= w)%Q -> (u <= w * 10 ^ (- c))%Q.
Proof.
  intros H.
  apply Qmult_le_compat_r with (z := (10 ^ (- c))%Q) in H;
    [|apply Qlt_le_weak, pow10_Q_pos].
  now rewrite <- Qmult_assoc, pow10_Q_cancel, Qmult_1_r in H.
Qed.

Lemma Qscale_ge (u w : Q) (c : Z) :
  (w <= u * 10 ^ c)%Q -> (w * 10 ^ (- c) <= u)%Q.
Proof.
  intros H.
  apply Qmult_le_compat_r with (z := (10 ^ (- c))%Q) in H;
    [|apply Qlt_le_weak, pow10_Q_pos].
  now rewrite <- Qmult_assoc, pow10_Q_cancel, Qmult_1_r in H.
Qed.

Lemma decimal_shift (s j c : Z) :
  (decimal s (j + c) == decimal s j * 10 ^ c)%Q.
Proof.
  unfold decimal. rewrite Qpower_plus by discriminate.
  now rewrite Qmult_assoc.
Qed.

(** A [k]-digit decimal at any exponent that is not above [tn / td], a
    fraction between [10 ^ (k - 1)] and [10 ^ k], is not above its integer
    part; one above the fraction is not below the next integer. *)
Lemma floor_neighbours (s d k tn td : Z) :
  1 <= k -> 10 ^ (k - 1) <= s < 10 ^ k ->
  0 < td -> 10 ^ (k - 1) * td <= tn < 10 ^ k * td ->
  ((decimal s d <= frac tn td)%Q ->
   (decimal s d <= inject_Z (tn / td))%Q) /\
  ((frac tn td < decimal s d)%Q ->
   (inject_Z (tn / td + 1) <= decimal s d)%Q).
Proof.
  intros Hk Hs Htd Ht.
  pose proof (pow10_pos (k - 1) ltac:(lia)) as Pk.
  assert (Ek : 10 ^ k = 10 * 10 ^ (k - 1)).
  { replace k with (Z.succ (k - 1)) at 1 by lia.
    now rewrite Z.pow_succ_r by lia. }
  pose proof (Z.div_mod tn td ltac:(lia)) as DM.
  pose proof (Z.mod_pos_bound tn td ltac:(lia)) as MB.
  assert (Hlo : 10 ^ (k - 1) <= tn / td)
    by (apply Z.div_le_lower_bound; lia).
  rewrite decimal_frac, <- !frac_1. unfold scale10.
  destruct (Z.leb_spec 0 d) as [A|A]; cbn [fst snd].
  - split; intros H.
    + apply (proj1 (frac_le (s * 10 ^ d) 1 tn td Z.lt_0_1 Htd)) in H.
      apply frac_le; [lia|lia|].
      assert (s * 10 ^ d <= tn / td)
        by (apply Z.div_le_lower_bound; lia). lia.
    + apply (proj1 (frac_lt tn td (s * 10 ^ d) 1 Htd Z.lt_0_1)) in H.
      apply frac_le; [lia|lia|].
      assert (tn / td < s * 10 ^ d)
        by (apply Z.div_lt_upper_bound; lia). lia.
  - assert (Pd : 10 <= 10 ^ (- d)).
    { replace (- d) with (Z.succ (- d - 1)) by lia.
      rewrite Z.pow_succ_r by lia.
      pose proof (pow10_pos (- d - 1) ltac:(lia)). lia. }
    split; intros H.
    + apply frac_le; [lia|lia|]. nia.
    + apply (proj1 (frac_lt tn td s (1 * 10 ^ (- d)) Htd ltac:(lia))) in H.
      exfalso. nia.
Qed.

Lemma same_value_refl (m : positive) (e : Z) :
  same_value (S754_finite false m e) (S754_finite false m e) = true.
Proof. cbn. now rewrite Pos.eqb_refl, Z.eqb_refl. Qed.

(** If a [k]-digit decimal reads back as the Number, so does one of the two
    [k]-digit decimals around it. *)
Lemma neighbours_complete (m : positive) (e k s j : Z) :
  bounded prec emax m e = true -> 1 <= k -> 10 ^ (k - 1) <= s < 10 ^ k ->
  of_decimal false s j = S754_finite false m e ->
  neighbour_ok m e
    (decimal_exponent (fst (exact_ratio m e)) (snd (exact_ratio m e))) k
  = true.
Proof.
  intros Hb Hk Hs Hread.
  pose proof (pow10_pos (k - 1) ltac:(lia)) as Pk.
  assert (Ek : 10 ^ k = 10 * 10 ^ (k - 1)).
  { replace k with (Z.succ (k - 1)) at 1 by lia.
    now rewrite Z.pow_succ_r by lia. }
  pose proof (exact_value_rounds m e Hb) as HX.
  apply of_decimal_rounds in Hread; [|lia|assumption].
  destruct (exact_ratio_pos m e) as [Pn Pd].
  pose proof (decimal_exponent_decade _ _ Pn Pd) as Hdec.
  unfold neighbour_ok, exact_value in *.
  destruct (exact_ratio m e) as [num den]. cbn [fst snd] in *.
  set (n0 := decimal_exponent num den) in *.
  pose proof (scale10_decade num den n0 k Pn Pd Hdec Hk) as Hsc.
  destruct (frac_scale10 num den (k - n0) Pd) as [_ HT].
  destruct (scale10 num den (k - n0)) as [tn td]. cbn [fst snd] in *.
  destruct Hsc as [Ptd Ht].
  set (c := k - n0) in *.
  destruct (floor_neighbours s (j + c) k tn td Hk Hs Ptd Ht) as [FA FB].
  pose proof (Z.div_mod tn td ltac:(lia)) as DM.
  pose proof (Z.mod_pos_bound tn td ltac:(lia)) as MB.
  assert (Hlo : 10 ^ (k - 1) <= tn / td < 10 ^ k).
  { split; [apply Z.div_le_lower_bound; lia
           | apply Z.div_lt_upper_bound; lia]. }
  assert (Hfl : (inject_Z (tn / td) <= frac tn td)%Q).
  { rewrite <- frac_1. apply frac_le; lia. }
  assert (Hce : (frac tn td <= inject_Z (tn / td + 1))%Q).
  { rewrite <- frac_1. apply frac_le; lia. }
  rewrite decimal_shift, HT in FA, FB. rewrite HT in Hfl, Hce.
  apply orb_true_iff.
  destruct (Qlt_le_dec (frac num den) (decimal s j)) as [Hgt|Hle].
  - right.
    assert (Hin : rounds_to (Zpos m) e (decimal (tn / td + 1) (- c))).
    { apply rounds_to_between with (1 := HX) (2 := Hread). split.
      - apply Qscale_le. exact Hce.
      - apply Qscale_ge. apply FB.
        apply Qmult_lt_compat_r; [apply pow10_Q_pos | exact Hgt]. }
    enough (Hd : digits_number (candidate (tn / td + 1) n0 k)
                 = S754_finite false m e)
      by (rewrite Hd; apply same_value_refl).
    unfold candidate, digits_number.
    destruct (Z.eqb_spec (tn / td + 1) (10 ^ k)) as [Eq|Ne]; cbn [fst snd].
    + apply of_decimal_rounds; [lia|assumption|].
      apply rounds_to_eq with (2 := Hin).
      rewrite Eq. unfold decimal.
      rewrite (Zpower_Qpower 10 k) by lia.
      rewrite <- Qpower_plus by discriminate.
      change (ndigits 1) with 1.
      replace (k + - c) with (n0 + 1 - 1) by (unfold c; lia).
      now rewrite Qmult_1_l.
    + rewrite (ndigits_unique (tn / td + 1) k) by lia.
      apply of_decimal_rounds; [lia|assumption|].
      replace (n0 - k) with (- c) by (unfold c; lia). exact Hin.
  - left.
    assert (Hin : rounds_to (Zpos m) e (decimal (tn / td) (- c))).
    { apply rounds_to_between with (1 := Hread) (2 := HX). split.
      - apply Qscale_le. apply FA.
        apply Qmult_le_compat_r;
          [exact Hle | apply Qlt_le_weak, pow10_Q_pos].
      - apply Qscale_ge. exact Hfl. }
    enough (Hd : digits_number (candidate (tn / td) n0 k)
                 = S754_finite false m e)
      by (rewrite Hd; apply same_value_refl).
    unfold candidate, digits_number.
    destruct (Z.eqb_spec (tn / td) (10 ^ k)) as [Eq|Ne]; [lia|].
    cbn [fst snd].
    rewrite (ndigits_unique (tn / td) k) by lia.
    apply of_decimal_rounds; [lia|assumption|].
    replace (n0 - k) with (- c) by (unfold c; lia). exact Hin.
Qed.

(** The candidates at [k] digits have at most [k] digits. *)
Lemma candidate_digits (c n0 k : Z) :
  1 <= k -> 10 ^ (k - 1) <= c <= 10 ^ k ->
  ndigits (fst (candidate c n0 k)) <= k.
Proof.
  intros Hk Hc. unfold candidate.
  destruct (Z.eqb_spec c (10 ^ k)) as [E|N]; cbn [fst].
  - change (ndigits 1) with 1. exact Hk.
  - rewrite (ndigits_unique c k); lia.
Qed.

(** One step of the search. *)
Lemma shortest_digits_step (fuel : nat) (m : positive) (e n0 k : Z) :
  (neighbour_ok m e n0 k = true ->
   let '(num, den) := exact_ratio m e in
   let '(tn, td) := scale10 num den (k - n0) in
   shortest_digits fuel m e n0 k = candidate (tn / td) n0 k \/
   shortest_digits fuel m e n0 k = candidate (tn / td + 1) n0 k) /\
  (neighbour_ok m e n0 k = false ->
   shortest_digits fuel m e n0 k
   = match fuel with
     | S fuel' => shortest_digits fuel' m e n0 (k + 1)
     | O => exact_digits m e
     end).
Proof.
  rewrite shortest_digits_unfold. unfold neighbour_ok.
  destruct (exact_ratio m e) as [num den].
  destruct (scale10 num den (k - n0)) as [tn td]. cbv zeta.
  destruct (same_value (digits_number (candidate (tn / td) n0 k)) _);
    destruct (same_value (digits_number (candidate (tn / td + 1) n0 k)) _);
    cbn [andb orb];
    try (destruct (match 2 * (tn mod td) ?= td with
                   | Lt => false | Gt => true | Eq => Z.odd (tn / td) end));
    split; intros H; try discriminate H; auto.
Qed.

(** The search stops at the first number of digits at which a neighbour of
    the Number reads back as it. *)
Lemma shortest_digits_first (fuel : nat) (m : positive) (e k : Z) :
  let n0 := decimal_exponent (fst (exact_ratio m e)) (snd (exact_ratio m e)) in
  1 <= k ->
  (exists K, k <= K <= k + Z.of_nat fuel /\ neighbour_ok m e n0 K = true) ->
  exists k1, k <= k1 /\
    (forall k', k <= k' < k1 -> neighbour_ok m e n0 k' = false) /\
    ndigits (fst (shortest_digits fuel m e n0 k)) <= k1.
Proof.
  cbv zeta. destruct (exact_ratio_pos m e) as [Pn Pd].
  pose proof (decimal_exponent_decade _ _ Pn Pd) as Hdec.
  set (n0 := decimal_exponent _ _) in *.
  assert (Found : forall fuel k, 1 <= k -> neighbour_ok m e n0 k = true ->
            ndigits (fst (shortest_digits fuel m e n0 k)) <= k).
  { clear fuel k. intros fuel k Hk Hok.
    destruct (shortest_digits_step fuel m e n0 k) as [Hst _].
    specialize (Hst Hok).
    pose proof (scale10_decade _ _ n0 k Pn Pd Hdec Hk) as Hsc.
    destruct (exact_ratio m e) as [num den]. cbn [fst snd] in *.
    destruct (scale10 num den (k - n0)) as [tn td].
    destruct Hsc as [Ptd Ht].
    pose proof (Z.div_mod tn td ltac:(lia)) as DM.
    pose proof (Z.mod_pos_bound tn td ltac:(lia)) as MB.
    assert (Hq : 10 ^ (k - 1) <= tn / td < 10 ^ k).
    { split; [apply Z.div_le_lower_bound; lia
             | apply Z.div_lt_upper_bound; lia]. }
    destruct Hst as [-> | ->]; apply candidate_digits; lia. }
  revert k. induction fuel as [|fuel IH]; intros k Hk (K & HK & Hok).
  - replace K with k in Hok by lia.
    exists k. split; [lia|]. split; [intros k' Hk'; lia | now apply Found].
  - destruct (neighbour_ok m e n0 k) eqn:Hnk.
    + exists k. split; [lia|].
      split; [intros k' Hk'; lia | now apply Found].
    + destruct (shortest_digits_step (S fuel) m e n0 k) as [_ Hst].
      rewrite (Hst Hnk).
      destruct (IH (k + 1) ltac:(lia)) as (k1 & Hk1 & Hno & Hnd).
      { exists K. split; [|exact Hok].
        destruct (Z.eq_dec k K) as [E|N]; [congruence | lia]. }
      exists k1. split; [lia|]. split; [|exact Hnd].
      intros k' Hk'. destruct (Z.eq_dec k' k) as [->|Nk]; [exact Hnk|].
      apply Hno. lia.
Qed.

(** ** The digits that [Number::toString] writes are the fewest *)

(** If a decimal of at most seventeen digits reads back as the Number, no
    decimal that reads back as it has fewer digits than the one found. *)
Theorem shortest_digits_minimal (m : positive) (e : Z) :
  bounded prec emax m e = true ->
  (exists s0 j0, 0 < s0 /\ ndigits s0 <= 17 /\
     of_decimal false s0 j0 = S754_finite false m e) ->
  forall s j, 0 < s -> of_decimal false s j = S754_finite false m e ->
    ndigits (fst (shortest_digits 16 m e
                    (decimal_exponent (fst (exact_ratio m e))
                                      (snd (exact_ratio m e))) 1))
    <= ndigits s.
Proof.
  intros Hb (s0 & j0 & Hs0 & Hd0 & Hr0) s j Hs Hr.
  pose proof (ndigits_pos s0) as P0. pose proof (ndigits_pos s) as P.
  destruct (shortest_digits_first 16 m e 1 ltac:(lia)) as (k1 & Hk1 & Hno & Hnd).
  { exists (ndigits s0). split; [cbn; lia|].
    apply (neighbours_complete m e _ s0 j0); try assumption.
    apply ndigits_bounds. lia. }
  destruct (Z.lt_ge_cases (ndigits s) k1) as [Hlt|Hge]; [|lia].
  exfalso. specialize (Hno (ndigits s) ltac:(lia)).
  rewrite (neighbours_complete m e _ s j) in Hno; try assumption;
    [discriminate Hno | apply ndigits_bounds; lia].
Qed.

(** ** Formatting *)

Lemma toPrecision_coerced (x : number) (p : Z) :
  valid_binary prec emax x = true ->
  Number_toPrecision (parseFloat (Number_toString x)) p
  = Number_toPrecision x p.
Proof.
  intros Hv. rewrite parseFloat_Number_toString by assumption.
  destruct x; reflexivity.
Qed.

Lemma formatResult_format (x : number) :
  valid_binary prec emax x = true -> formatResult x = format x.
Proof.
  intros Hv. unfold formatResult, format, round_to_precision.
  now rewrite toPrecision_coerced.
Qed.

Lemma of_decimal_sign (sx sg : bool) (s j : Z) (m : positive) (e : Z) :
  of_decimal sx s j = S754_finite sg m e -> sg = sx.
Proof.
  assert (R : forall a b, of_ratio sx a b = S754_finite sg m e -> sg = sx).
  { intros a b H.
    destruct (of_ratio_pseudo sx a b) as (m2 & e2 & _ & _ & E).
    rewrite E in H. unfold pseudo_number in H.
    destruct m2 as [|p|p]; try discriminate H.
    destruct (e2 <=? emax - prec); [|discriminate H]. now injection H. }
  unfold of_decimal. destruct s as [|p|p]; try discriminate.
  destruct (0 <=? j); apply R.
Qed.

(** Which decimals read back as a Number does not depend on the sign. *)
Lemma of_decimal_unsigned (sx sy : bool) (s j : Z) (m : positive) (e : Z) :
  0 < s -> bounded prec emax m e = true ->
  of_decimal sx s j = S754_finite sx m e ->
  of_decimal sy s j = S754_finite sy m e.
Proof.
  intros Hs Hb H. apply of_decimal_rounds; [assumption..|].
  now apply (of_decimal_rounds sx).
Qed.

(** C8.  For every binary64 value [x], [formatResult x] is the format of the
    specification: with [r] the Number nearest to [x] rounded to 12
    significant digits, it is the string [Number::toString] gives for [r]
    when [r] is finite, and ["0"] otherwise; the conversion of [x] to a
    string and back that the code makes first changes nothing.  For a
    finite non-zero [x], [r] is the Number nearest to
    [n * 10 ^ (e10 - 11)], where [n] is the 12-digit integer nearest to [x]
    scaled by a power of ten.  The string written for a finite [r] parses
    back to [r] (to [+0] for a zero), and it is the shortest such decimal:
    for a non-zero [r] it writes the digits of an integer [s], at most
    twelve, with [s] times a power of ten reading back as [r], and no
    decimal of fewer digits reads back as [r].  Entering 0.1 + 0.2 leaves
    the display ["0.3"]. *)
Theorem formatResult_rounds_to_12_digits (x : number) :
  valid_binary prec emax x = true ->
  formatResult x = format x /\
  (forall sg m e, x = S754_finite sg m e ->
   exists n e10,
     10 ^ 11 <= n < 10 ^ 12 /\
     nearest_decimal (fst (exact_ratio m e)) (snd (exact_ratio m e)) n e10 12
     /\ round_to_precision x 12 = of_decimal sg n (e10 - 11)) /\
  (isFinite (round_to_precision x 12) = true ->
   formatResult x = Number_toString (round_to_precision x 12) /\
   parseFloat (formatResult x) = unsigned_zero (round_to_precision x 12)) /\
  (forall sg m e, round_to_precision x 12 = S754_finite sg m e ->
   exists s n,
     0 < s /\ ndigits s <= 12 /\
     formatResult x = (if sg then "-" else "") ++ format_digits s n /\
     of_decimal sg s (n - ndigits s) = S754_finite sg m e /\
     forall s' j', 0 < s' -> of_decimal sg s' j' = S754_finite sg m e ->
       ndigits s <= ndigits s') /\
  (isFinite (round_to_precision x 12) = false -> formatResult x = "0") /\
  displayValue
    (run [Decimal; Digit D1; Operator Plus; Decimal; Digit D2; Equals]
       initialState) = "0.3".
Proof.
  intros Hv. pose proof (formatResult_format x Hv) as F.
  split; [exact F|]. split; [|split; [|split; [|split]]].
  - intros sg m e ->.
    pose proof (precision_digits_nearest m e 12 ltac:(lia)) as N.
    pose proof (round_to_precision_finite sg m e 12 ltac:(lia)) as R.
    destruct (precision_digits m e 12) as [n e10]. cbn [fst snd] in R.
    exists n, e10. destruct N as [N1 N2].
    split; [exact N1|]. split; [exact N2|].
    unfold round_to_precision. rewrite R. f_equal. lia.
  - intros Hf. rewrite F. unfold format. rewrite Hf. split; [reflexivity|].
    apply parseFloat_Number_toString, parseFloat_valid.
  - intros sg m e Hr.
    assert (Hfmt : formatResult x
                   = (if sg then "-" else "") ++ toString_finite m e).
    { rewrite F. unfold format. rewrite Hr. reflexivity. }
    assert (Hb : bounded prec emax m e = true).
    { pose proof (parseFloat_valid (Number_toPrecision x 12)) as V.
      unfold round_to_precision in Hr. now rewrite Hr in V. }
    destruct x as [sx|sx| |sx mx ex];
      [exfalso; try destruct sx; vm_compute in Hr; discriminate Hr ..|].
    pose proof (precision_digits_nearest mx ex 12 ltac:(lia)) as N.
    pose proof (round_to_precision_finite sx mx ex 12 ltac:(lia)) as R.
    destruct (precision_digits mx ex 12) as [n12 e10]. cbn [fst snd] in R.
    destruct N as [N1 _].
    unfold round_to_precision in Hr. rewrite R in Hr.
    assert (sg = sx) by (now apply of_decimal_sign in Hr). subst sg.
    assert (H12 : of_decimal false n12 (e10 - 12 + 1)
                  = S754_finite false m e)
      by (apply (of_decimal_unsigned sx); [lia | assumption..]).
    pose proof (shortest_digits_number 16 m e
                  (decimal_exponent (fst (exact_ratio m e))
                                    (snd (exact_ratio m e))) 1 Hb) as Hnum.
    assert (D12 : ndigits n12 = 12) by (apply ndigits_unique; lia).
    assert (Hmin : forall s j,
              0 < s -> of_decimal false s j = S754_finite false m e ->
              ndigits (fst (shortest_digits 16 m e
                              (decimal_exponent (fst (exact_ratio m e))
                                                (snd (exact_ratio m e))) 1))
              <= ndigits s).
    { apply shortest_digits_minimal; [assumption|].
      exists n12, (e10 - 12 + 1). split; [lia|]. split; [lia | exact H12]. }
    unfold toString_finite in Hfmt.
    destruct (exact_ratio m e) as [num den]. cbn [fst snd] in *.
    destruct (shortest_digits 16 m e (decimal_exponent num den) 1)
      as [s n] eqn:Es.
    cbn [fst snd] in *.
    pose proof (digits_number_positive s n _ _ _ Hnum) as Hs.
    unfold digits_number in Hnum. cbn [fst snd] in Hnum.
    exists s, n. split; [exact Hs|]. split.
    { rewrite <- D12. apply (Hmin n12 (e10 - 12 + 1)); [lia | exact H12]. }
    split; [exact Hfmt|]. split.
    { apply (of_decimal_unsigned false); assumption. }
    intros s' j' Hs' Hr'. apply (Hmin s' j' Hs').
    apply (of_decimal_unsigned sx); assumption.
  - intros Hf. rewrite F. unfold format. now rewrite Hf.
  - vm_compute. reflexivity.
Qed.

Lemma formatResult_rounds_to_12_digits_witness :
  let x := add (parseFloat "0.1") (parseFloat "0.2") in
  valid_binary prec emax x = true /\
  Number_toString x = "0.30000000000000004" /\
  formatResult x = "0.3".
Proof.
  cbv zeta. split; [reflexivity|]. split; [reflexivity|].
  rewrite (proj1 (formatResult_rounds_to_12_digits
                    (add (parseFloat "0.1") (parseFloat "0.2")) eq_refl)).
  vm_compute. reflexivity.
Defined.

(** ** What the machine keeps true *)

Lemma starts_number_app (a b : string) :
  starts_number a = true -> starts_number (a ++ b) = true.
Proof.
  destruct a as [|c a]; [discriminate|]. cbn [append starts_number].
  destruct (is_digit c); [reflexivity|].
  destruct (Ascii.eqb c "-"); [|discriminate].
  destruct a as [|d a]; [discriminate|]. cbn [append]. auto.
Qed.

Lemma format_digits_head (s n : Z) :
  0 <= s ->
  exists d rest, format_digits s n = String d rest /\ is_digit d = true.
Proof.
  intros Hs.
  destruct (digits_head (decimal_digits s) (decimal_digits_all s Hs))
    as (d & rest & E & Hd).
  { rewrite <- ndigits_strlen. apply ndigits_pos. }
  unfold format_digits. rewrite E.
  destruct ((ndigits s <=? n) && (n <=? 21)); [now eexists _, _|].
  destruct (Z.ltb_spec 0 n) as [P|P]; cbn [andb].
  - destruct (n <=? 21).
    + unfold string_take.
      destruct (Z.to_nat n) as [|k] eqn:En; [lia|].
      cbn [substring append]. now eexists _, _.
    + destruct (-6 <? n); cbn [andb];
        [destruct (n <=? 0); [exists "0"%char; now eexists|]|];
        (destruct (ndigits s =? 1); [now eexists _, _|]);
        unfold string_take; cbn; now eexists _, _.
  - destruct ((-6 <? n) && (n <=? 0)); [exists "0"%char; now eexists|].
    destruct (ndigits s =? 1); [now eexists _, _|].
    unfold string_take; cbn; now eexists _, _.
Qed.

Lemma toString_finite_head (m : positive) (e : Z) :
  bounded prec emax m e = true ->
  exists d rest, toString_finite m e = String d rest /\ is_digit d = true.
Proof.
  intros Hb. unfold toString_finite.
  pose proof (shortest_digits_number 16 m e
                (decimal_exponent (fst (exact_ratio m e))
                                  (snd (exact_ratio m e))) 1 Hb) as Hnum.
  destruct (exact_ratio m e) as [num den]. cbn [fst snd] in Hnum.
  destruct (shortest_digits 16 m e (decimal_exponent num den) 1) as [s n].
  pose proof (digits_number_positive s n _ _ _ Hnum) as Hs.
  apply format_digits_head. lia.
Qed.

Lemma Number_toString_starts (x : number) :
  valid_binary prec emax x = true -> isFinite x = true ->
  starts_number (Number_toString x) = true.
Proof.
  destruct x as [sg|sg| |sg m e]; try discriminate; [reflexivity|].
  intros Hb _. unfold Number_toString.
  destruct (toString_finite_head m e Hb) as (d & rest & E & Hd).
  rewrite E. destruct sg; cbn; now rewrite Hd.
Qed.

Lemma formatResult_starts (x : number) :
  starts_number (formatResult x) = true.
Proof.
  unfold formatResult. cbv zeta.
  set (r := parseFloat (Number_toPrecision _ 12)).
  destruct (isFinite r) eqn:Hf; [|reflexivity].
  apply Number_toString_starts; [apply parseFloat_valid | exact Hf].
Qed.

Lemma digit_string_starts (d : digit) :
  starts_number (digit_string d) = true.
Proof. destruct d; reflexivity. Qed.

Lemma operator_string_truthy (op : operator) :
  truthy (Some (operator_string op)) = true.
Proof. destruct op; reflexivity. Qed.

Lemma invariant_initial : invariant initialState.
Proof.
  repeat split; cbn; try discriminate; try congruence. now left.
Qed.

Lemma invariant_error : invariant errorState.
Proof.
  repeat split; cbn; try discriminate; try congruence. now left.
Qed.

Ltac invariant_goal :=
  cbn; try discriminate; try assumption;
  try (intros _;
       first [ assumption | apply digit_string_starts
             | now apply starts_number_app | apply formatResult_starts
             | reflexivity ]);
  try (now left); try tauto; try congruence.

Lemma invariant_step (act : action) (s : State) :
  invariant s -> invariant (applyAction act s).
Proof.
  intros (I1 & I2 & I3 & I4 & I5).
  destruct (hasError s) eqn:He.
  { rewrite (I1 eq_refl).
    destruct act as [d| |op| | | |]; try apply invariant_error;
      try apply invariant_initial.
    - destruct d; repeat split; invariant_goal.
    - repeat split; invariant_goal. }
  specialize (I2 eq_refl).
  destruct s as [dv cv po aw he]. cbn in *. subst he.
  destruct act as [d| |op| | | |].
  - rewrite applyAction_Digit. unfold inputDigit. cbn.
    destruct aw; cbn.
    + repeat split; invariant_goal.
    + destruct (dv =? DEFAULT_DISPLAY)%string; repeat split; invariant_goal.
  - rewrite applyAction_Decimal. unfold inputDecimal. cbn.
    destruct aw; cbn.
    + repeat split; invariant_goal.
    + destruct (includes "." dv); cbn; repeat split; invariant_goal.
  - rewrite applyAction_Operator. unfold handleOperator. cbn.
    destruct (truthy po && aw) eqn:Hsub.
    + apply andb_true_iff in Hsub. destruct Hsub as [Ht Ha]. subst aw.
      repeat split; invariant_goal; try (right; now exists op);
        try (intros _; apply I5, I3; reflexivity).
    + destruct cv as [cv|].
      * destruct (truthy po) eqn:Ht.
        -- destruct (performCalculation (Some cv) (parseFloat dv) po);
             [|apply invariant_error].
           repeat split; invariant_goal; right; now exists op.
        -- repeat split; invariant_goal; right; now exists op.
      * repeat split; invariant_goal; right; now exists op.
  - rewrite applyAction_Equals. unfold handleEquals. cbn.
    destruct (negb (truthy po) || aw); [repeat split; invariant_goal|].
    destruct (performCalculation cv (parseFloat dv) po);
      [|apply invariant_error].
    repeat split; invariant_goal.
  - apply invariant_initial.
  - rewrite applyAction_ToggleSign. unfold toggleSign. cbn.
    destruct (dv =? DEFAULT_DISPLAY)%string; repeat split; invariant_goal.
  - rewrite applyAction_Percent. unfold applyPercent. cbn.
    destruct (truthy po) eqn:Ht; cbn; repeat split; invariant_goal.
Qed.

Lemma invariant_run (actions : list action) (s : State) :
  invariant s -> invariant (run actions s).
Proof.
  revert s. induction actions as [|a l IH]; intros s H; [exact H|].
  apply IH, invariant_step, H.
Qed.

Lemma starts_number_not_Error (s : string) :
  starts_number s = true -> s <> "Error".
Proof. intros H ->. discriminate H. Qed.

(** X1.  In every state reached from the initial state, the error flag is
    set only in the state [signalError] leaves: display ["Error"], no
    accumulator, no pending operator, no operand awaited; and the display
    reads ["Error"] exactly when the flag is set. *)
Theorem error_state_invariant (actions : list action) :
  let s := run actions initialState in
  (hasError s = true -> s = errorState) /\
  (hasError s = true <-> displayValue s = "Error").
Proof.
  cbv zeta.
  destruct (invariant_run actions initialState invariant_initial)
    as (I1 & I2 & _).
  split; [exact I1|]. split.
  - intros H. now rewrite (I1 H).
  - intros H. destruct (hasError _) eqn:He; [reflexivity|].
    exfalso. now apply (starts_number_not_Error _ (I2 eq_refl)).
Qed.

(** X2.  In every state reached from the initial state, the pending
    operator is [null] or one of the four operator keys; an operand is
    awaited only while an operator is pending; and while an operator is
    pending the accumulator holds a Number.  So [performCalculation] is
    never reached with a [null] first operand or an operator it does not
    know. *)
Theorem pending_operator_invariant (actions : list action) :
  let s := run actions initialState in
  (pendingOperator s = None \/
   exists op, pendingOperator s = Some (operator_string op)) /\
  (awaitingNextValue s = true -> pendingOperator s <> None) /\
  (pendingOperator s <> None -> currentValue s <> None).
Proof.
  cbv zeta.
  destruct (invariant_run actions initialState invariant_initial)
    as (_ & _ & I3 & I4 & I5).
  auto.
Qed.

Lemma scan_digits_count (s : string) (acc count : Z) :
  count <= snd (fst (scan_digits s acc count)).
Proof.
  revert acc count. induction s as [|c s IH]; intros acc count; cbn; [lia|].
  destruct (is_digit c); cbn; [|lia].
  specialize (IH (acc * 10 + digit_value c) (count + 1)). lia.
Qed.

Lemma of_decimal_not_NaN (neg : bool) (m e10 : Z) :
  of_decimal neg m e10 <> NaN.
Proof.
  assert (R : forall a b, of_ratio neg a b <> NaN).
  { intros a b.
    destruct (of_ratio_pseudo neg a b) as (m2 & e2 & (H0 & _) & _ & ->).
    unfold pseudo_number. destruct m2 as [|p|p]; try discriminate; [|lia].
    destruct (e2 <=? emax - prec); discriminate. }
  unfold of_decimal. destruct m; try discriminate.
  destruct (0 <=? e10); apply R.
Qed.

Lemma parse_unsigned_digit (neg : bool) (d : ascii) (rest : string) :
  is_digit d = true -> parse_unsigned neg (String d rest) <> NaN.
Proof.
  intros Hd. unfold parse_unsigned.
  destruct (digit_head d rest Hd) as (_ & _ & P). rewrite P. cbn [scan_digits]. rewrite Hd.
  pose proof (scan_digits_count rest (0 * 10 + digit_value d) (0 + 1)) as C.
  destruct (scan_digits rest _ _) as [[ip ni] s2]. cbn [fst snd] in C.
  assert (F : 0 <= snd (fst (scan_fraction s2 ip))).
  { unfold scan_fraction. destruct s2 as [|c s2]; [cbn; lia|].
    destruct (Ascii.eqb_spec c ".") as [->|N].
    - apply scan_digits_count.
    - destruct c as [[] [] [] [] [] [] [] []]; cbn; try lia;
        exfalso; now apply N. }
  destruct (scan_fraction s2 ip) as [[m nf] s3]. cbn [fst snd] in F.
  destruct (Z.eqb_spec (ni + nf) 0); [lia|]. apply of_decimal_not_NaN.
Qed.

Lemma parseFloat_starts_number (s : string) :
  starts_number s = true -> parseFloat s <> NaN.
Proof.
  destruct s as [|c s]; [discriminate|]. cbn [starts_number].
  destruct (is_digit c) eqn:Hc.
  - intros _. unfold parseFloat.
    destruct (digit_head c s Hc) as (T & S & _).
    rewrite T, S. now apply parse_unsigned_digit.
  - destruct (Ascii.eqb_spec c "-") as [->|N]; [|discriminate].
    destruct s as [|d s]; [discriminate|]. intros Hd.
    unfold parseFloat. cbn [trim_start is_whitespace nat_of_ascii].
    cbn. now apply parse_unsigned_digit.
Qed.

(** X3.  In every state without error reached from the initial state,
    the display starts with a digit, or with a minus sign and a digit, so
    that the [parseFloat] of the handlers never reads [NaN] from it. *)
Theorem display_never_parses_to_NaN (actions : list action) :
  hasError (run actions initialState) = false ->
  starts_number (displayValue (run actions initialState)) = true /\
  parseFloat (displayValue (run actions initialState)) <> NaN.
Proof.
  intros He.
  destruct (invariant_run actions initialState invariant_initial)
    as (_ & I2 & _).
  split; [now apply I2 | now apply parseFloat_starts_number, I2].
Qed.

Lemma display_never_parses_to_NaN_witness :
  hasError (run [Digit D5; Decimal] initialState) = false /\
  parseFloat (displayValue (run [Digit D5; Decimal] initialState)) <> NaN.
Proof.
  split; [reflexivity|].
  exact (proj2 (display_never_parses_to_NaN [Digit D5; Decimal] eq_refl)).
Defined.

(** ** How the keys compose *)

(** X5.  Whatever Number it is given, [formatResult] returns a text that
    [parseFloat] reads as a finite Number: never [NaN], never an
    infinity. *)
Theorem formatResult_parses_finite (x : number) :
  isFinite (parseFloat (formatResult x)) = true /\
  parseFloat (formatResult x) <> NaN.
Proof.
  assert (H : isFinite (parseFloat (formatResult x)) = true).
  { unfold formatResult. cbv zeta.
    set (r := parseFloat (Number_toPrecision _ 12)).
    destruct (isFinite r) eqn:Hf; [|reflexivity].
    rewrite parseFloat_Number_toString by apply parseFloat_valid.
    destruct r; try discriminate Hf; reflexivity. }
  split; [exact H|]. intros E. rewrite E in H. discriminate H.
Qed.

Lemma handleOperator_chains (operator : string) (s : State) (a result : number) :
  hasError s = false -> truthy (pendingOperator s) = true ->
  awaitingNextValue s = false -> currentValue s = Some a ->
  performCalculation (Some a) (parseFloat (displayValue s))
    (pendingOperator s) = Some result ->
  handleOperator operator s
  = mkState (formatResult result) (Some result) (Some operator) true false.
Proof.
  destruct s as [dv cv po aw he]. cbn. intros -> Ht -> -> Hp.
  unfold handleOperator. cbn. rewrite Ht. cbn. rewrite Hp. reflexivity.
Qed.

(** X4.  With an operator pending and its second operand entered, a
    further operator key evaluates the pending one, shows the formatted
    result, and keeps the result itself, unrounded, as accumulator.
    [Equals] followed by the same operator key shows the same text, but
    the accumulator is then the Number read back from the display, that
    is, the result rounded to twelve digits. *)
Theorem chained_operator_keeps_result (s : State) (op1 op2 : operator)
    (a result : number) :
  hasError s = false ->
  pendingOperator s = Some (operator_string op1) ->
  awaitingNextValue s = false ->
  currentValue s = Some a ->
  performCalculation (Some a) (parseFloat (displayValue s))
    (Some (operator_string op1)) = Some result ->
  applyAction (Operator op2) s
  = mkState (formatResult result) (Some result)
      (Some (operator_string op2)) true false /\
  run [Equals; Operator op2] s
  = mkState (formatResult result) (Some (parseFloat (formatResult result)))
      (Some (operator_string op2)) true false.
Proof.
  intros He Hp Ha Hc Hr. split.
  - rewrite applyAction_Operator.
    apply (handleOperator_chains _ s a); try assumption.
    + rewrite Hp. apply operator_string_truthy.
    + now rewrite Hp.
  - cbn [run fold_left].
    rewrite applyAction_Equals, handleEquals_unfold; try assumption.
    + rewrite Hc, Hp, Hr. rewrite applyAction_Operator. reflexivity.
    + rewrite Hp. apply operator_string_truthy.
Qed.

Lemma chained_operator_keeps_result_witness :
  let s :=
    run [Decimal; Digit D1; Operator Plus; Decimal; Digit D2] initialState in
  let sum := add (parseFloat "0.1") (parseFloat "0.2") in
  applyAction (Operator Times) s
  = mkState "0.3" (Some sum) (Some "*") true false /\
  run [Equals; Operator Times] s
  = mkState "0.3" (Some (parseFloat "0.3")) (Some "*") true false /\
  sum <> parseFloat "0.3".
Proof.
  cbv zeta.
  destruct (chained_operator_keeps_result
              (run [Decimal; Digit D1; Operator Plus; Decimal; Digit D2]
                 initialState)
              Plus Times (parseFloat "0.1")
              (add (parseFloat "0.1") (parseFloat "0.2"))
              eq_refl eq_refl eq_refl eq_refl eq_refl) as [H1 H2].
  rewrite H1, H2.
  assert (F : formatResult (add (parseFloat "0.1") (parseFloat "0.2"))
              = "0.3") by (vm_compute; reflexivity).
  rewrite F. repeat split. vm_compute. discriminate.
Defined.

(** X8.  [Equals] is idempotent: a second [Equals] right after the first
    changes nothing, in any state.  The last operation is not repeated. *)
Theorem equals_idempotent (s : State) :
  applyAction Equals (applyAction Equals s) = applyAction Equals s.
Proof.
  rewrite (applyAction_Equals s), applyAction_Equals.
  destruct s as [dv cv po aw he]. destruct he; [reflexivity|].
  assert (Stay : (negb (truthy po) || aw)%bool = true ->
            handleEquals (mkState dv cv po aw false)
            = mkState dv cv po aw false).
  { intros G. unfold handleEquals.
    cbn [hasError pendingOperator awaitingNextValue orb]. now rewrite G. }
  destruct (truthy po) eqn:Ht; [|now rewrite !Stay].
  destruct aw; [now rewrite !Stay|].
  rewrite (handleEquals_unfold (mkState dv cv po false false))
    by (try reflexivity; exact Ht).
  cbn. destruct (performCalculation cv (parseFloat dv) po); reflexivity.
Qed.

(** X9.  After a successful [Equals], a digit key is appended to the
    result shown (it replaces it only when the result shows as ["0"]): the
    calculator does not start a new operand. *)
Theorem digit_after_equals_appends (s : State) (d : digit) (result : number) :
  hasError s = false -> truthy (pendingOperator s) = true ->
  awaitingNextValue s = false ->
  performCalculation (currentValue s) (parseFloat (displayValue s))
    (pendingOperator s) = Some result ->
  run [Equals; Digit d] s
  = mkState (if (formatResult result =? "0")%string then digit_string d
             else formatResult result ++ digit_string d)
      None None false false.
Proof.
  intros He Ht Ha Hr. cbn [run fold_left].
  rewrite applyAction_Equals, handleEquals_unfold, Hr by assumption.
  rewrite applyAction_Digit. unfold inputDigit. cbn.
  destruct (formatResult result =? DEFAULT_DISPLAY)%string eqn:E;
    unfold DEFAULT_DISPLAY in E; rewrite E; reflexivity.
Qed.

Lemma digit_after_equals_appends_witness :
  run [Equals; Digit D2] (run [Digit D5; Operator Plus; Digit D3] initialState)
  = mkState "82" None None false false.
Proof.
  rewrite (digit_after_equals_appends
             (run [Digit D5; Operator Plus; Digit D3] initialState) D2
             (add (parseFloat "5") (parseFloat "3"))
             eq_refl eq_refl eq_refl eq_refl).
  vm_compute. reflexivity.
Defined.

(** X10.  With an operator pending and its second operand entered,
    [Percent] then [Equals] evaluates the pending operator on the
    accumulator and the hundredth of the operand, as read back from its
    formatted display; the percentage is not taken of the accumulator. *)
Theorem percent_then_equals (s : State) (op : operator) :
  hasError s = false ->
  pendingOperator s = Some (operator_string op) ->
  awaitingNextValue s = false ->
  run [Percent; Equals] s
  = match performCalculation (currentValue s)
            (parseFloat (formatResult
                           (div (parseFloat (displayValue s)) (of_Z 100))))
            (Some (operator_string op)) with
    | Some result => mkState (formatResult result) None None false false
    | None => errorState
    end.
Proof.
  destruct s as [dv cv po aw he].
  cbn [hasError pendingOperator awaitingNextValue currentValue displayValue].
  intros -> -> ->. cbn [run fold_left].
  rewrite applyAction_Percent, applyPercent_unfold by reflexivity.
  cbn [pendingOperator currentValue displayValue awaitingNextValue].
  rewrite operator_string_truthy.
  rewrite applyAction_Equals, handleEquals_unfold;
    try reflexivity; apply operator_string_truthy.
Qed.

Lemma percent_then_equals_witness :
  run [Percent; Equals]
    (run [Digit D5; Digit D0; Operator Plus; Digit D1; Digit D0] initialState)
  = mkState "50.1" None None false false.
Proof.
  rewrite (percent_then_equals
             (run [Digit D5; Digit D0; Operator Plus; Digit D1; Digit D0]
                initialState) Plus eq_refl eq_refl eq_refl).
  vm_compute. reflexivity.
Defined.

(** ** Entering an operand *)

Lemma all_digits_entered (ds : list digit) : all_digits (entered ds) = true.
Proof.
  induction ds as [|d ds IH]; [reflexivity|].
  change (entered (d :: ds)) with (digit_string d ++ entered ds).
  rewrite all_digits_app, IH. now destruct d.
Qed.

Lemma strlen_entered (ds : list digit) :
  strlen (entered ds) = Z.of_nat (List.length ds).
Proof.
  induction ds as [|d ds IH]; [reflexivity|].
  change (entered (d :: ds)) with (digit_string d ++ entered ds).
  rewrite strlen_app, IH.
  change (List.length (d :: ds)) with (S (List.length ds)).
  assert (strlen (digit_string d) = 1) by (now destruct d). lia.
Qed.

Lemma all_digits_no_point (s : string) :
  all_digits s = true -> includes "." s = false.
Proof.
  intros H. rewrite includes_point. unfold decimal_points.
  induction s as [|c s IH]; [reflexivity|].
  cbn [all_digits] in H. apply andb_true_iff in H. destruct H as [Hc Hs].
  cbn [count_char].
  destruct (Ascii.eqb_spec c ".") as [->|_]; [discriminate Hc|].
  now apply IH.
Qed.

(** The text shown for the digits [u]: digits again, at least one, with the
    value of [u]. *)
Lemma suppress_leading_zero_digits (u : string) :
  all_digits u = true ->
  all_digits (suppress_leading_zero u) = true /\
  1 <= strlen (suppress_leading_zero u) /\
  shift_in (suppress_leading_zero u) 0 = shift_in u 0.
Proof.
  unfold suppress_leading_zero. induction u as [|c u IH]; intros H.
  - repeat split. cbv. discriminate.
  - cbn [all_digits] in H. apply andb_true_iff in H. destruct H as [Hc Hu].
    cbn [drop_leading_zeros].
    destruct (Ascii.eqb_spec c "0") as [->|N].
    + destruct (IH Hu) as (A & B & C). repeat split; assumption.
    + cbn [all_digits]. rewrite Hc, Hu. repeat split.
      unfold strlen. cbn [String.length]. lia.
Qed.

(** A digit key in a state without error writes the display only, and
    ends the wait for an operand. *)
Lemma inputDigit_frame (d dv : string) (cv : option number)
    (po : option string) (aw : bool) :
  inputDigit d (mkState dv cv po aw false)
  = mkState (displayValue (inputDigit d (mkState dv None None aw false)))
      cv po false false.
Proof.
  unfold inputDigit. cbn. destruct aw; cbn; [reflexivity|].
  destruct (dv =? DEFAULT_DISPLAY)%string; reflexivity.
Qed.

Lemma run_digits_from (u : string) (cv : option number) (po : option string)
    (ds : list digit) :
  run (map Digit ds) (mkState (suppress_leading_zero u) cv po false false)
  = mkState (suppress_leading_zero (u ++ entered ds)) cv po false false.
Proof.
  revert u. induction ds as [|d ds IH]; intros u.
  - cbn. now rewrite append_empty_r.
  - cbn [map run fold_left]. rewrite applyAction_Digit, inputDigit_frame.
    rewrite inputDigit_suppressed. cbn [displayValue].
    fold (run (map Digit ds)
            (mkState (suppress_leading_zero (u ++ digit_string d)) cv po
               false false)).
    rewrite IH, append_assoc. reflexivity.
Qed.

(** Digit keys after a decimal point are appended. *)
Lemma run_digits_fraction (a w : string) (cv : option number)
    (po : option string) (ds : list digit) :
  1 <= strlen a ->
  run (map Digit ds) (mkState (a ++ "." ++ w) cv po false false)
  = mkState (a ++ "." ++ w ++ entered ds) cv po false false.
Proof.
  intros La. revert w. induction ds as [|d ds IH]; intros w.
  - cbn. now rewrite append_empty_r.
  - cbn [map run fold_left]. rewrite applyAction_Digit.
    assert (E : inputDigit (digit_string d)
                  (mkState (a ++ "." ++ w) cv po false false)
                = mkState (a ++ "." ++ (w ++ digit_string d)) cv po false
                    false).
    { unfold inputDigit. cbn [hasError awaitingNextValue displayValue].
      destruct (String.eqb_spec (a ++ "." ++ w) DEFAULT_DISPLAY) as [C|_].
      - exfalso. apply (f_equal strlen) in C. rewrite !strlen_app in C.
        change (strlen ".") with 1 in C.
        change (strlen DEFAULT_DISPLAY) with 1 in C.
        pose proof (strlen_nonneg w). lia.
      - unfold set_displayValue. cbn. now rewrite !append_assoc. }
    rewrite E.
    fold (run (map Digit ds)
            (mkState (a ++ "." ++ w ++ digit_string d) cv po false false)).
    rewrite IH, append_assoc. reflexivity.
Qed.

(** The first keys of an operand, in a state that waits for one or shows
    ["0"]. *)
Lemma run_digits_fresh (s : State) (ds : list digit) :
  hasError s = false ->
  awaitingNextValue s = true /\ ds <> [] \/
  awaitingNextValue s = false /\ displayValue s = "0" ->
  run (map Digit ds) s
  = mkState (suppress_leading_zero (entered ds)) (currentValue s)
      (pendingOperator s) false false.
Proof.
  destruct s as [dv cv po aw he]. cbn [hasError awaitingNextValue
    displayValue currentValue pendingOperator].
  intros -> [[-> Hds] | [-> ->]].
  - destruct ds as [|d ds]; [contradiction|].
    cbn [map run fold_left]. rewrite applyAction_Digit.
    assert (E : inputDigit (digit_string d) (mkState dv cv po true false)
                = mkState (suppress_leading_zero (digit_string d)) cv po
                    false false) by (destruct d; reflexivity).
    rewrite E.
    fold (run (map Digit ds)
            (mkState (suppress_leading_zero (digit_string d)) cv po false
               false)).
    apply run_digits_from.
  - apply (run_digits_from "").
Qed.

Lemma parseFloat_entered (u v : string) :
  all_digits u = true -> all_digits v = true ->
  parseFloat (suppress_leading_zero u)
  = of_decimal false (shift_in u 0) 0 /\
  parseFloat (suppress_leading_zero u ++ "." ++ v)
  = of_decimal false (shift_in (u ++ v) 0) (- strlen v).
Proof.
  intros Hu Hv.
  destruct (suppress_leading_zero_digits u Hu) as (A & L & V).
  split.
  - rewrite <- (append_empty_r (suppress_leading_zero u)).
    rewrite (proj1 (parseFloat_digits _ "" A L)).
    rewrite (parse_integer_form false _ "" 0 A L end_plain). now rewrite V.
  - rewrite (proj1 (parseFloat_digits _ ("." ++ v) A L)).
    rewrite <- (append_empty_r v) at 1.
    rewrite (parse_fraction_form false _ v "" 0 A Hv L end_plain).
    rewrite !shift_in_app, V. reflexivity.
Qed.

(** X14.  Entering an operand, in a state without error that waits for
    one or shows ["0"]: digit keys leave the digits typed with leading
    zeros suppressed, and after a decimal key further digits are appended
    behind the point; accumulator and pending operator stay, and the wait
    for an operand ends.  The text parses to the Number nearest to the
    decimal typed. *)
Theorem operand_entry (s : State) (ds1 ds2 : list digit) :
  hasError s = false ->
  awaitingNextValue s = true \/ displayValue s = "0" ->
  (ds1 <> [] \/ awaitingNextValue s = false ->
   run (map Digit ds1) s
   = mkState (suppress_leading_zero (entered ds1)) (currentValue s)
       (pendingOperator s) false false /\
   parseFloat (suppress_leading_zero (entered ds1))
   = of_decimal false (shift_in (entered ds1) 0) 0) /\
  run (map Digit ds1 ++ Decimal :: map Digit ds2) s
  = mkState (suppress_leading_zero (entered ds1) ++ "." ++ entered ds2)
      (currentValue s) (pendingOperator s) false false /\
  parseFloat (suppress_leading_zero (entered ds1) ++ "." ++ entered ds2)
  = of_decimal false (shift_in (entered ds1 ++ entered ds2) 0)
      (- Z.of_nat (List.length ds2)).
Proof.
  intros He Hfresh.
  pose proof (all_digits_entered ds1) as A1.
  pose proof (all_digits_entered ds2) as A2.
  destruct (parseFloat_entered _ _ A1 A2) as [P1 P2].
  rewrite strlen_entered in P2.
  assert (Fresh : ds1 <> [] \/ awaitingNextValue s = false ->
            run (map Digit ds1) s
            = mkState (suppress_leading_zero (entered ds1)) (currentValue s)
                (pendingOperator s) false false).
  { intros H. apply run_digits_fresh; [assumption|].
    destruct (awaitingNextValue s) eqn:Ha.
    - left. split; [reflexivity|]. destruct H as [H|H]; [exact H|discriminate].
    - right. split; [reflexivity|]. destruct Hfresh as [H'|H']; [discriminate|exact H']. }
  split; [intros H; split; [now apply Fresh | exact P1]|].
  split; [|exact P2].
  destruct (suppress_leading_zero_digits _ A1) as (A & L & _).
  rewrite run_app. cbn [run fold_left].
  assert (Dec : applyAction Decimal (run (map Digit ds1) s)
                = mkState (suppress_leading_zero (entered ds1) ++ "." ++ "")
                    (currentValue s) (pendingOperator s) false false).
  { rewrite applyAction_Decimal.
    destruct ds1 as [|d ds1]; [destruct (awaitingNextValue s) eqn:Ha|].
    - cbn [map run fold_left]. unfold inputDecimal. rewrite He, Ha.
      destruct s as [dv cv po aw he]. cbn in He, Ha |- *. now subst.
    - rewrite Fresh by now right.
      unfold inputDecimal. cbn. reflexivity.
    - rewrite Fresh by (left; discriminate).
      unfold inputDecimal.
      cbn [hasError awaitingNextValue displayValue].
      rewrite (all_digits_no_point _ A). reflexivity. }
  rewrite Dec.
  fold (run (map Digit ds2)
          (mkState (suppress_leading_zero (entered ds1) ++ "." ++ "")
             (currentValue s) (pendingOperator s) false false)).
  rewrite (run_digits_fraction _ "" _ _ ds2 L). reflexivity.
Qed.

Lemma operand_entry_witness :
  run [Digit D0; Digit D1; Decimal; Digit D5]
    (run [Digit D7; Operator Plus] initialState)
  = mkState "1.5" (Some (parseFloat "7")) (Some "+") false false.
Proof.
  destruct (operand_entry (run [Digit D7; Operator Plus] initialState)
              [D0; D1] [D5] eq_refl (or_introl eq_refl)) as (_ & H & _).
  exact H.
Defined.

(** ** Rounding to twelve digits twice *)

Lemma bounded_emin (m : positive) (e : Z) :
  bounded prec emax m e = true -> emin prec emax <= e.
Proof. intros Hb. apply (pseudo_emin (Zpos m) e), bounded_pseudo, Hb. Qed.

Lemma half_ulp_pos (e : Z) : emin prec emax <= e -> (0 < half_ulp e)%Q.
Proof.
  intros He. unfold half_ulp, Qlt. cbn [Qnum Qden].
  assert (0 < 2 ^ (e - emin prec emax)) by (apply Z.pow_pos_nonneg; lia).
  lia.
Qed.

(** The interval of a Number around its exact value: half an ulp above, and
    below as much, or half of it just above a power of two. *)
Lemma interval_shape (m : positive) (e : Z) :
  bounded prec emax m e = true ->
  (upper (Zpos m) e == exact_value m e + half_ulp e)%Q /\
  (exact_value m e == inject_Z (2 * Zpos m) * half_ulp e)%Q /\
  (if below_power (Zpos m) e
   then (lower (Zpos m) e == exact_value m e - (1 # 2) * half_ulp e)%Q
   else (lower (Zpos m) e == exact_value m e - half_ulp e)%Q).
Proof.
  intros Hb. pose proof (bounded_emin m e Hb) as He.
  assert (Hmin : emin prec emax = -1074) by reflexivity.
  assert (PP : 0 < 2 ^ (e - emin prec emax)) by (apply Z.pow_pos_nonneg; lia).
  set (P := 2 ^ (e - emin prec emax)) in *.
  assert (EX : (exact_value m e == (4 * Zpos m * P) # unit_scale)%Q).
  { unfold exact_value, exact_ratio, frac.
    destruct (Z.leb_spec 0 e) as [A|A]; cbn [fst snd];
      unfold Qeq; cbn [Qnum Qden]; rewrite unit_scale_eq.
    - replace (2 - emin prec emax) with (2 + (e - emin prec emax) - e) by lia.
      change (Zpos (Z.to_pos 1)) with 1.
      assert (E : 2 ^ (2 + (e - emin prec emax) - e) * 2 ^ e
                  = 2 ^ 2 * 2 ^ (e - emin prec emax)).
      { rewrite <- !Z.pow_add_r by lia. f_equal. lia. }
      fold P in E. change (2 ^ 2) with 4 in E. nia.
    - rewrite Z2Pos.id by (apply Z.pow_pos_nonneg; lia).
      assert (E : 2 ^ (2 - emin prec emax)
                  = 2 ^ 2 * 2 ^ (e - emin prec emax) * 2 ^ (- e)).
      { rewrite <- !Z.pow_add_r by lia. f_equal. lia. }
      fold P in E. change (2 ^ 2) with 4 in E. rewrite E. ring. }
  assert (EH : (half_ulp e == (2 * P) # unit_scale)%Q) by reflexivity.
  split; [|split].
  - rewrite EX, EH. unfold upper, Uz. fold P.
    unfold Qeq, Qplus. cbn [Qnum Qden]. rewrite Pos2Z.inj_mul. ring.
  - rewrite EX, EH. unfold Qeq, Qmult, inject_Z. cbn [Qnum Qden].
    rewrite Pos2Z.inj_mul. ring.
  - unfold lower, Lz. fold P. destruct (below_power (Zpos m) e);
      rewrite EX, EH; unfold Qeq, Qminus, Qplus, Qopp, Qmult;
      cbn [Qnum Qden]; rewrite ?Pos2Z.inj_mul; ring.
Qed.

(** A value as far above the exact value as one of the interval is below
    it belongs to the interval. *)
Lemma rounds_to_reflect_up (m : positive) (e : Z) (v w : Q) :
  bounded prec emax m e = true ->
  rounds_to (Zpos m) e v ->
  (v <= exact_value m e)%Q -> (exact_value m e <= w)%Q ->
  (w - exact_value m e <= exact_value m e - v)%Q ->
  rounds_to (Zpos m) e w.
Proof.
  intros Hb [[Lv Uv] Tv] H1 H2 H3.
  destruct (interval_shape m e Hb) as (EU & EX & EL).
  pose proof (half_ulp_pos e (bounded_emin m e Hb)) as Hh.
  unfold rounds_to. set (X := exact_value m e) in *. set (h := half_ulp e) in *.
  set (lo := lower (Zpos m) e) in *. set (up := upper (Zpos m) e) in *.
  destruct (below_power (Zpos m) e) eqn:Hbp; cbv iota in EL.
  - apply andb_prop in Hbp. destruct Hbp as [Hm _]. apply Z.eqb_eq in Hm.
    split; [split; lra|]. intros _. rewrite Hm. reflexivity.
  - split; [split; lra|]. intros [T|T]; [lra|].
    apply Tv. left. lra.
Qed.

(** A value below the exact value, nearer to it than one of the interval
    that is above it and more than half of [g] away, belongs to the
    interval when the exact value is below [10 ^ 12 * g]. *)
Lemma rounds_to_reflect_down (m : positive) (e : Z) (v w g : Q) :
  bounded prec emax m e = true ->
  rounds_to (Zpos m) e v ->
  (w <= exact_value m e)%Q ->
  (exact_value m e - w < (1 # 2) * g)%Q ->
  ((1 # 2) * g < v - exact_value m e)%Q ->
  (exact_value m e < 1000000000000 * g)%Q ->
  rounds_to (Zpos m) e w.
Proof.
  intros Hb [[Lv Uv] Tv] H1 H2 H3 H4.
  destruct (interval_shape m e Hb) as (EU & EX & EL).
  pose proof (half_ulp_pos e (bounded_emin m e Hb)) as Hh.
  unfold rounds_to. set (X := exact_value m e) in *. set (h := half_ulp e) in *.
  set (lo := lower (Zpos m) e) in *. set (up := upper (Zpos m) e) in *.
  destruct (below_power (Zpos m) e) eqn:Hbp; cbv iota in EL.
  - exfalso. apply andb_prop in Hbp. destruct Hbp as [Hm _].
    apply Z.eqb_eq in Hm. rewrite Hm in EX.
    change (inject_Z (2 * 2 ^ (prec - 1))) with (9007199254740992 # 1) in EX.
    lra.
  - split; [split; lra|]. intros [T|T]; lra.
Qed.

(** The decimal that [toPrecision] writes, before it is brought back to
    [p] digits: the integer nearest to the scaled value, the larger one on
    a tie. *)
Lemma precision_digits_round (m : positive) (e p : Z) :
  1 <= p ->
  let n0 := decimal_exponent (fst (exact_ratio m e)) (snd (exact_ratio m e)) in
  let t := scale10 (fst (exact_ratio m e)) (snd (exact_ratio m e)) (p - n0) in
  0 < fst (precision_digits m e p) /\
  (decimal (fst (precision_digits m e p)) (snd (precision_digits m e p) - p + 1)
   == decimal ((2 * fst t + snd t) / (2 * snd t)) (n0 - p))%Q.
Proof.
  intros Hp. cbv zeta.
  pose proof (precision_digits_nearest m e p Hp) as N.
  unfold precision_digits in *.
  destruct (exact_ratio m e) as [num den]. cbn [fst snd] in *.
  set (n0 := decimal_exponent num den) in *.
  replace (p - 1 - (n0 - 1)) with (p - n0) in * by lia.
  destruct (scale10 num den (p - n0)) as [tn td]. cbn [fst snd] in *.
  pose proof (pow10_pos (p - 1) ltac:(lia)) as P1.
  destruct (Z.eqb_spec ((2 * tn + td) / (2 * td)) (10 ^ p)) as [E|E];
    cbn [fst snd] in *; destruct N as [[L U] _]; (split; [lia|]).
  - rewrite E. unfold decimal.
    rewrite (Zpower_Qpower 10 p), (Zpower_Qpower 10 (p - 1)) by lia.
    rewrite <- !Qpower_plus by discriminate.
    replace (p - 1 + (n0 - 1 + 1 - p + 1)) with (p + (n0 - p)) by lia.
    reflexivity.
  - replace (n0 - 1 - p + 1) with (n0 - p) by lia. reflexivity.
Qed.

Lemma frac_half (a : Z) : (frac (2 * a + 1) 2 == inject_Z a + (1 # 2))%Q.
Proof. unfold frac, Qeq, Qplus, inject_Z. cbn [Qnum Qden Z.to_pos]. lia. Qed.

(** A Number that a 12-digit decimal reads back as is its own rounding to
    twelve digits. *)
Lemma round_to_precision_fixed (sg : bool) (m : positive) (e n j : Z) :
  bounded prec emax m e = true ->
  10 ^ 11 <= n < 10 ^ 12 ->
  of_decimal sg n j = S754_finite sg m e ->
  round_to_precision (S754_finite sg m e) 12 = S754_finite sg m e.
Proof.
  intros Hb Hn Hread.
  unfold round_to_precision. rewrite round_to_precision_finite by lia.
  destruct (precision_digits_round m e 12 ltac:(lia)) as [Hpos Hval].
  apply of_decimal_rounds; [assumption..|].
  apply rounds_to_eq with (1 := Qeq_sym _ _ Hval). clear Hpos Hval.
  apply of_decimal_rounds in Hread; [|lia|assumption].
  pose proof (exact_value_rounds m e Hb) as HX.
  destruct (exact_ratio_pos m e) as [Pn Pd].
  pose proof (decimal_exponent_decade _ _ Pn Pd) as Hdec.
  pose proof (fun w g => rounds_to_reflect_down m e (decimal n j) w g Hb Hread)
    as Down.
  pose proof (fun w => rounds_to_reflect_up m e (decimal n j) w Hb Hread)
    as Up.
  unfold exact_value in *.
  destruct (exact_ratio m e) as [num den]. cbn [fst snd] in *.
  set (n0 := decimal_exponent num den) in *.
  pose proof (scale10_decade num den n0 12 Pn Pd Hdec ltac:(lia)) as Hsc.
  destruct (frac_scale10 num den (12 - n0) Pd) as [_ HT].
  destruct (scale10 num den (12 - n0)) as [tn td]. cbn [fst snd] in *.
  destruct Hsc as [Ptd Ht].
  set (c := 12 - n0) in *.
  replace (n0 - 12) with (- c) by (unfold c; lia).
  destruct (floor_neighbours n (j + c) 12 tn td ltac:(lia) Hn Ptd Ht)
    as [FA FB].
  pose proof (Z.div_mod tn td ltac:(lia)) as DM.
  pose proof (Z.mod_pos_bound tn td ltac:(lia)) as MB.
  set (lo := tn / td) in *.
  assert (Hfl : (inject_Z lo <= frac tn td)%Q).
  { rewrite <- frac_1. apply frac_le; lia. }
  assert (Hce : (frac tn td < inject_Z lo + 1)%Q).
  { change (inject_Z lo + 1)%Q with (inject_Z lo + inject_Z 1)%Q.
    rewrite <- inject_Z_plus, <- frac_1. apply frac_lt; lia. }
  assert (Hup : forall z, (inject_Z (z + 1) == inject_Z z + 1)%Q)
    by (intros z; now rewrite inject_Z_plus).
  assert (Htop : (frac tn td < 1000000000000)%Q).
  { change 1000000000000%Q with (frac (10 ^ 12) 1). apply frac_lt; lia. }
  assert (Hnr : ((2 * tn + td) / (2 * td) = lo /\
                 (frac tn td < inject_Z lo + (1 # 2))%Q) \/
                ((2 * tn + td) / (2 * td) = lo + 1 /\
                 (inject_Z lo + (1 # 2) <= frac tn td)%Q)).
  { destruct (Z.lt_ge_cases (2 * (tn mod td)) td) as [C|C]; [left|right];
      (split; [symmetry; apply (Z.div_unique _ _ _ (2 * (tn mod td) + td - (if Z.ltb (2 * (tn mod td)) td then 0 else 2 * td)))|]).
    - destruct (Z.ltb_spec (2 * (tn mod td)) td); lia.
    - destruct (Z.ltb_spec (2 * (tn mod td)) td); lia.
    - rewrite <- frac_half. apply frac_lt; lia.
    - destruct (Z.ltb_spec (2 * (tn mod td)) td); lia.
    - destruct (Z.ltb_spec (2 * (tn mod td)) td); lia.
    - rewrite <- frac_half. apply frac_le; lia. }
  set (T := frac tn td) in *. set (X := frac num den) in *.
  set (g := (10 ^ (- c))%Q).
  assert (Pg : (0 < g)%Q) by apply pow10_Q_pos.
  assert (Xg : (X == T * g)%Q).
  { unfold g. rewrite HT, <- Qmult_assoc, pow10_Q_cancel. ring. }
  set (V := decimal n (j + c)) in *.
  assert (Dg : (decimal n j == V * g)%Q).
  { unfold V, g. rewrite decimal_shift, <- Qmult_assoc, pow10_Q_cancel. ring. }
  change (decimal ((2 * tn + td) / (2 * td)) (- c))
    with (inject_Z ((2 * tn + td) / (2 * td)) * g)%Q.
  destruct Hnr as [[-> Hlow] | [-> Hhigh]];
    destruct (Qlt_le_dec T V) as [Hgt|Hle].
  - (* the decimal is above, the rounding goes down *)
    specialize (FB Hgt). rewrite Hup in FB.
    apply (Down _ g).
    + rewrite Xg. nra.
    + rewrite Xg. nra.
    + rewrite Xg, Dg. nra.
    + rewrite Xg. nra.
  - specialize (FA Hle).
    apply rounds_to_between with (1 := Hread) (2 := HX).
    rewrite Xg, Dg. split; nra.
  - specialize (FB Hgt). rewrite Hup in FB.
    apply rounds_to_eq with (v := ((inject_Z lo + 1) * g)%Q);
      [now rewrite Hup|].
    apply rounds_to_between with (1 := HX) (2 := Hread).
    rewrite Xg, Dg. split; nra.
  - specialize (FA Hle).
    apply rounds_to_eq with (v := ((inject_Z lo + 1) * g)%Q);
      [now rewrite Hup|].
    apply Up.
    + rewrite Xg, Dg. nra.
    + rewrite Xg. nra.
    + rewrite Xg, Dg. nra.
Qed.

(** ** The shape of a formatted result *)

Lemma round_to_precision_special (x : number) :
  match x with S754_finite _ _ _ => False | _ => True end ->
  round_to_precision x 12 = unsigned_zero x.
Proof.
  destruct x as [[]|[]| |]; intros H; try contradiction;
    vm_compute; reflexivity.
Qed.

(** Rounding a finite Number to twelve digits gives a Number that a
    12-digit decimal reads back as. *)
Lemma round_to_precision_decimal (sg : bool) (m : positive) (e : Z) :
  exists n j, 10 ^ 11 <= n < 10 ^ 12 /\
    round_to_precision (S754_finite sg m e) 12 = of_decimal sg n j.
Proof.
  pose proof (precision_digits_nearest m e 12 ltac:(lia)) as N.
  pose proof (round_to_precision_finite sg m e 12 ltac:(lia)) as R.
  destruct (precision_digits m e 12) as [n e10]. cbn [fst snd] in R.
  exists n, (e10 - 12 + 1). split; [apply N | exact R].
Qed.

Lemma format_formatted (x : number) : formatted (format x).
Proof.
  unfold format.
  destruct x as [s|s| |sg m e];
    try (rewrite round_to_precision_special by exact I;
         cbn; try destruct s; constructor).
  destruct (round_to_precision_decimal sg m e) as (n & j & Hn & ->).
  pose proof (of_decimal_valid sg n j) as V.
  destruct (of_decimal sg n j) as [s'|s'| |sg' m' e'] eqn:E;
    try (cbn; constructor).
  pose proof (of_decimal_sign _ _ _ _ _ _ E) as ->.
  cbn [isFinite]. now apply (formatted_number sg m' e' n j).
Qed.

Lemma formatResult_formatted (x : number) : formatted (formatResult x).
Proof.
  unfold formatResult. cbv zeta. fold (round_to_precision
    (parseFloat (Number_toString x)) 12).
  apply (format_formatted (parseFloat (Number_toString x))).
Qed.

Lemma formatted_fixed (t : string) :
  formatted t -> formatResult (parseFloat t) = t.
Proof.
  intros [|sg m e n j Hb Hn Hr]; [vm_compute; reflexivity|].
  rewrite parseFloat_Number_toString by exact Hb. cbn [unsigned_zero].
  rewrite formatResult_format by exact Hb. unfold format.
  rewrite (round_to_precision_fixed sg m e n j) by assumption.
  reflexivity.
Qed.


(** ** Changing the sign *)

Lemma mul_minus_one (x : number) :
  valid_binary prec emax x = true -> mul x (of_Z (-1)) = SFopp x.
Proof.
  destruct x as [s|s| |sg m e]; intros Hb; try (destruct s; reflexivity);
    [reflexivity|].
  change (of_Z (-1)) with (S754_finite true (2 ^ 52) (-52)).
  unfold mul, SFmul. rewrite Pos2Z.inj_mul.
  change (Zpos (2 ^ 52)) with (2 ^ 52).
  replace (e + -52) with (e - 52) by lia.
  rewrite (binary_round_aux_exact (xorb sg true) m e 52 Hb ltac:(lia)).
  now destruct sg.
Qed.

Lemma SFopp_involutive (x : number) : SFopp (SFopp x) = x.
Proof. destruct x as [[]|[]| |[] m e]; reflexivity. Qed.

Lemma of_decimal_SFopp (sg : bool) (n j : Z) :
  of_decimal (negb sg) n j = SFopp (of_decimal sg n j).
Proof.
  destruct sg; cbn [negb].
  - now rewrite of_decimal_opp, SFopp_involutive.
  - apply of_decimal_opp.
Qed.

Lemma round_to_precision_opp (x : number) :
  round_to_precision (SFopp x) 12
  = match x with
    | S754_zero _ => S754_zero false
    | _ => SFopp (round_to_precision x 12)
    end.
Proof.
  destruct x as [[]|[]| |sg m e]; [vm_compute; reflexivity ..|].
  cbn [SFopp]. unfold round_to_precision.
  rewrite !round_to_precision_finite by lia. apply of_decimal_SFopp.
Qed.

Lemma toString_finite_not_zero (m : positive) (e : Z) :
  bounded prec emax m e = true -> toString_finite m e <> "0".
Proof.
  intros Hb E.
  pose proof (parseFloat_Number_toString (S754_finite false m e) Hb) as P.
  unfold Number_toString in P. cbn [append unsigned_zero] in P.
  rewrite E in P. vm_compute in P. discriminate P.
Qed.

Lemma negate_text_toString (sg : bool) (m : positive) (e : Z) :
  bounded prec emax m e = true ->
  negate_text (Number_toString (S754_finite sg m e))
  = Number_toString (S754_finite (negb sg) m e).
Proof.
  intros Hb. unfold Number_toString.
  destruct (toString_finite_head m e Hb) as (d & rest & E & Hd).
  pose proof (toString_finite_not_zero m e Hb) as NZ.
  rewrite E in *. unfold negate_text. destruct sg; cbn [negb append].
  - reflexivity.
  - destruct (String.eqb_spec (String d rest) "0") as [C|_]; [contradiction|].
    destruct d as [[] [] [] [] [] [] [] []]; try reflexivity;
      discriminate Hd.
Qed.

(** The formatted opposite is the formatted value with the sign changed. *)
Lemma format_opp (x : number) :
  format (SFopp x) = negate_text (format x).
Proof.
  unfold format. rewrite round_to_precision_opp.
  destruct x as [s|s| |sg m e].
  - rewrite round_to_precision_special by exact I. reflexivity.
  - rewrite round_to_precision_special by exact I. reflexivity.
  - reflexivity.
  - destruct (round_to_precision_decimal sg m e) as (n & j & Hn & ->).
    pose proof (of_decimal_valid sg n j) as V.
    destruct (of_decimal sg n j) as [s'|s'| |sg' m' e'] eqn:E;
      try reflexivity.
    cbn [SFopp isFinite]. symmetry. now apply negate_text_toString.
Qed.

Lemma formatResult_opposite (x : number) :
  valid_binary prec emax x = true ->
  formatResult (mul x (of_Z (-1))) = negate_text (formatResult x).
Proof.
  intros Hv. rewrite mul_minus_one by assumption.
  rewrite !formatResult_format; [apply format_opp | assumption |].
  destruct x; try reflexivity. exact Hv.
Qed.

Lemma negate_text_formatted (t : string) :
  formatted t ->
  formatted (negate_text t) /\ negate_text (negate_text t) = t /\
  (negate_text t = "0" -> t = "0").
Proof.
  intros [|sg m e n j Hb Hn Hr]; [repeat split; try reflexivity; constructor|].
  rewrite negate_text_toString by assumption.
  assert (F : formatted (Number_toString (S754_finite (negb sg) m e))).
  { apply (formatted_number (negb sg) m e n j); try assumption.
    now apply (of_decimal_unsigned sg); [lia|..]. }
  split; [exact F|]. split.
  - rewrite negate_text_toString by assumption. now rewrite negb_involutive.
  - intros E. exfalso.
    pose proof (parseFloat_Number_toString (S754_finite (negb sg) m e) Hb)
      as P.
    rewrite E in P. vm_compute in P. discriminate P.
Qed.

Lemma toggleSign_unfold (s : State) :
  hasError s = false -> displayValue s <> "0" ->
  toggleSign s
  = set_displayValue
      (negate_text (formatResult (parseFloat (displayValue s)))) s.
Proof.
  intros He Hd. unfold toggleSign. rewrite He. cbn [orb].
  destruct (String.eqb_spec (displayValue s) DEFAULT_DISPLAY) as [C|_];
    [contradiction|].
  now rewrite formatResult_opposite by apply parseFloat_valid.
Qed.

(** X6.  In a state without error whose display is not ["0"],
    [ToggleSign] shows the formatted value of the display with its sign
    changed: a leading minus sign is removed, or one is put in front, and
    a value that formats as ["0"] stays ["0"]. *)
Theorem toggleSign_changes_sign (s : State) :
  hasError s = false -> displayValue s <> "0" ->
  applyAction ToggleSign s
  = set_displayValue
      (negate_text (formatResult (parseFloat (displayValue s)))) s.
Proof.
  intros He Hd. rewrite applyAction_ToggleSign. now apply toggleSign_unfold.
Qed.

Lemma toggleSign_changes_sign_witness :
  applyAction ToggleSign (run [Digit D5] initialState)
  = mkState "-5" None None false false /\
  applyAction ToggleSign
    (applyAction ToggleSign (run [Digit D5] initialState))
  = mkState "5" None None false false.
Proof.
  assert (H : applyAction ToggleSign (run [Digit D5] initialState)
              = mkState "-5" None None false false).
  { rewrite (toggleSign_changes_sign (run [Digit D5] initialState) eq_refl);
      [vm_compute; reflexivity | discriminate]. }
  split; [exact H|]. rewrite H.
  rewrite (toggleSign_changes_sign (mkState "-5" None None false false)
             eq_refl);
    [vm_compute; reflexivity | discriminate].
Defined.

(** X7.  Formatting is idempotent: reading a formatted result back and
    formatting it again returns the same text, for every Number. *)
Theorem formatResult_idempotent (x : number) :
  formatResult (parseFloat (formatResult x)) = formatResult x.
Proof. apply formatted_fixed, formatResult_formatted. Qed.

(** X11.  In a state without error, [ToggleSign] twice leaves the
    formatted value of the display, and changes no other field: the sign is
    back, and the display is normalised as [formatResult] writes it. *)
Theorem toggleSign_twice (s : State) :
  hasError s = false ->
  run [ToggleSign; ToggleSign] s
  = set_displayValue (formatResult (parseFloat (displayValue s))) s.
Proof.
  intros He. cbn [run fold_left].
  rewrite (applyAction_ToggleSign s), applyAction_ToggleSign.
  destruct (String.eqb_spec (displayValue s) "0") as [Hz|Hnz].
  - assert (Stay : toggleSign s = s).
    { unfold toggleSign. rewrite He, Hz. reflexivity. }
    rewrite !Stay. destruct s as [dv cv po aw he]. cbn in *. subst.
    vm_compute. reflexivity.
  - rewrite (toggleSign_unfold s He Hnz).
    pose proof (formatResult_formatted (parseFloat (displayValue s))) as F.
    destruct (negate_text_formatted _ F) as (F' & Inv & Z0).
    set (t := formatResult (parseFloat (displayValue s))) in *.
    destruct (String.eqb_spec (negate_text t) "0") as [E|N].
    + rewrite E. rewrite (Z0 E). unfold toggleSign, set_displayValue. cbn.
      rewrite He. reflexivity.
    + rewrite toggleSign_unfold; [|exact He | exact N].
      cbn [displayValue set_displayValue currentValue pendingOperator
           awaitingNextValue hasError].
      now rewrite (formatted_fixed _ F'), Inv.
Qed.

Lemma toggleSign_twice_witness :
  run [ToggleSign; ToggleSign]
    (run [Decimal; Digit D5; Digit D0] initialState)
  = mkState "0.5" None None false false.
Proof.
  rewrite (toggleSign_twice (run [Decimal; Digit D5; Digit D0] initialState)
             eq_refl).
  vm_compute. reflexivity.
Defined.

(** ** The view *)

Lemma BUTTON_ROWS_layout :
  map (fun row => map (fun b => mkButton (lb_id b) (lb_action b) (lb_value b))
                    (lr_buttons row)) BUTTON_ROWS
  = BUTTON_LAYOUT.
Proof. reflexivity. Qed.

Lemma active_buttons_state (dv : string) (cv : option number)
    (po : option string) (aw he : bool) :
  active_buttons (mkState dv cv po aw he)
  = active_buttons (mkState "" None po aw false).
Proof. reflexivity. Qed.

(** X12.  In every state reached from the initial state, no button of
    the view has the class [active] unless an operand is awaited, and
    then exactly one has: the button of the pending operator. *)
Theorem active_button_is_pending_operator (actions : list action) :
  let s := run actions initialState in
  (awaitingNextValue s = false -> active_buttons s = []) /\
  (awaitingNextValue s = true ->
   exists op, pendingOperator s = Some (operator_string op) /\
              active_buttons s = [operator_button op]).
Proof.
  cbv zeta.
  destruct (invariant_run actions initialState invariant_initial)
    as (_ & _ & I3 & I4 & _).
  destruct (run actions initialState) as [dv cv po aw he].
  cbn [awaitingNextValue pendingOperator] in *.
  rewrite active_buttons_state. split; intros ->.
  - destruct I4 as [->|[op ->]]; [reflexivity|]. destruct op; reflexivity.
  - destruct I4 as [->|[op ->]]; [now specialize (I3 eq_refl)|].
    exists op. split; [reflexivity|]. destruct op; reflexivity.
Qed.

(** X13.  In every state, the buttons of the view carry, in the order
    of the layout, the [data-action] and [data-value] of the nineteen keys,
    an empty [data-value] where the layout has none, and every key is among
    them; each class string is the one [resolveClassName] computes and
    starts with the classes [slds-button] and [calc-button]; the class
    [double-span] is on the button [btn-0] only. *)
Theorem view_buttons_dispatch (s : State) :
  map (fun b => (lb_action (vb_button b), vb_dataValue b)) (view_buttons s)
  = map dataset layout_actions /\
  (forall a : action, In a layout_actions) /\
  (forall b, In b (view_buttons s) ->
     vb_className b = resolveClassName (vb_button b) s /\
     exists rest, class_list (vb_className b) ""
                  = "slds-button" :: "calc-button" :: rest) /\
  map (fun b => lb_id (vb_button b))
    (filter (has_class "double-span") (view_buttons s)) = ["btn-0"].
Proof.
  split; [reflexivity|]. split.
  { intros [[]| |[]| | | |]; cbn; tauto. }
  destruct s as [dv cv po aw he].
  assert (C : forall b, In b (view_buttons (mkState dv cv po aw he)) ->
            vb_className b
            = resolveClassName (vb_button b) (mkState dv cv po aw he)).
  { intros b Hb. unfold view_buttons, buttonRows in Hb.
    apply in_flat_map in Hb. destruct Hb as (row & Hrow & Hb).
    apply in_map_iff in Hrow. destruct Hrow as (lr & <- & _).
    cbn [vr_buttons] in Hb. apply in_map_iff in Hb.
    destruct Hb as (lb & <- & _). reflexivity. }
  split.
  - intros b Hb. split; [now apply C|].
    unfold view_buttons, buttonRows in Hb.
    apply in_flat_map in Hb. destruct Hb as (row & Hrow & Hb).
    apply in_map_iff in Hrow. destruct Hrow as (lr & <- & Hlr).
    cbn [vr_buttons] in Hb. apply in_map_iff in Hb.
    destruct Hb as (lb & <- & Hlb). cbn [vb_className].
    cbn in Hlr.
    repeat (destruct Hlr as [<-|Hlr]; [cbn in Hlb|]); try contradiction;
      repeat (destruct Hlb as [<-|Hlb];
              [unfold resolveClassName, resolveClasses; cbn;
               try (destruct (same_operator po _ && aw));
               eexists; reflexivity|]); contradiction.
  - destruct aw; destruct po as [po|]; try reflexivity;
      unfold view_buttons, buttonRows, has_class; cbn;
      unfold resolveClassName, resolveClasses; cbn;
      destruct (po =? "/")%string, (po =? "*")%string, (po =? "-")%string,
        (po =? "+")%string; reflexivity.
Qed.

(** * The clock *)

(** ** Rounding in general *)
Lemma rounds_to_frac (m e N Dn X Y W : Z) :
  0 < W -> 0 < Dn ->
  N * Zpos unit_scale = X * W ->
  2 ^ (e - emin prec emax) * Dn = Y * W ->
  (if below_power m e then 4 * m - 1 else 4 * m - 2) * Y <= X
  <= (4 * m + 2) * Y ->
  (X = (if below_power m e then 4 * m - 1 else 4 * m - 2) * Y
   \/ X = (4 * m + 2) * Y -> Z.even m = true) ->
  rounds_to m e (frac N Dn).
Proof.
  intros HW HD EN EP [B1 B2] T.
  unfold rounds_to, lower, upper, Lz, Uz, frac, Qle, Qeq. cbn [Qnum Qden].
  rewrite Z2Pos.id by assumption. rewrite EN.
  set (k := if below_power m e then 4 * m - 1 else 4 * m - 2) in *.
  set (P := 2 ^ (e - emin prec emax)) in *.
  assert (G1 : k * P * Dn = k * Y * W) by (rewrite <- !Z.mul_assoc, EP; ring).
  assert (G2 : (4 * m + 2) * P * Dn = (4 * m + 2) * Y * W)
    by (rewrite <- !Z.mul_assoc, EP; ring).
  rewrite G1, G2. split.
  - split; apply Z.mul_le_mono_nonneg_r; lia.
  - intros [H|H]; apply T; [left|right];
      apply Z.mul_cancel_r in H; lia.
Qed.

Lemma binary_round_aux_rounds (sx : bool) (q e' : Z) (l : location)
  (N D : Z) :
  0 <= q -> e' <= fexp prec emax (Zdigits2 q + e') ->
  emin prec emax <= e' <= 0 ->
  represents (shr_record_of_loc q l) N D ->
  exists m e, pseudo m e /\ rounds_to m e (frac N (D * 2 ^ (- e'))) /\
    binary_round_aux prec emax sx q e' l = pseudo_number sx m e.
Proof.
  intros Hq Hfe He' Hrep.
  destruct (binary_round_aux_char sx q e' l _ _ Hq Hfe Hrep)
    as (m1 & M & E & HE & Hps1 & Hm1 & HM & (Hn & Hpar) & Hres).
  assert (HD : 0 < D) by (destruct Hrep; assumption).
  assert (Hemin : emin prec emax <= E) by lia.
  set (W := 2 ^ (- e')).
  set (P := 2 ^ (E - emin prec emax)).
  set (c := 2 ^ (e' - emin prec emax)).
  set (D' := D * 2 ^ (E - e')) in *.
  set (X := 4 * (N * c)).
  set (Y := D' * c).
  assert (PW : 0 < W) by (apply Z.pow_pos_nonneg; lia).
  assert (Pc : 0 < c) by (apply Z.pow_pos_nonneg; lia).
  assert (PP : 0 < P) by (apply Z.pow_pos_nonneg; lia).
  assert (PD' : 0 < D').
  { unfold D'. apply Z.mul_pos_pos; [lia | apply Z.pow_pos_nonneg; lia]. }
  assert (PY : 0 < Y) by (unfold Y; lia).
  assert (EN : N * Zpos unit_scale = X * W).
  { unfold X, W, c. rewrite unit_scale_eq.
    replace (2 - emin prec emax) with (2 + (- e' + (e' - emin prec emax)))
      by lia.
    rewrite !Z.pow_add_r by lia. change (2 ^ 2) with 4. ring. }
  assert (EY : forall E', E' - e' = E - e' \/ E' - e' = 1 + (E - e') ->
               2 ^ (E' - emin prec emax) * (D * W)
               = 2 ^ (E' - e' - (E - e')) * Y * W).
  { intros E' HE'. unfold Y, D', c.
    replace (E' - emin prec emax)
      with ((E' - e' - (E - e')) + ((E - e') + (e' - emin prec emax))) by lia.
    rewrite !Z.pow_add_r by lia. ring. }
  assert (B1 : (4 * M - 2) * Y <= X <= (4 * M + 2) * Y).
  { unfold X, Y. nia. }
  assert (B2 : 4 * m1 * Y <= X < 4 * (m1 + 1) * Y).
  { unfold X, Y. nia. }
  assert (T1 : X = (4 * M - 2) * Y \/ X = (4 * M + 2) * Y ->
               Z.even M = true).
  { intros Ht. apply Hpar. unfold X, Y in Ht. nia. }
  destruct Hres as [[HpsM ->] | (EM & EM1 & ->)].
  - exists M, E. split; [exact HpsM|]. split; [|reflexivity].
    apply rounds_to_frac with (X := X) (Y := Y) (W := W); try assumption.
    + unfold W. apply Z.mul_pos_pos; [lia | apply Z.pow_pos_nonneg; lia].
    + rewrite (EY E) by lia. rewrite Z.sub_diag. change (2 ^ 0) with 1. ring.
    + destruct (below_power M E) eqn:Hbp; [|exact B1].
      apply andb_prop in Hbp. destruct Hbp as [Hb1 Hb2].
      apply Z.eqb_eq in Hb1. apply Z.ltb_lt in Hb2.
      destruct (pseudo_digits m1 E Hps1) as [_ Hd]. specialize (Hd Hb2).
      assert (0 < m1).
      { destruct (Z.eq_dec m1 0) as [Z0|NZ]; [|destruct Hps1; lia].
        rewrite Z0 in Hd. cbn in Hd. unfold prec in Hd. lia. }
      pose proof (Zdigits2_bounds m1 ltac:(lia)) as [L1 _].
      rewrite Hd in L1.
      assert (EMm : M = m1) by lia.
      split; [|apply B1].
      apply Z.le_trans with (4 * m1 * Y); [|apply B2].
      rewrite EMm. apply Z.mul_le_mono_nonneg_r; lia.
    + destruct (below_power M E) eqn:Hbp.
      * intros _. apply andb_prop in Hbp. destruct Hbp as [Hb1 _].
        apply Z.eqb_eq in Hb1. rewrite Hb1. reflexivity.
      * exact T1.
  - exists (2 ^ (prec - 1)), (E + 1). split; [|split; [|reflexivity]].
    + split; [apply Z.pow_nonneg; lia|]. split; [|intros A; discriminate A].
      intros _. change (Zdigits2 (2 ^ (prec - 1))) with prec.
      destruct Hps1 as (H0 & Hc & Hz).
      assert (Hm1' : 0 < m1).
      { assert (2 ^ prec = 9007199254740992) by reflexivity. lia. }
      specialize (Hc Hm1').
      assert (Hd : Zdigits2 m1 = prec).
      { apply Zdigits2_unique; [|lia]. split; [|lia].
        assert (E2 : 2 * 2 ^ (prec - 1) = 2 ^ prec) by reflexivity.
        assert (0 < 2 ^ (prec - 1)) by (apply Z.pow_pos_nonneg; unfold prec; lia).
        lia. }
      rewrite Hd in Hc. unfold fexp, prec in *. lia.
    + assert (Hbp : below_power (2 ^ (prec - 1)) (E + 1) = true).
      { unfold below_power. rewrite Z.eqb_refl.
        apply andb_true_intro. split; [reflexivity|]. apply Z.ltb_lt. lia. }
      apply rounds_to_frac with (X := X) (Y := 2 * Y) (W := W);
        try assumption.
      * unfold W. apply Z.mul_pos_pos; [lia | apply Z.pow_pos_nonneg; lia].
      * rewrite (EY (E + 1)) by lia.
        replace (E + 1 - e' - (E - e')) with 1 by lia.
        change (2 ^ 1) with 2. ring.
      * rewrite Hbp.
        assert (E2 : 2 * 2 ^ (prec - 1) = 2 ^ prec) by reflexivity.
        replace (4 * 2 ^ (prec - 1) - 1) with (2 * M - 1) by lia.
        replace (4 * 2 ^ (prec - 1) + 2) with (2 * M + 2) by lia.
        clear - B1 B2 PY EM1. nia.
      * intros _. reflexivity.
Qed.

Lemma shl_align_spec (mx : positive) (ex ex' : Z) :
  exists d, 0 <= d /\ (ex' < ex -> d = ex - ex') /\ (ex <= ex' -> d = 0) /\
    Zpos (fst (shl_align mx ex ex')) = Zpos mx * 2 ^ d /\
    snd (shl_align mx ex ex') = ex - d.
Proof.
  unfold shl_align. destruct (ex' - ex) as [|p|p] eqn:E.
  - exists 0. cbn [fst snd]. repeat split; lia.
  - exists 0. cbn [fst snd]. repeat split; lia.
  - exists (Zpos p). cbn [fst snd]. repeat split; try lia.
    change (Pos.iter xO mx p) with (shift_pos p mx).
    rewrite shift_pos_correct. change (Z.pow_pos 2 p) with (2 ^ Zpos p). ring.
Qed.

Lemma digits2_shift (mx mz : positive) (d : Z) :
  0 <= d -> Zpos mz = Zpos mx * 2 ^ d ->
  Zpos (digits2_pos mz) = Zpos (digits2_pos mx) + d.
Proof.
  intros Hd E. apply digits2_unique. rewrite E.
  pose proof (digits2_bounds mx) as [L U].
  assert (P : 0 < 2 ^ d) by (apply Z.pow_pos_nonneg; lia).
  replace (Zpos (digits2_pos mx) + d - 1)
    with ((Zpos (digits2_pos mx) - 1) + d) by lia.
  rewrite !Z.pow_add_r by lia. split; nia.
Qed.

(** [binary_round] rounds [mx * 2 ^ ex]. *)
Lemma binary_round_rounds (sx : bool) (mx : positive) (ex : Z) :
  emin prec emax <= ex <= 0 ->
  exists m e, pseudo m e /\
    rounds_to m e (frac (Zpos mx) (2 ^ (- ex))) /\
    binary_round prec emax sx mx ex = pseudo_number sx m e.
Proof.
  intros Hex. unfold binary_round.
  set (e0 := fexp prec emax (Zpos (digits2_pos mx) + ex)).
  destruct (shl_align_spec mx ex e0) as (d & Hd & Hlt & Hge & Hm & He).
  destruct (shl_align mx ex e0) as [mz ez]. cbn [fst snd] in Hm, He.
  pose proof (digits2_shift mx mz d Hd Hm) as Hdig.
  pose proof (fexp_ge_emin (Zpos (digits2_pos mx) + ex)) as Hmin.
  fold e0 in Hmin.
  assert (Hfe : ez <= fexp prec emax (Zdigits2 (Zpos mz) + ez)).
  { cbn [Zdigits2]. rewrite Hdig, He.
    replace (Zpos (digits2_pos mx) + d + (ex - d))
      with (Zpos (digits2_pos mx) + ex) by lia.
    fold e0. lia. }
  assert (Hez : emin prec emax <= ez <= 0) by lia.
  destruct (binary_round_aux_rounds sx (Zpos mz) ez loc_Exact (Zpos mz) 1)
    as (m & e & Hps & Hr & Hres); try assumption; try lia.
  { unfold represents.
    rewrite shr_record_of_loc_m, loc_of_shr_record_of_loc.
    replace (Zpos mz - Zpos mz * 1) with 0 by lia.
    split; [lia|]. split; [lia|]. reflexivity. }
  exists m, e. split; [exact Hps|]. split; [|exact Hres].
  apply rounds_to_eq with (2 := Hr).
  assert (P1 : 0 < 2 ^ (- ez)) by (apply Z.pow_pos_nonneg; lia).
  assert (P2 : 0 < 2 ^ (- ex)) by (apply Z.pow_pos_nonneg; lia).
  apply frac_eq; [lia | lia |].
  rewrite Hm, He. replace (- (ex - d)) with (- ex + d) by lia.
  rewrite Z.pow_add_r by lia. ring.
Qed.

(** [binary_normalize] rounds [M * 2 ^ ex]. *)
Lemma binary_normalize_rounds (M ex : Z) (sz : bool) :
  M <> 0 -> emin prec emax <= ex <= 0 ->
  exists m e, pseudo m e /\
    rounds_to m e (frac (Z.abs M) (2 ^ (- ex))) /\
    binary_normalize prec emax M ex sz = pseudo_number (M <? 0) m e.
Proof.
  intros HM Hex. destruct M as [|p|p]; [congruence| |].
  - apply (binary_round_rounds false p ex Hex).
  - apply (binary_round_rounds true p ex Hex).
Qed.

(** Two roundings of the same fraction give the same Number. *)
Lemma pseudo_number_unique (sx : bool) (m1 e1 m2 e2 : Z) (v w : Q) :
  pseudo m1 e1 -> pseudo m2 e2 -> rounds_to m1 e1 v -> rounds_to m2 e2 w ->
  (v == w)%Q -> pseudo_number sx m1 e1 = pseudo_number sx m2 e2.
Proof.
  intros P1 P2 R1 R2 E.
  destruct (rounds_to_unique m1 e1 m2 e2 w P1 P2) as [-> ->];
    [apply rounds_to_eq with (1 := E) | |]; auto.
Qed.

(** The division of two Numbers with exponents [e1] and [e2]. *)
Lemma SFdiv_core_general (a b : positive) (e1 e2 : Z) :
  emin prec emax <= e1 - e2 ->
  fexp prec emax (Zpos (digits2_pos a) + e1 - (Zpos (digits2_pos b) + e2))
  <= 0 ->
  exists q e' l,
    SFdiv_core_binary prec emax (Zpos a) e1 (Zpos b) e2 = (q, e', l) /\
    emin prec emax <= e' <= 0 /\ e' <= e1 - e2 /\
    0 <= q /\ e' <= fexp prec emax (Zdigits2 q + e') /\
    represents (shr_record_of_loc q l) (Zpos a * 2 ^ (e1 - e2 - e')) (Zpos b).
Proof.
  intros Hg Hf. unfold SFdiv_core_binary. cbn [Zdigits2].
  pose proof (digits2_bounds a) as [La Ua].
  pose proof (digits2_bounds b) as [Lb Ub].
  set (d1 := Zpos (digits2_pos a)) in *.
  set (d2 := Zpos (digits2_pos b)) in *.
  set (e' := Z.min (fexp prec emax (d1 + e1 - (d2 + e2))) (e1 - e2)).
  pose proof (fexp_ge_emin (d1 + e1 - (d2 + e2))) as Hmin.
  assert (He' : emin prec emax <= e' <= 0 /\ e' <= e1 - e2 /\
                e' <= fexp prec emax (d1 + e1 - (d2 + e2)))
    by (unfold e'; lia).
  destruct He' as (He1 & He2 & He3).
  set (m' := match e1 - e2 - e' with
             | Z0 => Zpos a
             | Zpos _ => Z.shiftl (Zpos a) (e1 - e2 - e')
             | Zneg _ => 0
             end).
  assert (Hm' : m' = Zpos a * 2 ^ (e1 - e2 - e')).
  { unfold m'. destruct (e1 - e2 - e') as [|p|p] eqn:Es; [| |lia].
    - simpl. lia.
    - now rewrite Z.shiftl_mul_pow2 by lia. }
  assert (Hq : Z.div_eucl m' (Zpos b) = (m' / Zpos b, m' mod Zpos b)).
  { unfold Z.div, Z.modulo. now destruct (Z.div_eucl m' (Zpos b)). }
  rewrite Hq. eexists _, _, _. split; [reflexivity|].
  assert (P : 0 < 2 ^ (e1 - e2 - e')) by (apply Z.pow_pos_nonneg; lia).
  assert (Q0 : 0 <= m' / Zpos b) by (apply Z.div_pos; lia).
  split; [exact He1|]. split; [exact He2|]. split; [exact Q0|]. split.
  - eapply Z.le_trans; [apply He3|]. apply fexp_mono.
    set (t := d1 - 1 + (e1 - e2 - e') - d2).
    assert (Ht : t + 1 <= Zdigits2 (m' / Zpos b)).
    { destruct (Z.ltb_spec t 0) as [N|G].
      - pose proof (Zdigits2_nonneg (m' / Zpos b)). lia.
      - assert (X : 2 ^ t <= m' / Zpos b).
        { apply Z.div_le_lower_bound; [lia|].
          assert (Y : 2 ^ t * 2 ^ d2 = 2 ^ (d1 - 1) * 2 ^ (e1 - e2 - e')).
          { rewrite <- !Z.pow_add_r by (unfold d1, d2 in *; lia).
            f_equal. unfold t. lia. }
          assert (0 < 2 ^ t) by (apply Z.pow_pos_nonneg; lia).
          rewrite Hm'. nia. }
        assert (0 < m' / Zpos b).
        { assert (0 < 2 ^ t) by (apply Z.pow_pos_nonneg; lia). lia. }
        pose proof (Zdigits2_bounds _ H) as [_ U].
        assert (Z' : 2 ^ t < 2 ^ Zdigits2 (m' / Zpos b)) by lia.
        apply pow2_lt_inv in Z'; [lia | apply Zdigits2_nonneg]. }
    unfold t in Ht. lia.
  - rewrite <- Hm'.
    pose proof (Z.div_mod m' (Zpos b) ltac:(lia)) as DM.
    pose proof (Z.mod_pos_bound m' (Zpos b) ltac:(lia)) as MB.
    assert (E : m' - m' / Zpos b * Zpos b = m' mod Zpos b) by lia.
    unfold represents.
    rewrite shr_record_of_loc_m, loc_of_shr_record_of_loc, E.
    split; [lia|]. split; [lia|]. apply new_location_spec.
Qed.

(** The quotient of two Numbers with exponents in the range of the
    integers rounds the quotient of their values. *)
Lemma SFdiv_rounds (sx sy : bool) (mx my : positive) (ex ey : Z) :
  bounded prec emax mx ex = true -> bounded prec emax my ey = true ->
  - prec < ex <= 0 -> - prec < ey <= 0 ->
  exists m e, pseudo m e /\
    rounds_to m e (frac (Zpos mx * 2 ^ (- ey)) (Zpos my * 2 ^ (- ex))) /\
    div (S754_finite sx mx ex) (S754_finite sy my ey)
    = pseudo_number (xorb sx sy) m e.
Proof.
  intros Bx By Hex Hey.
  destruct (bounded_canonical mx ex Bx) as [Cx _].
  destruct (bounded_canonical my ey By) as [Cy _].
  assert (Dx : Zpos (digits2_pos mx) = prec).
  { unfold fexp, emin, prec, emax in *. lia. }
  assert (Dy : Zpos (digits2_pos my) = prec).
  { unfold fexp, emin, prec, emax in *. lia. }
  destruct (SFdiv_core_general mx my ex ey)
    as (q & e' & l & Hdiv & He' & Hle & Hq & Hfe & Hrep).
  { unfold emin, prec, emax in *. lia. }
  { rewrite Dx, Dy. unfold fexp, emin, prec, emax in *. lia. }
  destruct (binary_round_aux_rounds (xorb sx sy) q e' l _ _ Hq Hfe He' Hrep)
    as (m & e & Hps & Hr & Hres).
  exists m, e. split; [exact Hps|]. split.
  - apply rounds_to_eq with (2 := Hr).
    assert (P1 : 0 < 2 ^ (- e')) by (apply Z.pow_pos_nonneg; lia).
    assert (P2 : 0 < 2 ^ (- ex)) by (apply Z.pow_pos_nonneg; lia).
    assert (P3 : 0 < 2 ^ (- ey)) by (apply Z.pow_pos_nonneg; lia).
    apply frac_eq; [lia | lia |].
    replace (- e') with ((ex - ey - e') + (- ex) - (- ey)) at 1 by lia.
    assert (E1 : 2 ^ (ex - ey - e' + - ex - - ey) * 2 ^ (- ey)
                 = 2 ^ (ex - ey - e') * 2 ^ (- ex)).
    { rewrite <- !Z.pow_add_r by lia. f_equal. lia. }
    set (A := 2 ^ (ex - ey - e' + - ex - - ey)) in *.
    set (B := 2 ^ (ex - ey - e')) in *.
    set (C := 2 ^ (- ex)) in *. set (F := 2 ^ (- ey)) in *.
    transitivity (Zpos mx * Zpos my * (B * C)); [ring|].
    rewrite <- E1. ring.
  - unfold div, SFdiv. rewrite Hdiv. exact Hres.
Qed.

(** ** Rounding keeps the order *)

Lemma rounds_to_window (m e N D : Z) :
  emin prec emax <= e <= 1 -> 0 < D -> rounds_to m e (frac N D) ->
  (2 * m - 1) * D <= N * 2 ^ (1 - e) <= (2 * m + 1) * D.
Proof.
  intros He HD [[H1 H2] _].
  unfold lower, upper, Lz, Uz, frac, Qle in H1, H2. cbn [Qnum Qden] in H1, H2.
  rewrite Z2Pos.id in H1, H2 by assumption.
  rewrite unit_scale_eq in H1, H2.
  set (P := 2 ^ (e - emin prec emax)) in *.
  assert (PP : 0 < P) by (apply Z.pow_pos_nonneg; lia).
  assert (PW : 0 < 2 ^ (1 - e)) by (apply Z.pow_pos_nonneg; lia).
  assert (EU : 2 ^ (2 - emin prec emax) = 2 ^ (1 - e) * (2 * P)).
  { unfold P. change 2 with (2 ^ 1) at 4. rewrite <- !Z.pow_add_r by lia.
    f_equal. lia. }
  rewrite EU in H1, H2. set (W := 2 ^ (1 - e)) in *.
  assert (K : (4 * m - 2) * P
              <= (if below_power m e then 4 * m - 1 else 4 * m - 2) * P).
  { apply Z.mul_le_mono_nonneg_r; [lia|]. destruct (below_power m e); lia. }
  assert (G1 : (2 * m - 1) * D * (2 * P) <= N * W * (2 * P)).
  { replace ((2 * m - 1) * D * (2 * P)) with ((4 * m - 2) * P * D) by ring.
    replace (N * W * (2 * P)) with (N * (W * (2 * P))) by ring.
    apply Z.le_trans with (2 := H1). apply Z.mul_le_mono_nonneg_r; lia. }
  assert (G2 : N * W * (2 * P) <= (2 * m + 1) * D * (2 * P)).
  { replace ((2 * m + 1) * D * (2 * P)) with ((4 * m + 2) * P * D) by ring.
    replace (N * W * (2 * P)) with (N * (W * (2 * P))) by ring. exact H2. }
  split; apply Z.mul_le_mono_pos_r with (p := 2 * P); lia.
Qed.

(** A threshold [c / 2 ^ g] that is a multiple of the unit of the result
    stays on its side. *)
Lemma rounds_to_ge (m e N D c g : Z) :
  emin prec emax <= e -> 0 <= g <= - e -> 0 < D ->
  rounds_to m e (frac N D) ->
  c * D <= N * 2 ^ g -> c * 2 ^ (- e - g) <= m.
Proof.
  intros He Hg HD Hr Hc.
  destruct (rounds_to_window m e N D ltac:(lia) HD Hr) as [_ W2].
  set (A := 2 ^ g) in *. set (B := 2 ^ (- e - g)).
  assert (PA : 0 < A) by (apply Z.pow_pos_nonneg; lia).
  assert (PB : 0 < B) by (apply Z.pow_pos_nonneg; lia).
  assert (EW : 2 ^ (1 - e) = 2 * (A * B)).
  { unfold A, B. rewrite <- Z.pow_add_r by lia.
    replace (1 - e) with (1 + (g + (- e - g))) by lia.
    rewrite Z.pow_add_r by lia. reflexivity. }
  rewrite EW in W2.
  assert (G : 2 * (c * B) * D <= (2 * m + 1) * D).
  { apply Z.le_trans with (2 := W2).
    replace (2 * (c * B) * D) with (c * D * (2 * B)) by ring.
    replace (N * (2 * (A * B))) with (N * A * (2 * B)) by ring.
    apply Z.mul_le_mono_nonneg_r; lia. }
  apply Z.mul_le_mono_pos_r in G; lia.
Qed.

Lemma rounds_to_le (m e N D c g : Z) :
  emin prec emax <= e -> 0 <= g <= - e -> 0 < D ->
  rounds_to m e (frac N D) ->
  N * 2 ^ g <= c * D -> m <= c * 2 ^ (- e - g).
Proof.
  intros He Hg HD Hr Hc.
  destruct (rounds_to_window m e N D ltac:(lia) HD Hr) as [W1 _].
  set (A := 2 ^ g) in *. set (B := 2 ^ (- e - g)).
  assert (PA : 0 < A) by (apply Z.pow_pos_nonneg; lia).
  assert (PB : 0 < B) by (apply Z.pow_pos_nonneg; lia).
  assert (EW : 2 ^ (1 - e) = 2 * (A * B)).
  { unfold A, B. rewrite <- Z.pow_add_r by lia.
    replace (1 - e) with (1 + (g + (- e - g))) by lia.
    rewrite Z.pow_add_r by lia. reflexivity. }
  rewrite EW in W1.
  assert (G : (2 * m - 1) * D <= 2 * (c * B) * D).
  { apply Z.le_trans with (1 := W1).
    replace (2 * (c * B) * D) with (c * D * (2 * B)) by ring.
    replace (N * (2 * (A * B))) with (N * A * (2 * B)) by ring.
    apply Z.mul_le_mono_nonneg_r; lia. }
  apply Z.mul_le_mono_pos_r in G; lia.
Qed.

(** A value below [2 ^ g] has an exponent of at most [g - 52]. *)
Lemma rounds_to_exponent (m e N D g : Z) :
  pseudo m e -> 0 < D -> rounds_to m e (frac N D) ->
  0 <= g -> N < D * 2 ^ g -> emin prec emax <= g - (prec - 1) ->
  e <= g - (prec - 1).
Proof.
  intros Hps HD [[H1 _] _] Hg HN Hmin.
  destruct (Z.le_gt_cases e (g - (prec - 1))) as [L|G]; [exact L|exfalso].
  destruct (pseudo_range m e Hps) as [_ Hm]. specialize (Hm ltac:(lia)).
  unfold lower, Lz, frac, Qle in H1. cbn [Qnum Qden] in H1.
  rewrite Z2Pos.id in H1 by assumption. rewrite unit_scale_eq in H1.
  set (P0 := 2 ^ (g - (prec - 2) - emin prec emax)).
  set (T := 2 ^ (e - (g - (prec - 2)))).
  assert (PP0 : 0 < P0) by (apply Z.pow_pos_nonneg; lia).
  assert (PT : 0 < T) by (apply Z.pow_pos_nonneg; lia).
  assert (EP : 2 ^ (e - emin prec emax) = T * P0).
  { unfold T, P0. rewrite <- Z.pow_add_r by lia. f_equal. lia. }
  assert (EU : 2 ^ g * 2 ^ (2 - emin prec emax) = 2 ^ prec * P0).
  { unfold P0. rewrite <- !Z.pow_add_r by (unfold emin, prec, emax in *; lia).
    f_equal. unfold prec. lia. }
  rewrite EP in H1.
  assert (K : (4 * m - 2) * (T * P0)
              <= (if below_power m e then 4 * m - 1 else 4 * m - 2)
                 * (T * P0)).
  { apply Z.mul_le_mono_nonneg_r; [lia|]. destruct (below_power m e); lia. }
  assert (E1 : 2 ^ (prec - 1) = 4503599627370496) by reflexivity.
  assert (E2 : 2 ^ prec = 9007199254740992) by reflexivity.
  rewrite E1 in Hm. rewrite E2 in EU.
  set (U := 2 ^ (2 - emin prec emax)) in *.
  set (G2 := 2 ^ g) in *.
  assert (S1 : N * U < D * G2 * U).
  { apply Z.mul_lt_mono_pos_r; [|lia].
    unfold U. apply Z.pow_pos_nonneg; unfold emin, prec, emax; lia. }
  assert (S2 : D * G2 * U = 9007199254740992 * (P0 * D)).
  { rewrite <- Z.mul_assoc, EU. ring. }
  assert (S3 : (4 * m - 2) * (T * P0) * D < 9007199254740992 * (P0 * D)).
  { rewrite <- S2. apply Z.le_lt_trans with (2 := S1).
    apply Z.le_trans with (2 := H1). apply Z.mul_le_mono_nonneg_r; lia. }
  replace ((4 * m - 2) * (T * P0) * D) with ((4 * m - 2) * T * (P0 * D))
    in S3 by ring.
  assert (PD : 0 < P0 * D) by (apply Z.mul_pos_pos; lia).
  apply Z.mul_lt_mono_pos_r in S3; [|exact PD]. nia.
Qed.

(** A value of at least [2 ^ emin] does not round to zero. *)
Lemma rounds_to_positive (m e N D : Z) :
  pseudo m e -> 0 < D -> rounds_to m e (frac N D) ->
  D <= N * 2 ^ (- emin prec emax) -> 0 < m.
Proof.
  intros Hps HD [[_ H2] _] HN.
  destruct Hps as (H0 & _ & Hz).
  destruct (Z.eq_dec m 0) as [E0|NZ]; [|lia]. exfalso.
  specialize (Hz E0). subst m e.
  unfold upper, Uz, frac, Qle in H2. cbn [Qnum Qden] in H2.
  rewrite Z2Pos.id in H2 by assumption. rewrite unit_scale_eq in H2.
  rewrite Z.sub_diag in H2. change (2 ^ 0) with 1 in H2.
  assert (EU : 2 ^ (2 - emin prec emax) = 4 * 2 ^ (- emin prec emax))
    by reflexivity.
  rewrite EU in H2. set (V := 2 ^ (- emin prec emax)) in *.
  assert (PV : 0 < V) by (apply Z.pow_pos_nonneg; unfold emin, prec, emax; lia).
  nia.
Qed.

Lemma pseudo_finite (sx : bool) (p : positive) (e : Z) :
  pseudo (Zpos p) e -> e <= emax - prec ->
  bounded prec emax p e = true /\
  pseudo_number sx (Zpos p) e = S754_finite sx p e.
Proof.
  intros (_ & Hc & _) He. specialize (Hc ltac:(lia)).
  cbn [Zdigits2] in Hc. split.
  - unfold bounded, canonical_mantissa. rewrite Hc, Z.eqb_refl.
    apply Z.leb_le in He. now rewrite He.
  - unfold pseudo_number. apply Z.leb_le in He. now rewrite He.
Qed.

Lemma exact_value_nonpos (m : positive) (e : Z) :
  e <= 0 -> (exact_value m e == frac (Zpos m) (2 ^ (- e)))%Q.
Proof.
  intros He. unfold exact_value, exact_ratio.
  destruct (Z.leb_spec 0 e) as [A|A]; cbn [fst snd]; [|reflexivity].
  replace e with 0 by lia. change (2 ^ (- 0)) with 1.
  change (2 ^ 0) with 1. now rewrite Z.mul_1_r.
Qed.

(** The Number of a value that a mantissa and an exponent denote
    exactly. *)
Lemma binary_normalize_exact (M ez : Z) (sz : bool) (m : positive) (e : Z) :
  bounded prec emax m e = true -> e <= 0 -> emin prec emax <= ez <= 0 ->
  M <> 0 -> Z.abs M * 2 ^ (- e) = Zpos m * 2 ^ (- ez) ->
  binary_normalize prec emax M ez sz = S754_finite (M <? 0) m e.
Proof.
  intros Hb He Hez HM E.
  destruct (binary_normalize_rounds M ez sz HM Hez) as (m1 & e1 & P1 & R1 & ->).
  pose proof (exact_value_rounds m e Hb) as R2.
  pose proof (bounded_pseudo m e Hb) as P2.
  rewrite (pseudo_number_unique (M <? 0) m1 e1 (Zpos m) e _ _ P1 P2 R1 R2).
  - apply pseudo_finite; [exact P2|].
    destruct (bounded_canonical m e Hb) as [_ L]. exact L.
  - rewrite exact_value_nonpos by assumption.
    apply frac_eq; try (apply Z.pow_pos_nonneg; lia). exact E.
Qed.

Lemma of_Z_exact (k : Z) (m : positive) (e : Z) :
  bounded prec emax m e = true -> e <= 0 -> k <> 0 ->
  Zpos m = Z.abs k * 2 ^ (- e) ->
  of_Z k = S754_finite (k <? 0) m e.
Proof.
  intros Hb He Hk E. unfold of_Z.
  apply binary_normalize_exact; try assumption.
  - unfold emin, prec, emax. lia.
  - change (2 ^ (- 0)) with 1. lia.
Qed.

(** The mantissa and the exponent of an integer below [2 ^ 53]. *)
Lemma of_Z_finite (k : Z) :
  0 < Z.abs k < 2 ^ prec ->
  exists m e, of_Z k = S754_finite (k <? 0) m e /\
    bounded prec emax m e = true /\ - prec < e <= 0 /\
    Zpos m = Z.abs k * 2 ^ (- e).
Proof.
  intros Hk.
  pose proof (Zdigits2_bounds (Z.abs k) ltac:(lia)) as [L U].
  pose proof (Zdigits2_nonneg (Z.abs k)) as D0.
  set (dk := Zdigits2 (Z.abs k)) in *.
  assert (Hdk : 1 <= dk <= prec).
  { split.
    - destruct (Z.eq_dec dk 0) as [E0|]; [|lia].
      rewrite E0 in U. change (2 ^ 0) with 1 in U. lia.
    - assert (X : 2 ^ (dk - 1) < 2 ^ prec) by lia.
      apply pow2_lt_inv in X; unfold prec in *; lia. }
  set (e := dk - prec).
  assert (PW : 0 < 2 ^ (- e)) by (apply Z.pow_pos_nonneg; unfold e; lia).
  assert (Pm : 0 < Z.abs k * 2 ^ (- e)) by lia.
  set (m := Z.to_pos (Z.abs k * 2 ^ (- e))).
  assert (Em : Zpos m = Z.abs k * 2 ^ (- e)) by (unfold m; now rewrite Z2Pos.id).
  assert (Hd : Zpos (digits2_pos m) = prec).
  { apply digits2_unique. rewrite Em.
    assert (E1 : 2 ^ (prec - 1) = 2 ^ (dk - 1) * 2 ^ (- e)).
    { rewrite <- Z.pow_add_r by (unfold e; lia). f_equal. unfold e. lia. }
    assert (E2 : 2 ^ prec = 2 ^ dk * 2 ^ (- e)).
    { rewrite <- Z.pow_add_r by (unfold e; lia). f_equal. unfold e. lia. }
    rewrite E1, E2. split; nia. }
  assert (Hb : bounded prec emax m e = true).
  { unfold bounded, canonical_mantissa. rewrite Hd.
    apply andb_true_intro. split.
    - apply Z.eqb_eq. unfold fexp, emin, e, prec, emax in *. lia.
    - apply Z.leb_le. unfold e, prec, emax in *. lia. }
  exists m, e. split; [|split; [exact Hb|split; [unfold e; lia|exact Em]]].
  apply of_Z_exact; try assumption; unfold e; lia.
Qed.

(** ** Arithmetic on integers *)

Lemma binary_normalize_int (K : Z) (s : bool) :
  binary_normalize prec emax K 0 s = if K =? 0 then S754_zero s else of_Z K.
Proof. destruct K; reflexivity. Qed.

Lemma aligned_of_Z (k : Z) (m : positive) (e ez : Z) :
  Zpos m = Z.abs k * 2 ^ (- e) -> e <= 0 -> ez <= e ->
  cond_Zopp (k <? 0) (Zpos (fst (shl_align m e ez))) = k * 2 ^ (- ez).
Proof.
  intros Em He Hez.
  destruct (shl_align_spec m e ez) as (d & Hd & Hlt & Hge & Hm & _).
  assert (Ed : d = e - ez) by lia.
  rewrite Hm, Em, Ed, <- Z.mul_assoc, <- Z.pow_add_r by lia.
  replace (- e + (e - ez)) with (- ez) by lia.
  unfold cond_Zopp. destruct (Z.ltb_spec k 0); lia.
Qed.

Lemma binary_normalize_of_Z (k ez : Z) :
  Z.abs k < 2 ^ prec -> emin prec emax <= ez <= 0 ->
  binary_normalize prec emax (k * 2 ^ (- ez)) ez false = of_Z k.
Proof.
  intros Hk Hez. destruct (Z.eq_dec k 0) as [->|NZ]; [reflexivity|].
  destruct (of_Z_finite k ltac:(lia)) as (m & e & -> & Hb & He & Em).
  assert (PW : 0 < 2 ^ (- ez)) by (apply Z.pow_pos_nonneg; lia).
  assert (Es : (k * 2 ^ (- ez) <? 0) = (k <? 0)).
  { destruct (Z.ltb_spec k 0), (Z.ltb_spec (k * 2 ^ (- ez)) 0);
      try reflexivity; nia. }
  rewrite <- Es. apply binary_normalize_exact; try assumption; lia.
Qed.

(** The difference of two integers is exact. *)
Lemma sub_of_Z (a b : Z) :
  Z.abs a < 2 ^ prec -> Z.abs b < 2 ^ prec -> Z.abs (b - a) < 2 ^ prec ->
  sub (of_Z b) (of_Z a) = of_Z (b - a).
Proof.
  intros Ha Hb Hd.
  destruct (Z.eq_dec a 0) as [->|Na].
  - rewrite Z.sub_0_r. destruct (Z.eq_dec b 0) as [->|Nb]; [reflexivity|].
    destruct (of_Z_finite b ltac:(lia)) as (m & e & -> & _). reflexivity.
  - destruct (of_Z_finite a ltac:(lia)) as (ma & ea & Ea & Ba & Ra & Ma).
    destruct (Z.eq_dec b 0) as [->|Nb].
    + rewrite Ea. change (of_Z 0) with (S754_zero false).
      unfold sub. cbn [SFsub]. symmetry.
      replace (negb (a <? 0)) with (0 - a <? 0)
        by (destruct (Z.ltb_spec a 0), (Z.ltb_spec (0 - a) 0);
            try reflexivity; lia).
      apply of_Z_exact; try assumption; lia.
    + destruct (of_Z_finite b ltac:(lia)) as (mb & eb & Eb & Bb & Rb & Mb).
      rewrite Ea, Eb. unfold sub. cbn [SFsub].
      rewrite (aligned_of_Z b mb eb (Z.min eb ea) Mb) by lia.
      rewrite (aligned_of_Z a ma ea (Z.min eb ea) Ma) by lia.
      rewrite <- Z.mul_sub_distr_r. apply binary_normalize_of_Z; [exact Hd|].
      unfold emin, prec, emax in *. lia.
Qed.

(** The quotient of two integers is the Number nearest to their
    fraction. *)
Lemma div_of_Z (a b : Z) :
  0 < Z.abs a < 2 ^ prec -> 0 < Z.abs b < 2 ^ prec ->
  exists m e, div (of_Z a) (of_Z b)
              = S754_finite (xorb (a <? 0) (b <? 0)) m e /\
    bounded prec emax m e = true /\ e <= 1 /\
    rounds_to (Zpos m) e (frac (Z.abs a) (Z.abs b)).
Proof.
  intros Ha Hb.
  destruct (of_Z_finite a Ha) as (ma & ea & Ea & Ba & Ra & Ma).
  destruct (of_Z_finite b Hb) as (mb & eb & Eb & Bb & Rb & Mb).
  destruct (SFdiv_rounds (a <? 0) (b <? 0) ma mb ea eb Ba Bb Ra Rb)
    as (m & e & Hps & Hr & Hres).
  assert (Pa : 0 < 2 ^ (- ea)) by (apply Z.pow_pos_nonneg; lia).
  assert (Pb : 0 < 2 ^ (- eb)) by (apply Z.pow_pos_nonneg; lia).
  assert (Hr' : rounds_to m e (frac (Z.abs a) (Z.abs b))).
  { apply rounds_to_eq with (2 := Hr). apply frac_eq; [lia | lia |].
    rewrite Ma, Mb. ring. }
  assert (Hm : 0 < m).
  { apply (rounds_to_positive m e (Z.abs a) (Z.abs b)); try assumption; [lia|].
    assert (X : 2 ^ prec <= 2 ^ (- emin prec emax))
      by (apply Z.pow_le_mono_r; unfold emin, prec, emax; lia).
    nia. }
  assert (He : e <= 1).
  { apply (rounds_to_exponent m e (Z.abs a) (Z.abs b) prec) in Hr';
      try assumption; unfold emin, prec, emax in *; lia. }
  destruct m as [|p|p]; try lia.
  destruct (pseudo_finite (xorb (a <? 0) (b <? 0)) p e Hps) as [Hbd Hfin].
  { unfold emax, prec. lia. }
  exists p, e. rewrite Ea, Eb, Hres.
  split; [exact Hfin|]. split; [exact Hbd|]. split; [exact He | exact Hr'].
Qed.

Lemma Math_abs_of_Z (q : Z) :
  Z.abs q < 2 ^ prec -> Math_abs (of_Z q) = of_Z (Z.abs q).
Proof.
  intros Hq. destruct (Z.eq_dec q 0) as [->|NZ]; [reflexivity|].
  destruct (of_Z_finite q ltac:(lia)) as (m & e & -> & Hb & He & Em).
  unfold Math_abs. cbn [SFabs]. symmetry.
  replace false with (Z.abs q <? 0) by (apply Z.ltb_ge; lia).
  apply of_Z_exact; try assumption; lia.
Qed.

Lemma ToBoolean_of_Z (t : Z) :
  Z.abs t < 2 ^ prec -> ToBoolean (of_Z t) = negb (t =? 0).
Proof.
  intros Ht. destruct (Z.eq_dec t 0) as [->|NZ]; [reflexivity|].
  destruct (of_Z_finite t ltac:(lia)) as (m & e & -> & _).
  apply Z.eqb_neq in NZ. now rewrite NZ.
Qed.

Lemma strict_eq_of_Z_1 (t : Z) :
  0 <= t < 2 ^ prec -> strict_eq (of_Z t) (of_Z 1) = (t =? 1).
Proof.
  intros Ht. destruct (Z.eq_dec t 0) as [->|NZ]; [reflexivity|].
  destruct (of_Z_finite t ltac:(lia)) as (m & e & Et & Hb & He & Em).
  rewrite Et. replace (t <? 0) with false by (symmetry; apply Z.ltb_ge; lia).
  change (of_Z 1) with (S754_finite false 4503599627370496 (-52)).
  unfold strict_eq, SFeqb. cbn [SFcompare].
  rewrite Z.abs_eq in Em by lia.
  destruct (Z.compare_spec e (-52)) as [E|L|G].
  - subst e. change (2 ^ (- -52)) with 4503599627370496 in Em.
    rewrite Pos.compare_cont_spec.
    destruct (Pos.compare_spec m 4503599627370496) as [E|L|G].
    + cbn [Pos.switch_Eq]. destruct (Z.eqb_spec t 1); [reflexivity|].
      exfalso. rewrite E in Em. clear - Em n. lia.
    + cbn [Pos.switch_Eq]. destruct (Z.eqb_spec t 1); [|reflexivity].
      exfalso. subst t. apply Pos2Z.pos_lt_pos in L. clear - Em L. lia.
    + cbn [Pos.switch_Eq]. destruct (Z.eqb_spec t 1); [|reflexivity].
      exfalso. subst t. apply Pos2Z.pos_lt_pos in G. clear - Em G. lia.
  - destruct (Z.eqb_spec t 1) as [->|]; [|reflexivity].
    exfalso. destruct (bounded_canonical m e Hb) as [Hc _].
    assert (Hd : Zpos (digits2_pos m) = prec)
      by (unfold fexp, emin, prec, emax in *; lia).
    pose proof (digits2_bounds m) as [_ U]. rewrite Hd in U.
    rewrite Em, Z.mul_1_l in U.
    apply pow2_lt_inv in U; unfold prec in *; lia.
  - destruct (Z.eqb_spec t 1) as [->|]; [|reflexivity].
    exfalso. destruct (bounded_canonical m e Hb) as [Hc _].
    assert (Hd : Zpos (digits2_pos m) = prec)
      by (unfold fexp, emin, prec, emax in *; lia).
    pose proof (digits2_bounds m) as [L _]. rewrite Hd in L.
    rewrite Em, Z.mul_1_l in L.
    apply Z.pow_le_mono_r_iff in L; unfold prec in *; lia.
Qed.

(** The rest of the division of two integers is exact. *)
Lemma remainder_of_Z (t b : Z) :
  0 <= t < 2 ^ prec -> 0 < b < 2 ^ prec ->
  Number_remainder (of_Z t) (of_Z b) = of_Z (t mod b).
Proof.
  intros Ht Hb.
  destruct (of_Z_finite b ltac:(lia)) as (mb & eb & Eb & Bb & Rb & Mb).
  rewrite Eb.
  destruct (Z.eq_dec t 0) as [->|NZ]; [reflexivity|].
  destruct (of_Z_finite t ltac:(lia)) as (mt & et & Et & Bt & Rt & Mt).
  rewrite Et. replace (t <? 0) with false by (symmetry; apply Z.ltb_ge; lia).
  unfold Number_remainder.
  set (e0 := Z.min et eb).
  rewrite Z.abs_eq in Mt, Mb by lia.
  assert (P0 : 0 < 2 ^ (- e0)) by (apply Z.pow_pos_nonneg; unfold e0; lia).
  assert (X : Zpos mt * 2 ^ (et - e0) = t * 2 ^ (- e0)).
  { rewrite Mt, <- Z.mul_assoc, <- Z.pow_add_r by (unfold e0; lia).
    do 2 f_equal. lia. }
  assert (Y : Zpos mb * 2 ^ (eb - e0) = b * 2 ^ (- e0)).
  { rewrite Mb, <- Z.mul_assoc, <- Z.pow_add_r by (unfold e0; lia).
    do 2 f_equal. lia. }
  rewrite X, Y, Z.mul_mod_distr_r by lia.
  pose proof (Z.mod_pos_bound t b ltac:(lia)) as MB.
  destruct (Z.eqb_spec (t mod b * 2 ^ (- e0)) 0) as [E0|N0].
  - assert (t mod b = 0) by nia. rewrite H. reflexivity.
  - apply binary_normalize_of_Z; [lia|].
    unfold e0, emin, prec, emax in *. lia.
Qed.

(** ** [Math.round] and [Math.floor] *)

Lemma Math_round_finite (s : bool) (m : positive) (e K : Z) :
  e < 0 ->
  (2 * K - 1) * 2 ^ (- e) <= 2 * cond_Zopp s (Zpos m)
  < (2 * K + 1) * 2 ^ (- e) ->
  Math_round (S754_finite s m e) = binary_normalize prec emax K 0 s.
Proof.
  intros He H. unfold Math_round.
  destruct (Z.leb_spec 0 e) as [A|_]; [lia|].
  assert (PW : 0 < 2 ^ (- e)) by (apply Z.pow_pos_nonneg; lia).
  replace (2 ^ (- e + 1)) with (2 * 2 ^ (- e))
    by (rewrite Z.pow_add_r by lia; change (2 ^ 1) with 2; ring).
  set (W := 2 ^ (- e)) in *. destruct s; cbn [cond_Zopp] in H.
  - replace ((2 * Zpos m + W - 1) / (2 * W)) with (- K);
      [now rewrite Z.opp_involutive|].
    apply Z.div_unique with (r := 2 * Zpos m + W - 1 + 2 * W * K);
      [left; nia | ring].
  - replace ((2 * Zpos m + W) / (2 * W)) with K; [reflexivity|].
    apply Z.div_unique with (r := 2 * Zpos m + W - 2 * W * K);
      [left; nia | ring].
Qed.

Lemma Math_floor_finite (m : positive) (e K : Z) :
  e < 0 -> K * 2 ^ (- e) <= Zpos m < (K + 1) * 2 ^ (- e) ->
  Math_floor (S754_finite false m e) = binary_normalize prec emax K 0 false.
Proof.
  intros He H. unfold Math_floor.
  destruct (Z.leb_spec 0 e) as [A|_]; [lia|].
  assert (PW : 0 < 2 ^ (- e)) by (apply Z.pow_pos_nonneg; lia).
  replace (Zpos m / 2 ^ (- e)) with K; [reflexivity|].
  apply Z.div_unique with (r := Zpos m - 2 ^ (- e) * K); [left; nia | ring].
Qed.

(** [Math.floor(t / 60)] is the integer quotient. *)
Lemma floor_div_60 (t : Z) :
  0 <= t < 2 ^ 51 ->
  Math_floor (div (of_Z t) (of_Z 60)) = of_Z (t / 60).
Proof.
  intros Ht. destruct (Z.eq_dec t 0) as [->|NZ]; [reflexivity|].
  assert (P51 : 2 ^ 51 = 2251799813685248) by reflexivity.
  assert (P53 : 2 ^ prec = 9007199254740992) by reflexivity.
  destruct (div_of_Z t 60 ltac:(lia) ltac:(lia))
    as (m & e & -> & Hb & _ & Hr).
  replace (t <? 0) with false by (symmetry; apply Z.ltb_ge; lia).
  change (xorb false (60 <? 0)) with false.
  rewrite Z.abs_eq in Hr by lia. change (Z.abs 60) with 60 in Hr.
  pose proof (bounded_pseudo m e Hb) as Hps.
  pose proof (bounded_emin m e Hb) as Hmin.
  assert (He : e <= -6).
  { pose proof (rounds_to_exponent (Zpos m) e t 60 46 Hps ltac:(lia) Hr
                  ltac:(lia)) as X.
    change (2 ^ 46) with 70368744177664 in X.
    unfold emin, prec, emax in X. lia. }
  pose proof (Z.div_mod t 60 ltac:(lia)) as DM.
  pose proof (Z.mod_pos_bound t 60 ltac:(lia)) as MB.
  set (k := t / 60) in *.
  pose proof (rounds_to_ge (Zpos m) e t 60 k 0 Hmin ltac:(lia) ltac:(lia) Hr)
    as G1.
  pose proof (rounds_to_le (Zpos m) e t 60 (64 * (k + 1) - 1) 6 Hmin
                ltac:(lia) ltac:(lia) Hr) as G2.
  change (2 ^ 0) with 1 in G1. change (2 ^ 6) with 64 in G2.
  specialize (G1 ltac:(lia)). specialize (G2 ltac:(lia)).
  rewrite Z.sub_0_r in G1.
  assert (E6 : 2 ^ (- e) = 64 * 2 ^ (- e - 6)).
  { change 64 with (2 ^ 6). rewrite <- Z.pow_add_r by lia. f_equal. lia. }
  assert (PW : 0 < 2 ^ (- e - 6)) by (apply Z.pow_pos_nonneg; lia).
  rewrite (Math_floor_finite m e k) by (rewrite ?E6 in *; lia || nia).
  rewrite binary_normalize_int. destruct (Z.eqb_spec k 0) as [->|]; reflexivity.
Qed.

(** ** Writing an integer *)

Lemma digits_aux_fuel (f f' : nat) (n : Z) (acc : string) :
  0 <= n < 10 ^ Z.of_nat (S f) -> n < 10 ^ Z.of_nat (S f') ->
  digits_aux (S f) n acc = digits_aux (S f') n acc.
Proof.
  revert f' n acc. induction f as [|g IH]; intros f' n acc H H'.
  - change (10 ^ Z.of_nat 1) with 10 in H. cbn [digits_aux].
    destruct (Z.ltb_spec n 10); [reflexivity | lia].
  - cbn [digits_aux]. destruct (Z.ltb_spec n 10) as [A|A]; [reflexivity|].
    destruct f' as [|g'].
    + change (10 ^ Z.of_nat 1) with 10 in H'. lia.
    + fold (digits_aux (S g)). fold (digits_aux (S g')).
      rewrite Nat2Z.inj_succ, Z.pow_succ_r in H, H' by lia.
      apply IH.
      * split; [apply Z.div_pos; lia | apply Z.div_lt_upper_bound; lia].
      * apply Z.div_lt_upper_bound; lia.
Qed.

Lemma digits_aux_step (f : nat) (n : Z) (acc : string) :
  digits_aux (S f) n acc
  = if n <? 10 then String (digit_char (n mod 10)) acc
    else digits_aux f (n / 10) (String (digit_char (n mod 10)) acc).
Proof. reflexivity. Qed.

Lemma decimal_digits_10 (n : Z) :
  0 < n -> decimal_digits (10 * n) = decimal_digits n ++ "0".
Proof.
  intros Hn. unfold decimal_digits at 1.
  pose proof (Z.log2_nonneg n) as L0.
  pose proof (Z.log2_spec n Hn) as [L1 L2].
  assert (L3 : Z.log2 n + 3 <= Z.log2 (10 * n)).
  { apply Z.log2_le_pow2; [lia|].
    rewrite Z.pow_add_r by lia. change (2 ^ 3) with 8. lia. }
  destruct (Z.to_nat (Z.log2 (10 * n))) as [|f] eqn:Ef; [lia|].
  rewrite digits_aux_step.
  destruct (Z.ltb_spec (10 * n) 10) as [A|A]; [lia|].
  replace (10 * n / 10) with n by (rewrite Z.mul_comm, Z.div_mul; lia).
  replace ((10 * n) mod 10) with 0
    by (rewrite Z.mul_comm, Z.mod_mul; lia).
  rewrite digits_aux_app. f_equal. unfold decimal_digits.
  destruct (decimal_digits_fuel n ltac:(lia)) as [_ F].
  apply digits_aux_fuel; [|exact F].
  split; [lia|]. apply Z.lt_le_trans with (1 := L2).
  apply Z.le_trans with (10 ^ Z.succ (Z.log2 n));
    [apply Z.pow_le_mono_l; lia | apply Z.pow_le_mono_r; lia].
Qed.

Lemma zeros_succ (j : Z) : 0 <= j -> zeros (j + 1) = zeros j ++ "0".
Proof.
  intros Hj. unfold zeros. rewrite Z2Nat.inj_add by lia.
  change (Z.to_nat 1) with 1%nat.
  induction (Z.to_nat j) as [|k IH]; [reflexivity|].
  cbn [Nat.add repeat_string append]. now rewrite IH.
Qed.

Lemma decimal_digits_scaled (s j : Z) :
  0 < s -> 0 <= j ->
  decimal_digits (s * 10 ^ j) = decimal_digits s ++ zeros j.
Proof.
  intros Hs Hj. revert j Hj. apply natlike_ind.
  - change (10 ^ 0) with 1. rewrite Z.mul_1_r. unfold zeros. cbn.
    now rewrite append_empty_r.
  - intros j Hj IH. rewrite Z.pow_succ_r by assumption.
    replace (s * (10 * 10 ^ j)) with (10 * (s * 10 ^ j)) by ring.
    assert (0 < 10 ^ j) by (apply Z.pow_pos_nonneg; lia).
    rewrite decimal_digits_10 by nia.
    rewrite IH. unfold Z.succ. rewrite zeros_succ by assumption.
    now rewrite append_assoc.
Qed.

(** A positive integer below [2 ^ 49] is written with its digits. *)
Lemma toString_of_Z (t : Z) :
  0 <= t < 2 ^ 49 -> Number_toString (of_Z t) = decimal_digits t.
Proof.
  intros Ht. destruct (Z.eq_dec t 0) as [->|NZ]; [reflexivity|].
  assert (P49 : 2 ^ 49 = 562949953421312) by reflexivity.
  assert (P53 : 2 ^ prec = 9007199254740992) by reflexivity.
  destruct (of_Z_finite t ltac:(lia)) as (m & e & -> & Hb & He & Em).
  replace (t <? 0) with false by (symmetry; apply Z.ltb_ge; lia).
  rewrite Z.abs_eq in Em by lia.
  pose proof (bounded_pseudo m e Hb) as Hps.
  pose proof (bounded_emin m e Hb) as Hmin.
  assert (PW : 0 < 2 ^ (- e)) by (apply Z.pow_pos_nonneg; lia).
  assert (He4 : e <= -4).
  { destruct (Z.le_gt_cases e (-4)) as [L|G]; [exact L|exfalso].
    destruct (pseudo_range (Zpos m) e Hps) as [_ Hm].
    specialize (Hm ltac:(unfold emin, prec, emax; lia)).
    change (2 ^ (prec - 1)) with 4503599627370496 in Hm.
    assert (X : 2 ^ (- e) <= 2 ^ 3) by (apply Z.pow_le_mono_r; lia).
    change (2 ^ 3) with 8 in X. nia. }
  assert (Rt : rounds_to (Zpos m) e (decimal t 0)).
  { apply rounds_to_eq with (2 := exact_value_rounds m e Hb).
    rewrite exact_value_nonpos by lia. unfold decimal.
    change (10 ^ 0)%Q with 1%Q. rewrite Qmult_1_r, <- frac_1.
    apply frac_eq; [lia | lia |]. lia. }
  assert (Dt : of_decimal false t 0 = S754_finite false m e).
  { apply of_decimal_rounds; [lia | exact Hb | exact Rt]. }
  assert (Nt : ndigits t <= 17).
  { pose proof (ndigits_bounds t ltac:(lia)) as [L _].
    destruct (Z.le_gt_cases (ndigits t) 17) as [A|A]; [exact A|exfalso].
    assert (X : 10 ^ 17 <= 10 ^ (ndigits t - 1))
      by (apply Z.pow_le_mono_r; lia).
    change (10 ^ 17) with 100000000000000000 in X. lia. }
  unfold Number_toString, toString_finite. cbn [append].
  pose proof (shortest_digits_number 16 m e
                (decimal_exponent (fst (exact_ratio m e))
                   (snd (exact_ratio m e))) 1 Hb) as Hnum.
  assert (T0 : 0 < t) by lia.
  assert (Ex : exists s0 j0, 0 < s0 /\ ndigits s0 <= 17 /\
                 of_decimal false s0 j0 = S754_finite false m e).
  { exists t, 0. split; [exact T0|]. split; [exact Nt | exact Dt]. }
  pose proof (shortest_digits_minimal m e Hb Ex t 0 T0 Dt) as Hmin'.
  destruct (exact_ratio m e) as [num den]. cbn [fst snd] in Hnum, Hmin'.
  destruct (shortest_digits 16 m e (decimal_exponent num den) 1) as [s n].
  cbn [fst] in Hmin'.
  pose proof (digits_number_positive s n false m e Hnum) as Hs.
  unfold digits_number in Hnum. cbn [fst snd] in Hnum.
  apply (of_decimal_rounds false s _ m e Hs Hb) in Hnum.
  set (j := n - ndigits s) in *.
  pose proof (ndigits_bounds s ltac:(lia)) as [Ls Us].
  pose proof (ndigits_bounds t ltac:(lia)) as [Lt Ut].
  pose proof (ndigits_pos s) as Ps. pose proof (ndigits_pos t) as Pt.
  assert (Hj : 0 <= j /\ s * 10 ^ j = t).
  { destruct (Z.le_gt_cases 0 j) as [A|A].
    - split; [exact A|].
      assert (PJ : 0 < 10 ^ j) by (apply Z.pow_pos_nonneg; lia).
      assert (R : rounds_to (Zpos m) e (frac (s * 10 ^ j) 1)).
      { apply rounds_to_eq with (2 := Hnum). unfold decimal.
        rewrite pow10_Q_nonneg by assumption.
        rewrite <- frac_1, frac_mul by lia. apply frac_eq; lia. }
      pose proof (rounds_to_ge (Zpos m) e _ 1 (s * 10 ^ j) 0 Hmin
                    ltac:(lia) ltac:(lia) R) as G1.
      pose proof (rounds_to_le (Zpos m) e _ 1 (s * 10 ^ j) 0 Hmin
                    ltac:(lia) ltac:(lia) R) as G2.
      change (2 ^ 0) with 1 in G1, G2.
      specialize (G1 ltac:(lia)). specialize (G2 ltac:(lia)).
      rewrite Z.sub_0_r in G1, G2.
      assert (X : s * 10 ^ j * 2 ^ (- e) = t * 2 ^ (- e)) by lia.
      apply Z.mul_cancel_r in X; lia.
    - exfalso.
      assert (PJ : 10 <= 10 ^ (- j)).
      { change 10 with (10 ^ 1) at 1. apply Z.pow_le_mono_r; lia. }
      assert (R : rounds_to (Zpos m) e (frac s (10 ^ (- j)))).
      { apply rounds_to_eq with (2 := Hnum). unfold decimal.
        rewrite pow10_Q_neg by assumption.
        rewrite <- frac_1, frac_mul by lia. apply frac_eq; lia. }
      assert (S10 : s < 10 * t).
      { apply Z.lt_le_trans with (1 := Us).
        apply Z.le_trans with (10 ^ ndigits t);
          [apply Z.pow_le_mono_r; lia|].
        replace (ndigits t) with (1 + (ndigits t - 1)) by lia.
        rewrite Z.pow_add_r by lia. change (10 ^ 1) with 10. lia. }
      pose proof (rounds_to_le (Zpos m) e s (10 ^ (- j)) (16 * t - 1) 4 Hmin
                    ltac:(lia) ltac:(lia) R) as G.
      change (2 ^ 4) with 16 in G. specialize (G ltac:(nia)).
      assert (E4 : 2 ^ (- e) = 16 * 2 ^ (- e - 4)).
      { change 16 with (2 ^ 4). rewrite <- Z.pow_add_r by lia. f_equal. lia. }
      assert (P4 : 0 < 2 ^ (- e - 4)) by (apply Z.pow_pos_nonneg; lia).
      rewrite E4 in Em. nia. }
  destruct Hj as [Hj Et].
  assert (En : n = ndigits s + j) by (unfold j; lia).
  unfold format_digits.
  replace (ndigits s <=? n) with true by (symmetry; apply Z.leb_le; lia).
  assert (Nd : ndigits t = n).
  { rewrite <- Et. unfold ndigits at 1.
    rewrite decimal_digits_scaled by lia.
    fold (strlen (decimal_digits s ++ zeros j)).
    rewrite strlen_app, zeros_strlen by lia.
    rewrite <- ndigits_strlen. lia. }
  replace (n <=? 21) with true by (symmetry; apply Z.leb_le; lia).
  cbn [andb]. rewrite <- Et, decimal_digits_scaled by lia. reflexivity.
Qed.

(** ** The minutes between two clocks *)

Lemma signed_ge (s : bool) (m e N D c g : Z) :
  emin prec emax <= e -> 0 <= g <= - e -> 0 < D ->
  rounds_to m e (frac (Z.abs N) D) -> s = (N <? 0) ->
  c * D <= N * 2 ^ g -> c * 2 ^ (- e - g) <= cond_Zopp s m.
Proof.
  intros He Hg HD Hr -> Hc. unfold cond_Zopp.
  destruct (Z.ltb_spec N 0) as [A|A].
  - rewrite Z.abs_neq in Hr by lia.
    pose proof (rounds_to_le m e (- N) D (- c) g He Hg HD Hr ltac:(lia)). lia.
  - rewrite Z.abs_eq in Hr by lia.
    exact (rounds_to_ge m e N D c g He Hg HD Hr Hc).
Qed.

Lemma signed_le (s : bool) (m e N D c g : Z) :
  emin prec emax <= e -> 0 <= g <= - e -> 0 < D ->
  rounds_to m e (frac (Z.abs N) D) -> s = (N <? 0) ->
  N * 2 ^ g <= c * D -> cond_Zopp s m <= c * 2 ^ (- e - g).
Proof.
  intros He Hg HD Hr -> Hc. unfold cond_Zopp.
  destruct (Z.ltb_spec N 0) as [A|A].
  - rewrite Z.abs_neq in Hr by lia.
    pose proof (rounds_to_ge m e (- N) D (- c) g He Hg HD Hr ltac:(lia)). lia.
  - rewrite Z.abs_eq in Hr by lia.
    exact (rounds_to_le m e N D c g He Hg HD Hr Hc).
Qed.

Lemma nearest_minute_spec (d : Z) :
  60000 * (2 * nearest_minute d - 1) <= 2 * d
  <= 60000 * (2 * nearest_minute d + 1) - 2.
Proof.
  unfold nearest_minute.
  pose proof (Z.div_mod (2 * d + 60000) 120000 ltac:(lia)) as DM.
  pose proof (Z.mod_pos_bound (2 * d + 60000) 120000 ltac:(lia)) as MB.
  lia.
Qed.

(** The window of a Number whose rounding is [q], from a value [N / D]
    that is nearest to [q] and not closer than [2 ^ -16] to the next
    tie. *)
Lemma round_window (s : bool) (m e N D q : Z) :
  emin prec emax <= e <= -16 -> 0 < D ->
  rounds_to m e (frac (Z.abs N) D) -> s = (N <? 0) ->
  (2 * q - 1) * D <= N * 2 ->
  N * 65536 <= (32768 * (2 * q + 1) - 1) * D ->
  (2 * q - 1) * 2 ^ (- e) <= 2 * cond_Zopp s m < (2 * q + 1) * 2 ^ (- e).
Proof.
  intros He HD Hr Hs L U.
  pose proof (signed_ge s m e N D (2 * q - 1) 1 ltac:(lia) ltac:(lia) HD Hr Hs)
    as G1.
  pose proof (signed_le s m e N D (32768 * (2 * q + 1) - 1) 16 ltac:(lia)
                ltac:(lia) HD Hr Hs) as G2.
  change (2 ^ 1) with 2 in G1. change (2 ^ 16) with 65536 in G2.
  specialize (G1 L). specialize (G2 U).
  assert (E1 : 2 ^ (- e - 1) = 32768 * 2 ^ (- e - 16)).
  { change 32768 with (2 ^ 15). rewrite <- Z.pow_add_r by lia. f_equal. lia. }
  assert (E2 : 2 ^ (- e) = 65536 * 2 ^ (- e - 16)).
  { change 65536 with (2 ^ 16). rewrite <- Z.pow_add_r by lia. f_equal. lia. }
  assert (P : 0 < 2 ^ (- e - 16)) by (apply Z.pow_pos_nonneg; lia).
  rewrite E1 in G1. rewrite E2. set (W := 2 ^ (- e - 16)) in *. nia.
Qed.

(** The difference in minutes that [computeDifferenceFromLocal] returns
    for [d] milliseconds. *)
Lemma quotient_minutes (d : Z) :
  d <> 0 -> Z.abs d < 2 ^ 50 ->
  exists m e, div (of_Z d) (of_Z 60000) = S754_finite (d <? 0) m e /\
    bounded prec emax m e = true /\ e <= -17 /\
    rounds_to (Zpos m) e (frac (Z.abs d) 60000).
Proof.
  intros Hd Hb.
  assert (P50 : 2 ^ 50 = 1125899906842624) by reflexivity.
  assert (P53 : 2 ^ prec = 9007199254740992) by reflexivity.
  destruct (div_of_Z d 60000 ltac:(lia) ltac:(lia))
    as (m & e & E & Hbd & _ & Hr).
  change (Z.abs 60000) with 60000 in Hr.
  change (60000 <? 0) with false in E. rewrite xorb_false_r in E.
  exists m, e. split; [exact E|]. split; [exact Hbd|]. split; [|exact Hr].
  pose proof (rounds_to_exponent (Zpos m) e (Z.abs d) 60000 35
                (bounded_pseudo m e Hbd) ltac:(lia) Hr ltac:(lia)) as X.
  change (2 ^ 35) with 34359738368 in X.
  unfold emin, prec, emax in X. lia.
Qed.

Lemma round_quotient (d : Z) :
  d <> 0 -> Z.abs d < 2 ^ 50 ->
  Math_round (div (of_Z d) (of_Z 60000))
  = binary_normalize prec emax (nearest_minute d) 0 (d <? 0).
Proof.
  intros Hd Hb.
  destruct (quotient_minutes d Hd Hb) as (m & e & -> & Hbd & He & Hr).
  pose proof (bounded_emin m e Hbd) as Hmin.
  pose proof (nearest_minute_spec d) as [L U].
  apply Math_round_finite; [lia|].
  apply (round_window (d <? 0) (Zpos m) e d 60000); try assumption; lia.
Qed.

Lemma lt_one (d : Z) (m : positive) (e : Z) :
  bounded prec emax m e = true -> e <= -17 ->
  rounds_to (Zpos m) e (frac (Z.abs d) 60000) ->
  Number_lt (S754_finite false m e) (of_Z 1) = (Z.abs d <? 60000).
Proof.
  intros Hb He Hr.
  pose proof (bounded_emin m e Hb) as Hmin.
  pose proof (bounded_pseudo m e Hb) as Hps.
  destruct (pseudo_range (Zpos m) e Hps) as [[_ Um] Lm].
  change (2 ^ prec) with 9007199254740992 in Um.
  change (2 ^ (prec - 1)) with 4503599627370496 in Lm.
  change (of_Z 1) with (S754_finite false 4503599627370496 (-52)).
  unfold Number_lt, SFltb. cbn [SFcompare].
  destruct (Z.ltb_spec (Z.abs d) 60000) as [A|A].
  - pose proof (rounds_to_le (Zpos m) e (Z.abs d) 60000 65535 16 Hmin
                  ltac:(lia) ltac:(lia) Hr) as G.
    change (2 ^ 16) with 65536 in G. specialize (G ltac:(lia)).
    assert (E2 : 2 ^ (- e) = 65536 * 2 ^ (- e - 16)).
    { change 65536 with (2 ^ 16). rewrite <- Z.pow_add_r by lia.
      f_equal. lia. }
    assert (P : 0 < 2 ^ (- e - 16)) by (apply Z.pow_pos_nonneg; lia).
    destruct (Z.compare_spec e (-52)) as [E|L|G']; [| reflexivity |].
    + exfalso. subst e. change (2 ^ (- -52)) with 4503599627370496 in E2.
      specialize (Lm ltac:(unfold emin, prec, emax; lia)). lia.
    + exfalso. specialize (Lm ltac:(unfold emin, prec, emax; lia)).
      assert (X : 2 ^ (- e) <= 2 ^ 52) by (apply Z.pow_le_mono_r; lia).
      change (2 ^ 52) with 4503599627370496 in X. lia.
  - pose proof (rounds_to_ge (Zpos m) e (Z.abs d) 60000 1 0 Hmin
                  ltac:(lia) ltac:(lia) Hr) as G.
    change (2 ^ 0) with 1 in G. specialize (G ltac:(lia)).
    rewrite Z.sub_0_r, Z.mul_1_l in G.
    destruct (Z.compare_spec e (-52)) as [E|L|G']; [| | reflexivity].
    + subst e. change (2 ^ (- -52)) with 4503599627370496 in G.
      rewrite Pos.compare_cont_spec.
      destruct (Pos.compare_spec m 4503599627370496) as [E|L|G'];
        try reflexivity.
      exfalso. apply Pos2Z.pos_lt_pos in L. clear - L G. lia.
    + exfalso.
      assert (X : 2 ^ 53 <= 2 ^ (- e)) by (apply Z.pow_le_mono_r; lia).
      change (2 ^ 53) with 9007199254740992 in X. clear - X G Um. lia.
Qed.

Lemma count_text (n : Z) (one many : string) (unit : string) :
  one = unit -> many = unit ++ "s" ->
  decimal_digits n ++ " " ++ (if n =? 1 then one else many) = count n unit.
Proof.
  intros -> ->. unfold count. destruct (n =? 1); [|reflexivity].
  now rewrite append_empty_r.
Qed.

Lemma nearest_minute_bound (d : Z) :
  Z.abs d < 2 ^ 51 -> Z.abs (nearest_minute d) < 2 ^ 36.
Proof.
  intros Hd. pose proof (nearest_minute_spec d) as [L U].
  change (2 ^ 51) with 2251799813685248 in Hd.
  change (2 ^ 36) with 68719476736. lia.
Qed.

(** What the parts of a number of minutes are. *)
Lemma minutes_parts (t : Z) :
  0 <= t < 2 ^ 36 ->
  let hours := Math_floor (div (of_Z t) (of_Z 60)) in
  let minutes := Number_remainder (of_Z t) (of_Z 60) in
  hours = of_Z (t / 60) /\ minutes = of_Z (t mod 60) /\
  0 <= t / 60 < 2 ^ 36 /\ 0 <= t mod 60 < 60.
Proof.
  intros Ht. cbn zeta.
  assert (P36 : 2 ^ 36 = 68719476736) by reflexivity.
  assert (P51 : 2 ^ 51 = 2251799813685248) by reflexivity.
  assert (P53 : 2 ^ prec = 9007199254740992) by reflexivity.
  rewrite floor_div_60 by lia. rewrite remainder_of_Z by lia.
  split; [reflexivity|]. split; [reflexivity|].
  pose proof (Z.div_mod t 60 ltac:(lia)) as DM.
  pose proof (Z.mod_pos_bound t 60 ltac:(lia)) as MB. lia.
Qed.

(** The difference in minutes of two integer time values. *)
Lemma computeDifference_of_Z (r : Reading) (a b : Z) :
  now_time r = of_Z a -> zone_time r = of_Z b ->
  Z.abs a < 2 ^ 53 -> Z.abs b < 2 ^ 53 -> Z.abs (b - a) < 2 ^ 53 ->
  computeDifferenceFromLocal r = div (of_Z (b - a)) (of_Z 60000).
Proof.
  intros Hn Hz Ha Hb Hd. unfold computeDifferenceFromLocal.
  rewrite Hn, Hz, sub_of_Z by (change (2 ^ prec) with (2 ^ 53); lia).
  reflexivity.
Qed.

Lemma relativeDescription_of (r : Reading) (d : Z) :
  computeDifferenceFromLocal r = div (of_Z d) (of_Z 60000) ->
  Z.abs d < 2 ^ 50 ->
  relativeDescription r = describe d.
Proof.
  intros Hc Hd.
  assert (P36 : 2 ^ 36 = 68719476736) by reflexivity.
  assert (P49 : 2 ^ 49 = 562949953421312) by reflexivity.
  assert (P50 : 2 ^ 50 = 1125899906842624) by reflexivity.
  assert (P51 : 2 ^ 51 = 2251799813685248) by reflexivity.
  assert (P53 : 2 ^ prec = 9007199254740992) by reflexivity.
  unfold relativeDescription. rewrite Hc.
  destruct (Z.eq_dec d 0) as [E0|Nd].
  { rewrite E0. vm_compute. reflexivity. }
  rewrite (round_quotient d Nd Hd).
  destruct (quotient_minutes d Nd Hd) as (m & e & -> & Hbd & He & Hr).
  unfold Math_abs at 1. cbn [SFabs].
  rewrite (lt_one d m e Hbd He Hr). unfold describe.
  destruct (Z.ltb_spec (Z.abs d) 60000) as [A|A]; [reflexivity|].
  pose proof (nearest_minute_spec d) as [L U].
  pose proof (nearest_minute_bound d ltac:(lia)) as Bq.
  set (q := nearest_minute d) in *.
  rewrite binary_normalize_int.
  destruct (Z.eqb_spec q 0) as [Q0|Q0]; [exfalso; lia|].
  rewrite Math_abs_of_Z by lia.
  destruct (minutes_parts (Z.abs q) ltac:(lia)) as (-> & -> & Bh & Bm).
  unfold duration. set (h := Z.abs q / 60) in *.
  set (mi := Z.abs q mod 60) in *.
  rewrite !ToBoolean_of_Z, !toString_of_Z, !strict_eq_of_Z_1 by lia.
  rewrite (count_text h "hour" "hours" "hour") by reflexivity.
  rewrite (count_text mi "minute" "minutes" "minute") by reflexivity.
  assert (Dir : Number_gt (S754_finite (d <? 0) m e) (of_Z 0) = (0 <? d)).
  { change (of_Z 0) with (S754_zero false).
    unfold Number_gt, SFltb. cbn [SFcompare].
    destruct (Z.ltb_spec d 0), (Z.ltb_spec 0 d); try reflexivity; lia. }
  rewrite Dir. unfold push.
  destruct (h =? 0), (mi =? 0); reflexivity.
Qed.

(** X18.  The description of a zone whose clock is [b - a] milliseconds
    ahead names the hours and the minutes of the nearest minute. *)
Theorem relativeDescription_minutes (r : Reading) (a b : Z) :
  now_time r = of_Z a -> zone_time r = of_Z b ->
  Z.abs a < 2 ^ 53 -> Z.abs b < 2 ^ 53 -> Z.abs (b - a) < 2 ^ 50 ->
  relativeDescription r = describe (b - a).
Proof.
  intros Hn Hz Ha Hb Hd.
  assert (P50 : 2 ^ 50 = 1125899906842624) by reflexivity.
  assert (P53 : 2 ^ 53 = 9007199254740992) by reflexivity.
  apply relativeDescription_of; [|exact Hd].
  apply computeDifference_of_Z; try assumption. lia.
Qed.

(** ** The offset from UTC *)

Lemma nearest_minute_whole (k : Z) : nearest_minute (60000 * k) = k.
Proof.
  unfold nearest_minute. symmetry.
  apply Z.div_unique with (r := 60000); [left; lia | ring].
Qed.

(** Rounding an integer below [2 ^ 52] leaves it. *)
Lemma Math_round_of_Z (k : Z) :
  0 < Z.abs k < 2 ^ 52 -> Math_round (of_Z k) = of_Z k.
Proof.
  intros Hk. change (2 ^ 52) with 4503599627370496 in Hk.
  assert (P53 : 2 ^ prec = 9007199254740992) by reflexivity.
  destruct (of_Z_finite k ltac:(lia)) as (m & e & E & Hb & He & Em).
  pose proof (bounded_pseudo m e Hb) as Hps.
  destruct (pseudo_range (Zpos m) e Hps) as [_ Lm].
  specialize (Lm ltac:(unfold emin, prec, emax in *; lia)).
  change (2 ^ (prec - 1)) with 4503599627370496 in Lm.
  assert (PW : 0 < 2 ^ (- e)) by (apply Z.pow_pos_nonneg; lia).
  assert (He' : e < 0).
  { destruct (Z.eq_dec e 0) as [E0|]; [|lia].
    rewrite E0 in Em. change (2 ^ (- 0)) with 1 in Em. lia. }
  rewrite E at 1. rewrite (Math_round_finite (k <? 0) m e k He').
  - rewrite binary_normalize_int.
    destruct (Z.eqb_spec k 0); [lia | reflexivity].
  - unfold cond_Zopp. rewrite Em. destruct (Z.ltb_spec k 0); nia.
Qed.

Lemma round_sum (d o : Z) :
  Z.abs d < 2 ^ 50 -> Z.abs o < 2 ^ 31 ->
  exists s,
    Math_round (add (div (of_Z d) (of_Z 60000)) (Number_neg (of_Z o)))
    = binary_normalize prec emax (nearest_minute (d - 60000 * o)) 0 s.
Proof.
  intros Hd Ho.
  assert (P31 : 2 ^ 31 = 2147483648) by reflexivity.
  assert (P50 : 2 ^ 50 = 1125899906842624) by reflexivity.
  assert (P53 : 2 ^ prec = 9007199254740992) by reflexivity.
  destruct (Z.eq_dec o 0) as [->|No].
  - (* the viewer is on UTC *)
    rewrite Z.mul_0_r, Z.sub_0_r.
    change (Number_neg (of_Z 0)) with (S754_zero true).
    destruct (Z.eq_dec d 0) as [->|Nd].
    + exists false. vm_compute. reflexivity.
    + exists (d <? 0). rewrite <- (round_quotient d Nd Hd).
      destruct (quotient_minutes d Nd Hd) as (m & e & -> & _). reflexivity.
  - destruct (of_Z_finite o ltac:(lia)) as (mo & eo & Eo & Bo & Ro & Mo).
    assert (Ey : Number_neg (of_Z o) = of_Z (- o)).
    { rewrite Eo. unfold Number_neg. cbn [SFopp]. symmetry.
      replace (negb (o <? 0)) with (- o <? 0)
        by (destruct (Z.ltb_spec o 0), (Z.ltb_spec (- o) 0);
            try reflexivity; lia).
      apply of_Z_exact; try assumption; lia. }
    destruct (Z.eq_dec d 0) as [->|Nd].
    + (* no difference: the result is the offset itself *)
      exists false.
      assert (E0 : div (of_Z 0) (of_Z 60000) = S754_zero false)
        by (vm_compute; reflexivity).
      rewrite E0, Ey.
      assert (Ea : add (S754_zero false) (of_Z (- o)) = of_Z (- o)).
      { destruct (of_Z_finite (- o) ltac:(lia)) as (m & e & -> & _).
        reflexivity. }
      rewrite Ea, Math_round_of_Z
        by (change (2 ^ 52) with 4503599627370496; lia).
      replace (0 - 60000 * o) with (60000 * - o) by ring.
      rewrite nearest_minute_whole, binary_normalize_int.
      destruct (Z.eqb_spec (- o) 0); [lia | reflexivity].
    + destruct (quotient_minutes d Nd Hd) as (m1 & e1 & -> & B1 & He1 & R1).
      rewrite Ey.
      assert (Mo' : Zpos mo = Z.abs (- o) * 2 ^ (- eo))
        by (now rewrite Z.abs_opp).
      assert (Eo' : of_Z (- o) = S754_finite (- o <? 0) mo eo)
        by (apply of_Z_exact; try assumption; lia).
      rewrite Eo'. unfold add. cbn [SFadd].
      pose proof (bounded_emin m1 e1 B1) as Hmin1.
      set (ez := Z.min e1 eo).
      assert (Hez : emin prec emax <= ez <= -17 /\ ez <= e1 /\ ez <= eo).
      { unfold ez, emin, prec, emax in *. lia. }
      destruct Hez as (Hez & Hz1 & Hzo).
      rewrite (aligned_of_Z (- o) mo eo ez Mo') by lia.
      destruct (shl_align_spec m1 e1 ez) as (d1 & Hd1 & Hlt & Hge & Hm1 & _).
      assert (Ed1 : d1 = e1 - ez) by lia. subst d1.
      set (n1 := cond_Zopp (d <? 0) (Zpos m1)).
      assert (En1 : cond_Zopp (d <? 0) (Zpos (fst (shl_align m1 e1 ez)))
                    = n1 * 2 ^ (e1 - ez)).
      { rewrite Hm1. unfold n1, cond_Zopp. destruct (d <? 0); ring. }
      rewrite En1.
      set (q := nearest_minute (d - 60000 * o)).
      pose proof (nearest_minute_spec (d - 60000 * o)) as [Lq Uq].
      fold q in Lq, Uq.
      set (W1 := 2 ^ (- e1 - 16)).
      set (A := 2 ^ (e1 - ez)).
      set (B := 2 ^ (- ez)).
      assert (PW1 : 0 < W1) by (apply Z.pow_pos_nonneg; lia).
      assert (PA : 0 < A) by (apply Z.pow_pos_nonneg; lia).
      assert (PB : 0 < B) by (apply Z.pow_pos_nonneg; lia).
      assert (EB : B = 65536 * W1 * A).
      { unfold B, W1, A. change 65536 with (2 ^ 16).
        rewrite <- !Z.pow_add_r by lia. f_equal. lia. }
      pose proof (signed_ge (d <? 0) (Zpos m1) e1 d 60000
                    (2 * (q + o) - 1) 1 Hmin1 ltac:(lia) ltac:(lia) R1
                    eq_refl) as G1.
      pose proof (signed_le (d <? 0) (Zpos m1) e1 d 60000
                    (32768 * (2 * (q + o) + 1) - 1) 16 Hmin1 ltac:(lia)
                    ltac:(lia) R1 eq_refl) as G2.
      change (2 ^ 1) with 2 in G1. change (2 ^ 16) with 65536 in G2.
      specialize (G1 ltac:(lia)). specialize (G2 ltac:(lia)).
      fold n1 in G1, G2. fold W1 in G2.
      assert (E1 : 2 ^ (- e1 - 1) = 32768 * W1).
      { unfold W1. change 32768 with (2 ^ 15).
        rewrite <- Z.pow_add_r by lia. f_equal. lia. }
      rewrite E1 in G1.
      set (M := n1 * A + - o * B).
      assert (EM : M = (n1 - 65536 * o * W1) * A) by (unfold M; rewrite EB; ring).
      set (n' := n1 - 65536 * o * W1) in *.
      assert (L1 : (2 * q - 1) * 32768 * W1 <= n').
      { unfold n'. replace ((2 * q - 1) * 32768 * W1)
          with ((2 * (q + o) - 1) * (32768 * W1) - 65536 * o * W1) by ring.
        lia. }
      assert (U1 : n' <= (32768 * (2 * q + 1) - 1) * W1).
      { unfold n'. replace ((32768 * (2 * q + 1) - 1) * W1)
          with ((32768 * (2 * (q + o) + 1) - 1) * W1 - 65536 * o * W1) by ring.
        lia. }
      assert (L2 : (2 * q - 1) * B <= M * 2).
      { rewrite EM, EB.
        replace ((2 * q - 1) * (65536 * W1 * A))
          with ((2 * q - 1) * 32768 * W1 * (2 * A)) by ring.
        replace (n' * A * 2) with (n' * (2 * A)) by ring.
        apply Z.mul_le_mono_nonneg_r; lia. }
      assert (U2 : M * 65536 <= (32768 * (2 * q + 1) - 1) * B).
      { rewrite EM, EB.
        replace ((32768 * (2 * q + 1) - 1) * (65536 * W1 * A))
          with ((32768 * (2 * q + 1) - 1) * W1 * (65536 * A)) by ring.
        replace (n' * A * 65536) with (n' * (65536 * A)) by ring.
        apply Z.mul_le_mono_nonneg_r; lia. }
      assert (Bq : - 34359738368 < q < 34359738368) by lia.
      destruct (Z.eq_dec M 0) as [M0|NM].
      * exists false. rewrite M0 in *.
        assert (Q1 : 2 * q - 1 <= 0).
        { destruct (Z.le_gt_cases (2 * q - 1) 0) as [X|X]; [exact X|exfalso].
          assert (0 < (2 * q - 1) * B) by (apply Z.mul_pos_pos; lia). lia. }
        assert (Q2 : 0 <= 32768 * (2 * q + 1) - 1).
        { destruct (Z.le_gt_cases 0 (32768 * (2 * q + 1) - 1)) as [X|X];
            [exact X|exfalso].
          assert ((32768 * (2 * q + 1) - 1) * B < 0)
            by (apply Z.mul_neg_pos; lia).
          lia. }
        assert (H : q = 0) by lia. rewrite H. reflexivity.
      * destruct (binary_normalize_rounds M ez false NM ltac:(lia))
          as (m2 & e2 & P2 & R2 & ->).
        fold B in R2.
        pose proof (pseudo_emin m2 e2 P2) as Hmin2.
        assert (Hm2 : 0 < m2).
        { apply (rounds_to_positive m2 e2 (Z.abs M) B P2 PB R2).
          assert (X : B <= 2 ^ (- emin prec emax))
            by (apply Z.pow_le_mono_r; lia).
          apply Z.le_trans with (1 := X).
          rewrite <- (Z.mul_1_l (2 ^ (- emin prec emax))) at 1.
          apply Z.mul_le_mono_nonneg_r; [|lia].
          apply Z.pow_nonneg. lia. }
        assert (He2 : e2 <= -16).
        { pose proof (rounds_to_exponent m2 e2 (Z.abs M) B 36 P2 PB R2
                        ltac:(lia)) as X.
          change (2 ^ 36) with 68719476736 in X.
          unfold emin, prec, emax in X.
          assert (K1 : -68719476737 * B <= (2 * q - 1) * B)
            by (apply Z.mul_le_mono_nonneg_r; lia).
          assert (K2 : (32768 * (2 * q + 1) - 1) * B
                       <= (32768 * 68719476737 - 1) * B)
            by (apply Z.mul_le_mono_nonneg_r; lia).
          assert (Y : Z.abs M < B * 68719476736) by lia.
          specialize (X Y ltac:(lia)). lia. }
        destruct m2 as [|p2|p2]; try lia.
        destruct (pseudo_finite (M <? 0) p2 e2 P2) as [_ ->];
          [unfold emax, prec; lia|].
        exists (M <? 0). apply Math_round_finite; [lia|].
        apply (round_window (M <? 0) (Zpos p2) e2 M B q);
          try assumption; try reflexivity; lia.
Qed.

Lemma padStart_digits (n : Z) :
  0 <= n -> padStart (decimal_digits n) 2 "0" = two_digits n.
Proof.
  intros Hn. unfold two_digits. destruct (Z.ltb_spec n 10) as [A|A].
  - destruct (Z.eq_dec n 0) as [->|NZ]; [reflexivity|].
    assert (N1 : ndigits n = 1).
    { apply ndigits_unique; [|lia]. change (10 ^ (1 - 1)) with 1.
      change (10 ^ 1) with 10. lia. }
    unfold padStart. fold (strlen (decimal_digits n)).
    rewrite <- ndigits_strlen, N1. reflexivity.
  - pose proof (ndigits_bounds n ltac:(lia)) as [_ U].
    assert (N2 : 2 <= ndigits n).
    { destruct (Z.le_gt_cases 2 (ndigits n)) as [X|X]; [exact X|exfalso].
      assert (Y : 10 ^ ndigits n <= 10 ^ 1) by (apply Z.pow_le_mono_r; lia).
      change (10 ^ 1) with 10 in Y. lia. }
    unfold padStart. fold (strlen (decimal_digits n)).
    rewrite <- ndigits_strlen.
    replace (Z.to_nat (2 - ndigits n)) with 0%nat by lia. reflexivity.
Qed.

Lemma formatZoneOffset_of (r : Reading) (d o : Z) :
  computeDifferenceFromLocal r = div (of_Z d) (of_Z 60000) ->
  timezone_offset r = of_Z o ->
  Z.abs d < 2 ^ 50 -> Z.abs o < 2 ^ 31 ->
  formatZoneOffset r = offset_label (nearest_minute (d - 60000 * o)).
Proof.
  intros Hc Ht Hd Ho.
  assert (P31 : 2 ^ 31 = 2147483648) by reflexivity.
  assert (P36 : 2 ^ 36 = 68719476736) by reflexivity.
  assert (P49 : 2 ^ 49 = 562949953421312) by reflexivity.
  assert (P50 : 2 ^ 50 = 1125899906842624) by reflexivity.
  assert (P51 : 2 ^ 51 = 2251799813685248) by reflexivity.
  assert (P53 : 2 ^ prec = 9007199254740992) by reflexivity.
  unfold formatZoneOffset. rewrite Hc, Ht.
  destruct (round_sum d o Hd Ho) as [s ->].
  pose proof (nearest_minute_bound (d - 60000 * o) ltac:(lia)) as Bq.
  set (q := nearest_minute (d - 60000 * o)) in *.
  rewrite binary_normalize_int. unfold offset_label.
  destruct (Z.eqb_spec q 0) as [Q0|Q0].
  - rewrite Q0. destruct s; vm_compute; reflexivity.
  - assert (Sg : Number_ge (of_Z q) (of_Z 0) = (0 <=? q)).
    { destruct (of_Z_finite q ltac:(lia)) as (m & e & -> & _).
      change (of_Z 0) with (S754_zero false).
      unfold Number_ge, SFleb. cbn [SFcompare].
      destruct (Z.ltb_spec q 0), (Z.leb_spec 0 q); try reflexivity; lia. }
    rewrite Sg, Math_abs_of_Z by lia.
    destruct (minutes_parts (Z.abs q) ltac:(lia)) as (-> & -> & Bh & Bm).
    rewrite !toString_of_Z, !padStart_digits by lia. reflexivity.
Qed.

(** X19.  The label of a zone is the offset of its clock from UTC, to the
    nearest minute. *)
Theorem formatZoneOffset_minutes (r : Reading) (a b o : Z) :
  now_time r = of_Z a -> zone_time r = of_Z b ->
  timezone_offset r = of_Z o ->
  Z.abs a < 2 ^ 53 -> Z.abs b < 2 ^ 53 -> Z.abs (b - a) < 2 ^ 50 ->
  Z.abs o < 2 ^ 31 ->
  formatZoneOffset r = offset_label (nearest_minute (b - a - 60000 * o)).
Proof.
  intros Hn Hz Ht Ha Hb Hd Ho.
  assert (P50 : 2 ^ 50 = 1125899906842624) by reflexivity.
  assert (P53 : 2 ^ 53 = 9007199254740992) by reflexivity.
  apply formatZoneOffset_of; try assumption.
  apply computeDifference_of_Z; try assumption. lia.
Qed.

(** ** A zone a whole number of minutes away *)

Lemma nearest_minute_near (k ms : Z) :
  0 <= ms <= 30000 -> nearest_minute (60000 * k - ms) = k.
Proof.
  intros H. unfold nearest_minute. symmetry.
  apply Z.div_unique with (r := 60000 - 2 * ms); [left; lia | ring].
Qed.

(** X21.  The date read back for a zone has no milliseconds: when it is
    [k] minutes from the current time but for the [ms] milliseconds lost,
    the label is the offset [k - o] from UTC and the description names
    [k] minutes, except that one minute ahead is taken for the local
    time. *)
Theorem whole_minutes_apart (r : Reading) (a k ms o : Z) :
  now_time r = of_Z a -> zone_time r = of_Z (a - ms + 60000 * k) ->
  timezone_offset r = of_Z o ->
  0 <= ms < 1000 -> Z.abs a < 2 ^ 52 -> Z.abs k < 2 ^ 31 ->
  Z.abs o < 2 ^ 31 ->
  formatZoneOffset r = offset_label (k - o) /\
  relativeDescription r
  = if (k =? 0) || ((k =? 1) && (0 <? ms)) then "Matches your local time"
    else String.concat " " (duration (Z.abs k)) ++ " "
         ++ (if 0 <? k then "ahead" else "behind").
Proof.
  intros Hn Hz Ht Hms Ha Hk Ho.
  assert (P31 : 2 ^ 31 = 2147483648) by reflexivity.
  assert (P50 : 2 ^ 50 = 1125899906842624) by reflexivity.
  assert (P52 : 2 ^ 52 = 4503599627370496) by reflexivity.
  assert (P53 : 2 ^ 53 = 9007199254740992) by reflexivity.
  assert (Ed : a - ms + 60000 * k - a = 60000 * k - ms) by ring.
  assert (Hc : computeDifferenceFromLocal r
               = div (of_Z (60000 * k - ms)) (of_Z 60000)).
  { rewrite <- Ed. apply computeDifference_of_Z; try assumption; lia. }
  split.
  - rewrite (formatZoneOffset_of r _ o Hc Ht) by lia.
    replace (60000 * k - ms - 60000 * o) with (60000 * (k - o) - ms) by ring.
    now rewrite nearest_minute_near by lia.
  - rewrite (relativeDescription_of r _ Hc) by lia. unfold describe.
    rewrite nearest_minute_near by lia.
    destruct (Z.ltb_spec (Z.abs (60000 * k - ms)) 60000) as [A|A].
    + replace ((k =? 0) || ((k =? 1) && (0 <? ms))) with true; [reflexivity|].
      symmetry. apply orb_true_iff.
      destruct (Z.eq_dec k 0) as [->|N0]; [now left|right].
      assert (k = 1) by lia. subst k.
      apply andb_true_intro. split; [reflexivity | apply Z.ltb_lt; lia].
    + replace ((k =? 0) || ((k =? 1) && (0 <? ms))) with false.
      * replace (0 <? 60000 * k - ms) with (0 <? k); [reflexivity|].
        destruct (Z.ltb_spec 0 k), (Z.ltb_spec 0 (60000 * k - ms));
          try reflexivity; lia.
      * symmetry. apply orb_false_iff. split; [apply Z.eqb_neq; lia|].
        apply andb_false_iff.
        destruct (Z.eq_dec k 1) as [->|N1];
          [right; apply Z.ltb_ge; lia | left; apply Z.eqb_neq; lia].
Qed.

(** ** The zones of the picker *)

Lemma Set_add_spec (x : string) (acc : list string) :
  Set_add x acc
  = if existsb (fun y => String.eqb y x) acc then acc else (acc ++ [x])%list.
Proof.
  induction acc as [|y r IH]; [reflexivity|]. cbn [Set_add existsb].
  destruct (String.eqb y x); [reflexivity|]. cbn [orb]. rewrite IH.
  destruct (existsb (fun y0 => String.eqb y0 x) r); reflexivity.
Qed.

Lemma existsb_eqb_In (x : string) (l : list string) :
  existsb (fun y => String.eqb y x) l = true <-> In x l.
Proof.
  rewrite existsb_exists. split.
  - intros (y & Hy & E). apply String.eqb_eq in E. now subst y.
  - intros H. exists x. split; [exact H | apply String.eqb_refl].
Qed.

Lemma Set_fold_spec (xs acc : list string) :
  NoDup xs ->
  fold_left (fun a x => Set_add x a) xs acc
  = (acc ++ filter (fun x => negb (existsb (fun y => String.eqb y x) acc)) xs)
      %list.
Proof.
  revert acc. induction xs as [|z r IH]; intros acc Hnd.
  - cbn. now rewrite app_nil_r.
  - inversion Hnd as [|? ? Hz Hr]; subst. cbn [fold_left filter].
    rewrite Set_add_spec.
    destruct (existsb (fun y => String.eqb y z) acc) eqn:Ez; cbn [negb].
    + apply IH, Hr.
    + rewrite (IH _ Hr), <- app_assoc. cbn [app]. do 2 f_equal.
      apply filter_ext_in. intros x Hx. rewrite existsb_app. cbn [existsb].
      rewrite orb_false_r.
      destruct (String.eqb_spec z x) as [->|]; [contradiction|].
      now rewrite orb_false_r.
Qed.

Lemma BASE_TIMEZONES_NoDup : NoDup BASE_TIMEZONES.
Proof.
  assert (E : nodup string_dec BASE_TIMEZONES = BASE_TIMEZONES)
    by (vm_compute; reflexivity).
  rewrite <- E. apply NoDup_nodup.
Qed.

Lemma Set_from_zones (local : string) :
  Set_from (local :: BASE_TIMEZONES) = picker_zones local.
Proof.
  unfold Set_from. cbn [fold_left Set_add].
  rewrite (Set_fold_spec _ _ BASE_TIMEZONES_NoDup). cbn [app].
  unfold picker_zones. f_equal. apply filter_ext. intros x. cbn [existsb].
  rewrite orb_false_r, String.eqb_sym. reflexivity.
Qed.

Lemma picker_zones_In (local z : string) :
  In z (picker_zones local) <-> z = local \/ In z BASE_TIMEZONES.
Proof.
  unfold picker_zones. cbn [In]. rewrite filter_In. split.
  - intros [->|[H _]]; [now left | now right].
  - intros [->|H]; [now left|].
    destruct (String.eqb_spec z local) as [->|N]; [now left|].
    right. split; [exact H | reflexivity].
Qed.

Lemma picker_zones_NoDup (local : string) : NoDup (picker_zones local).
Proof.
  unfold picker_zones. constructor.
  - rewrite filter_In, String.eqb_refl. intros [_ H]. discriminate H.
  - apply NoDup_filter, BASE_TIMEZONES_NoDup.
Qed.

Lemma find_value (z : string) (f : string -> string) (zones : list string) :
  find (fun o => String.eqb (option_value o) z)
    (map (fun zone => mkZoneOption zone (f zone)) zones)
  = if existsb (fun y => String.eqb y z) zones
    then Some (mkZoneOption z (f z)) else None.
Proof.
  induction zones as [|y r IH]; [reflexivity|].
  cbn [map find existsb option_value].
  destruct (String.eqb_spec y z) as [->|N]; [reflexivity|]. exact IH.
Qed.

Lemma connected_timezoneOptions (host : string -> Reading) (iso : string)
  (id : Z) (c : Clock) :
  timezoneOptions (connectedCallback host iso id c)
  = map (fun zone => mkZoneOption zone (formatZoneLabel zone (host zone) c))
      (picker_zones (localTimezone c)).
Proof.
  unfold connectedCallback, startClock, updateCurrentTime,
    initializeTimezones.
  cbn [set_intervalId set_currentTime set_timezoneOptions
       set_selectedTimezone timezoneOptions localTimezone].
  rewrite Set_from_zones. reflexivity.
Qed.

(** X15.  The picker lists the viewer's zone first and every base zone
    once, and starts on the viewer's zone. *)
Theorem connectedCallback_options (host : string -> Reading)
  (iso : string) (id : Z) (c : Clock) :
  let c' := connectedCallback host iso id c in
  timezoneOptions c'
  = map (fun zone => mkZoneOption zone (formatZoneLabel zone (host zone) c))
      (picker_zones (localTimezone c)) /\
  NoDup (map option_value (timezoneOptions c')) /\
  (forall z, In z BASE_TIMEZONES -> In z (map option_value (timezoneOptions c')))
  /\ selectedTimezone c' = Some (localTimezone c) /\
  selectedTimezoneLabel c' = Some ("Local (" ++ localTimezone c ++ ")") /\
  currentTime c' = iso /\ intervalId c' = Some id /\
  localTimezone c' = localTimezone c.
Proof.
  cbn zeta.
  pose proof (connected_timezoneOptions host iso id c) as E.
  assert (V : map option_value (timezoneOptions (connectedCallback host iso id c))
              = picker_zones (localTimezone c)).
  { rewrite E, map_map. cbn [option_value]. apply map_id. }
  split; [exact E|]. split; [rewrite V; apply picker_zones_NoDup|].
  split; [intros z Hz; rewrite V; apply picker_zones_In; now right|].
  split; [reflexivity|]. split; [|repeat split].
  unfold selectedTimezoneLabel, is_selected. rewrite E.
  change (selectedTimezone (connectedCallback host iso id c))
    with (Some (localTimezone c)).
  rewrite (find_value (localTimezone c)
             (fun zone => formatZoneLabel zone (host zone) c)).
  unfold picker_zones at 1. cbn [existsb]. rewrite String.eqb_refl.
  cbn [orb option_label]. unfold formatZoneLabel.
  now rewrite String.eqb_refl.
Qed.

(** X16.  After a zone is picked, the label shown is the one made for it
    when the picker was filled; a zone that is not listed is shown by its
    identifier. *)
Theorem selectedTimezoneLabel_picked (host : string -> Reading)
  (iso : string) (id : Z) (c : Clock) (zone : string) :
  selectedTimezoneLabel
    (handleTimezoneChange zone (connectedCallback host iso id c))
  = Some (if existsb (fun z => String.eqb z zone)
               (localTimezone c :: BASE_TIMEZONES)
          then formatZoneLabel zone (host zone) c else zone).
Proof.
  pose proof (connected_timezoneOptions host iso id c) as E.
  unfold selectedTimezoneLabel, is_selected, handleTimezoneChange.
  cbn [set_selectedTimezone selectedTimezone timezoneOptions].
  rewrite E.
  rewrite (find_value zone (fun z => formatZoneLabel z (host z) c)).
  assert (X : existsb (fun z => String.eqb z zone)
                (picker_zones (localTimezone c))
              = existsb (fun z => String.eqb z zone)
                  (localTimezone c :: BASE_TIMEZONES)).
  { apply eq_true_iff_eq. rewrite !existsb_eqb_In, picker_zones_In.
    cbn [In]. split; intros [H|H]; auto. }
  rewrite X.
  destruct (existsb (fun z => String.eqb z zone)
              (localTimezone c :: BASE_TIMEZONES)); reflexivity.
Qed.

(** X17.  When the date of the zone cannot be read back, the texts are made
    from [NaN]. *)
Theorem invalid_zone_date (r : Reading) :
  zone_time r = NaN ->
  relativeDescription r = " behind" /\ formatZoneOffset r = "UTC-NaN:NaN".
Proof.
  intros Hz.
  assert (E : computeDifferenceFromLocal r = NaN).
  { unfold computeDifferenceFromLocal. rewrite Hz. reflexivity. }
  unfold relativeDescription, formatZoneOffset. rewrite E. split.
  - vm_compute. reflexivity.
  - change (add NaN (Number_neg (timezone_offset r))) with NaN.
    vm_compute. reflexivity.
Qed.

(** ** The zone that is displayed *)

Lemma clock_step_local (ev : clock_event) (c : Clock) :
  localTimezone (clock_step ev c) = localTimezone c.
Proof. destruct ev; reflexivity. Qed.

Lemma clock_run_local (evs : list clock_event) (c : Clock) :
  localTimezone (clock_run evs c) = localTimezone c.
Proof.
  revert c. induction evs as [|ev r IH]; intros c; [reflexivity|].
  unfold clock_run in *. cbn [fold_left]. now rewrite IH, clock_step_local.
Qed.

(** X20.  Whatever happens to a clock, the zone that it displays is not
    empty: it is the zone picked when that is not empty, and the viewer's
    when no zone or an empty one is selected; the viewer's zone stays the
    one resolved at construction, which is UTC when the host reports
    none. *)
Theorem displayed_zone_never_empty (evs : list clock_event) (iso : string)
  (resolved : option string) :
  let c := clock_run evs (newClock iso resolved) in
  localTimezone c
  = match resolved with
    | Some z => if String.eqb z "" then "UTC" else z
    | None => "UTC"
    end /\
  selectedTimezoneForDisplay c <> "" /\
  (forall z, selectedTimezone c = Some z -> z <> "" ->
             selectedTimezoneForDisplay c = z) /\
  (selectedTimezone c = None \/ selectedTimezone c = Some "" ->
   selectedTimezoneForDisplay c = localTimezone c).
Proof.
  cbn zeta. rewrite clock_run_local.
  set (c := clock_run evs (newClock iso resolved)).
  assert (L : localTimezone c <> "").
  { unfold c. rewrite clock_run_local. cbn [newClock localTimezone].
    destruct resolved as [z|]; [|discriminate].
    destruct (String.eqb_spec z ""); [discriminate | assumption]. }
  split; [reflexivity|]. unfold selectedTimezoneForDisplay. split.
  - destruct (selectedTimezone c) as [z|]; [|exact L].
    destruct (String.eqb_spec z ""); assumption.
  - split.
    + intros z -> Hz. destruct (String.eqb_spec z ""); [contradiction|].
      reflexivity.
    + intros [-> | ->]; cbn [String.eqb]; apply clock_run_local.
Qed.

Lemma invalid_zone_date_witness :
  relativeDescription (mkReading (of_Z 1700000000123) NaN (of_Z 0))
  = " behind" /\
  formatZoneOffset (mkReading (of_Z 1700000000123) NaN (of_Z 0))
  = "UTC-NaN:NaN".
Proof.
  apply (invalid_zone_date (mkReading (of_Z 1700000000123) NaN (of_Z 0))).
  reflexivity.
Defined.

Lemma relativeDescription_minutes_witness :
  relativeDescription
    (mkReading (of_Z 1700000000123) (of_Z 1700019800000) (of_Z 0))
  = "5 hours 30 minutes ahead".
Proof.
  rewrite (relativeDescription_minutes
             (mkReading (of_Z 1700000000123) (of_Z 1700019800000) (of_Z 0))
             1700000000123 1700019800000);
    [vm_compute; reflexivity | reflexivity | reflexivity
     | reflexivity | reflexivity | reflexivity].
Defined.

Lemma formatZoneOffset_minutes_witness :
  formatZoneOffset
    (mkReading (of_Z 1700000000123) (of_Z 1699971200000) (of_Z (-330)))
  = "UTC-02:30".
Proof.
  rewrite (formatZoneOffset_minutes
             (mkReading (of_Z 1700000000123) (of_Z 1699971200000)
                (of_Z (-330)))
             1700000000123 1699971200000 (-330));
    [vm_compute; reflexivity | reflexivity | reflexivity | reflexivity
     | reflexivity | reflexivity | reflexivity | reflexivity].
Defined.

Lemma whole_minutes_apart_witness :
  formatZoneOffset
    (mkReading (of_Z 1700000000123) (of_Z 1700019800000) (of_Z (-60)))
  = "UTC+06:30" /\
  relativeDescription
    (mkReading (of_Z 1700000000123) (of_Z 1700019800000) (of_Z (-60)))
  = "5 hours 30 minutes ahead".
Proof.
  apply (whole_minutes_apart
           (mkReading (of_Z 1700000000123) (of_Z 1700019800000) (of_Z (-60)))
           1700000000123 330 123 (-60));
    try reflexivity; lia.
Defined.
